(** * Minerva recommendation service: parser, fuser, cleaner, prompt and retry

    A shallow embedding of [python-service/services/search_service.py] and
    [python-service/services/question_generator.py].

    Conventions of the embedding.
    - A Python [str] is a list of Unicode code points ([N]).  [len], slices
      and [find] therefore count code points, as Python does.
    - [str.isspace], [str.strip()], [str.split()] and the regex class [\s]
      use CPython's whitespace table, which is reproduced in full.
    - [str.lower], [str.isdigit] and the regex class [\d] follow the
      character tables of Unicode 14.0.0 (the [unicodedata] of CPython 3.11),
      which are reproduced as lists of ranges; [lower] includes the two-point
      lower case of U+0130 and the final form of the Greek sigma.
    - Each regular expression of the source is embedded as the function that
      tries a match at the head of the text; [re_sub], [re_findall],
      [re_search] and [re_split] scan with it from left to right the way
      [re] does (leftmost match, then continue after it).
    - [json.loads] belongs to the standard library: the parser is a Section
      variable of the development, and [json_loads_ref] is a reference
      decoder used to run concrete inputs.  It follows the scanner of
      CPython 3.11: the values, the messages and positions of the decoding
      errors, the floats that round to zero or to an infinity, and the limit
      of 4300 digits on integers.
    - Exceptions are explicit: a fallible function returns [outcome]. *)

From Stdlib Require Import String Ascii.
From Stdlib Require Import ZArith NArith Bool Lia List.
Import ListNotations.

Local Open Scope Z_scope.

#[local] Set Warnings "-register-all".

(* ================================================================== *)
(** * Python text *)
(* ================================================================== *)

Definition char := N.
Definition str := list char.

Definition ch (a : ascii) : char := N_of_ascii a.
Definition py (s : string) : str := map ch (list_ascii_of_string s).

Definition nl : char := 10%N.
Definition ellipsis : char := 8230%N.   (* U+2026 *)

Definition char_eqb (a b : char) : bool := N.eqb a b.

Fixpoint str_eqb (a b : str) : bool :=
  match a, b with
  | [], [] => true
  | x :: a', y :: b' => char_eqb x y && str_eqb a' b'
  | _, _ => false
  end.

Definition is_empty (s : str) : bool :=
  match s with [] => true | _ :: _ => false end.

Definition len (s : str) : Z := Z.of_nat (length s).

(** [not l] for a list. *)
Definition is_nil {A} (l : list A) : bool :=
  match l with [] => true | _ :: _ => false end.

(** [Py_UNICODE_ISSPACE]. *)
Definition isspace (c : char) : bool :=
  ((9 <=? c) && (c <=? 13) || (28 <=? c) && (c <=? 32)
   || (c =? 133) || (c =? 160) || (c =? 5760)
   || (8192 <=? c) && (c <=? 8202)
   || (c =? 8232) || (c =? 8233) || (c =? 8239) || (c =? 8287)
   || (c =? 12288))%N.

Fixpoint takewhile (p : char -> bool) (s : str) : str :=
  match s with
  | c :: t => if p c then c :: takewhile p t else []
  | [] => []
  end.

Fixpoint dropwhile (p : char -> bool) (s : str) : str :=
  match s with
  | c :: t => if p c then dropwhile p t else s
  | [] => []
  end.

(** Membership in a list of ranges sorted by their first code point. *)
Fixpoint in_ranges (c : char) (ranges : list (N * N)) : bool :=
  match ranges with
  | [] => false
  | (first, last) :: rest =>
      if (c <? first)%N then false
      else (c <=? last)%N || in_ranges c rest
  end.

(** The decimal digits (category Nd): [str.isdecimal] and the regex class [\d]. *)
Definition decimal_ranges : list (N * N) :=
  [
    (48, 57); (1632, 1641); (1776, 1785); (1984, 1993); (2406, 2415);
    (2534, 2543); (2662, 2671); (2790, 2799); (2918, 2927); (3046, 3055);
    (3174, 3183); (3302, 3311); (3430, 3439); (3558, 3567); (3664, 3673);
    (3792, 3801); (3872, 3881); (4160, 4169); (4240, 4249); (6112, 6121);
    (6160, 6169); (6470, 6479); (6608, 6617); (6784, 6793); (6800, 6809);
    (6992, 7001); (7088, 7097); (7232, 7241); (7248, 7257); (42528, 42537);
    (43216, 43225); (43264, 43273); (43472, 43481); (43504, 43513); (43600, 43609);
    (44016, 44025); (65296, 65305); (66720, 66729); (68912, 68921); (69734, 69743);
    (69872, 69881); (69942, 69951); (70096, 70105); (70384, 70393); (70736, 70745);
    (70864, 70873); (71248, 71257); (71360, 71369); (71472, 71481); (71904, 71913);
    (72016, 72025); (72784, 72793); (73040, 73049); (73120, 73129); (92768, 92777);
    (92864, 92873); (93008, 93017); (120782, 120831); (123200, 123209); (123632, 123641);
    (125264, 125273); (130032, 130041)
  ]%N.

(** The characters of [str.isdigit]: the decimal digits and the other characters of numeric type Digit. *)
Definition digit_ranges : list (N * N) :=
  [
    (48, 57); (178, 179); (185, 185); (1632, 1641); (1776, 1785);
    (1984, 1993); (2406, 2415); (2534, 2543); (2662, 2671); (2790, 2799);
    (2918, 2927); (3046, 3055); (3174, 3183); (3302, 3311); (3430, 3439);
    (3558, 3567); (3664, 3673); (3792, 3801); (3872, 3881); (4160, 4169);
    (4240, 4249); (4969, 4977); (6112, 6121); (6160, 6169); (6470, 6479);
    (6608, 6618); (6784, 6793); (6800, 6809); (6992, 7001); (7088, 7097);
    (7232, 7241); (7248, 7257); (8304, 8304); (8308, 8313); (8320, 8329);
    (9312, 9320); (9332, 9340); (9352, 9360); (9450, 9450); (9461, 9469);
    (9471, 9471); (10102, 10110); (10112, 10120); (10122, 10130); (42528, 42537);
    (43216, 43225); (43264, 43273); (43472, 43481); (43504, 43513); (43600, 43609);
    (44016, 44025); (65296, 65305); (66720, 66729); (68160, 68163); (68912, 68921);
    (69216, 69224); (69714, 69722); (69734, 69743); (69872, 69881); (69942, 69951);
    (70096, 70105); (70384, 70393); (70736, 70745); (70864, 70873); (71248, 71257);
    (71360, 71369); (71472, 71481); (71904, 71913); (72016, 72025); (72784, 72793);
    (73040, 73049); (73120, 73129); (92768, 92777); (92864, 92873); (93008, 93017);
    (120782, 120831); (123200, 123209); (123632, 123641); (125264, 125273); (127232, 127242);
    (130032, 130041)
  ]%N.

(** The simple lower-case mapping as runs [(first, last, step, target)]: the code points [first], [first + step], ... up to [last] map to [target], [target + step], ... *)
Definition lower_runs : list (N * N * N * N) :=
  [
    (65, 90, 1, 97); (192, 214, 1, 224); (216, 222, 1, 248);
    (256, 302, 2, 257); (304, 304, 1, 105); (306, 310, 2, 307);
    (313, 327, 2, 314); (330, 374, 2, 331); (376, 376, 1, 255);
    (377, 381, 2, 378); (385, 385, 1, 595); (386, 388, 2, 387);
    (390, 390, 1, 596); (391, 391, 1, 392); (393, 394, 1, 598);
    (395, 395, 1, 396); (398, 398, 1, 477); (399, 399, 1, 601);
    (400, 400, 1, 603); (401, 401, 1, 402); (403, 403, 1, 608);
    (404, 404, 1, 611); (406, 406, 1, 617); (407, 407, 1, 616);
    (408, 408, 1, 409); (412, 412, 1, 623); (413, 413, 1, 626);
    (415, 415, 1, 629); (416, 420, 2, 417); (422, 422, 1, 640);
    (423, 423, 1, 424); (425, 425, 1, 643); (428, 428, 1, 429);
    (430, 430, 1, 648); (431, 431, 1, 432); (433, 434, 1, 650);
    (435, 437, 2, 436); (439, 439, 1, 658); (440, 440, 1, 441);
    (444, 444, 1, 445); (452, 452, 1, 454); (453, 453, 1, 454);
    (455, 455, 1, 457); (456, 456, 1, 457); (458, 458, 1, 460);
    (459, 475, 2, 460); (478, 494, 2, 479); (497, 497, 1, 499);
    (498, 500, 2, 499); (502, 502, 1, 405); (503, 503, 1, 447);
    (504, 542, 2, 505); (544, 544, 1, 414); (546, 562, 2, 547);
    (570, 570, 1, 11365); (571, 571, 1, 572); (573, 573, 1, 410);
    (574, 574, 1, 11366); (577, 577, 1, 578); (579, 579, 1, 384);
    (580, 580, 1, 649); (581, 581, 1, 652); (582, 590, 2, 583);
    (880, 882, 2, 881); (886, 886, 1, 887); (895, 895, 1, 1011);
    (902, 902, 1, 940); (904, 906, 1, 941); (908, 908, 1, 972);
    (910, 911, 1, 973); (913, 929, 1, 945); (931, 939, 1, 963);
    (975, 975, 1, 983); (984, 1006, 2, 985); (1012, 1012, 1, 952);
    (1015, 1015, 1, 1016); (1017, 1017, 1, 1010); (1018, 1018, 1, 1019);
    (1021, 1023, 1, 891); (1024, 1039, 1, 1104); (1040, 1071, 1, 1072);
    (1120, 1152, 2, 1121); (1162, 1214, 2, 1163); (1216, 1216, 1, 1231);
    (1217, 1229, 2, 1218); (1232, 1326, 2, 1233); (1329, 1366, 1, 1377);
    (4256, 4293, 1, 11520); (4295, 4295, 1, 11559); (4301, 4301, 1, 11565);
    (5024, 5103, 1, 43888); (5104, 5109, 1, 5112); (7312, 7354, 1, 4304);
    (7357, 7359, 1, 4349); (7680, 7828, 2, 7681); (7838, 7838, 1, 223);
    (7840, 7934, 2, 7841); (7944, 7951, 1, 7936); (7960, 7965, 1, 7952);
    (7976, 7983, 1, 7968); (7992, 7999, 1, 7984); (8008, 8013, 1, 8000);
    (8025, 8031, 2, 8017); (8040, 8047, 1, 8032); (8072, 8079, 1, 8064);
    (8088, 8095, 1, 8080); (8104, 8111, 1, 8096); (8120, 8121, 1, 8112);
    (8122, 8123, 1, 8048); (8124, 8124, 1, 8115); (8136, 8139, 1, 8050);
    (8140, 8140, 1, 8131); (8152, 8153, 1, 8144); (8154, 8155, 1, 8054);
    (8168, 8169, 1, 8160); (8170, 8171, 1, 8058); (8172, 8172, 1, 8165);
    (8184, 8185, 1, 8056); (8186, 8187, 1, 8060); (8188, 8188, 1, 8179);
    (8486, 8486, 1, 969); (8490, 8490, 1, 107); (8491, 8491, 1, 229);
    (8498, 8498, 1, 8526); (8544, 8559, 1, 8560); (8579, 8579, 1, 8580);
    (9398, 9423, 1, 9424); (11264, 11311, 1, 11312); (11360, 11360, 1, 11361);
    (11362, 11362, 1, 619); (11363, 11363, 1, 7549); (11364, 11364, 1, 637);
    (11367, 11371, 2, 11368); (11373, 11373, 1, 593); (11374, 11374, 1, 625);
    (11375, 11375, 1, 592); (11376, 11376, 1, 594); (11378, 11378, 1, 11379);
    (11381, 11381, 1, 11382); (11390, 11391, 1, 575); (11392, 11490, 2, 11393);
    (11499, 11501, 2, 11500); (11506, 11506, 1, 11507); (42560, 42604, 2, 42561);
    (42624, 42650, 2, 42625); (42786, 42798, 2, 42787); (42802, 42862, 2, 42803);
    (42873, 42875, 2, 42874); (42877, 42877, 1, 7545); (42878, 42886, 2, 42879);
    (42891, 42891, 1, 42892); (42893, 42893, 1, 613); (42896, 42898, 2, 42897);
    (42902, 42920, 2, 42903); (42922, 42922, 1, 614); (42923, 42923, 1, 604);
    (42924, 42924, 1, 609); (42925, 42925, 1, 620); (42926, 42926, 1, 618);
    (42928, 42928, 1, 670); (42929, 42929, 1, 647); (42930, 42930, 1, 669);
    (42931, 42931, 1, 43859); (42932, 42946, 2, 42933); (42948, 42948, 1, 42900);
    (42949, 42949, 1, 642); (42950, 42950, 1, 7566); (42951, 42953, 2, 42952);
    (42960, 42960, 1, 42961); (42966, 42968, 2, 42967); (42997, 42997, 1, 42998);
    (65313, 65338, 1, 65345); (66560, 66599, 1, 66600); (66736, 66771, 1, 66776);
    (66928, 66938, 1, 66967); (66940, 66954, 1, 66979); (66956, 66962, 1, 66995);
    (66964, 66965, 1, 67003); (68736, 68786, 1, 68800); (71840, 71871, 1, 71872);
    (93760, 93791, 1, 93792); (125184, 125217, 1, 125218)
  ]%N.

(** The cased characters that are not case-ignorable. *)
Definition cased_ranges : list (N * N) :=
  [
    (65, 90); (97, 122); (170, 170); (181, 181); (186, 186);
    (192, 214); (216, 246); (248, 442); (444, 447); (452, 659);
    (661, 687); (880, 883); (886, 887); (891, 893); (895, 895);
    (902, 902); (904, 906); (908, 908); (910, 929); (931, 1013);
    (1015, 1153); (1162, 1327); (1329, 1366); (1376, 1416); (4256, 4293);
    (4295, 4295); (4301, 4301); (4304, 4346); (4349, 4351); (5024, 5109);
    (5112, 5117); (7296, 7304); (7312, 7354); (7357, 7359); (7424, 7467);
    (7531, 7543); (7545, 7578); (7680, 7957); (7960, 7965); (7968, 8005);
    (8008, 8013); (8016, 8023); (8025, 8025); (8027, 8027); (8029, 8029);
    (8031, 8061); (8064, 8116); (8118, 8124); (8126, 8126); (8130, 8132);
    (8134, 8140); (8144, 8147); (8150, 8155); (8160, 8172); (8178, 8180);
    (8182, 8188); (8450, 8450); (8455, 8455); (8458, 8467); (8469, 8469);
    (8473, 8477); (8484, 8484); (8486, 8486); (8488, 8488); (8490, 8493);
    (8495, 8500); (8505, 8505); (8508, 8511); (8517, 8521); (8526, 8526);
    (8544, 8575); (8579, 8580); (9398, 9449); (11264, 11387); (11390, 11492);
    (11499, 11502); (11506, 11507); (11520, 11557); (11559, 11559); (11565, 11565);
    (42560, 42605); (42624, 42651); (42786, 42863); (42865, 42887); (42891, 42894);
    (42896, 42954); (42960, 42961); (42963, 42963); (42965, 42969); (42997, 42998);
    (43002, 43002); (43824, 43866); (43872, 43880); (43888, 43967); (64256, 64262);
    (64275, 64279); (65313, 65338); (65345, 65370); (66560, 66639); (66736, 66771);
    (66776, 66811); (66928, 66938); (66940, 66954); (66956, 66962); (66964, 66965);
    (66967, 66977); (66979, 66993); (66995, 67001); (67003, 67004); (68736, 68786);
    (68800, 68850); (71840, 71903); (93760, 93823); (119808, 119892); (119894, 119964);
    (119966, 119967); (119970, 119970); (119973, 119974); (119977, 119980); (119982, 119993);
    (119995, 119995); (119997, 120003); (120005, 120069); (120071, 120074); (120077, 120084);
    (120086, 120092); (120094, 120121); (120123, 120126); (120128, 120132); (120134, 120134);
    (120138, 120144); (120146, 120485); (120488, 120512); (120514, 120538); (120540, 120570);
    (120572, 120596); (120598, 120628); (120630, 120654); (120656, 120686); (120688, 120712);
    (120714, 120744); (120746, 120770); (120772, 120779); (122624, 122633); (122635, 122654);
    (125184, 125251); (127280, 127305); (127312, 127337); (127344, 127369)
  ]%N.

(** The case-ignorable characters. *)
Definition case_ignorable_ranges : list (N * N) :=
  [
    (39, 39); (46, 46); (58, 58); (94, 94); (96, 96);
    (168, 168); (173, 173); (175, 175); (180, 180); (183, 184);
    (688, 879); (884, 885); (890, 890); (900, 901); (903, 903);
    (1155, 1161); (1369, 1369); (1375, 1375); (1425, 1469); (1471, 1471);
    (1473, 1474); (1476, 1477); (1479, 1479); (1524, 1524); (1536, 1541);
    (1552, 1562); (1564, 1564); (1600, 1600); (1611, 1631); (1648, 1648);
    (1750, 1757); (1759, 1768); (1770, 1773); (1807, 1807); (1809, 1809);
    (1840, 1866); (1958, 1968); (2027, 2037); (2042, 2042); (2045, 2045);
    (2070, 2093); (2137, 2139); (2184, 2184); (2192, 2193); (2200, 2207);
    (2249, 2306); (2362, 2362); (2364, 2364); (2369, 2376); (2381, 2381);
    (2385, 2391); (2402, 2403); (2417, 2417); (2433, 2433); (2492, 2492);
    (2497, 2500); (2509, 2509); (2530, 2531); (2558, 2558); (2561, 2562);
    (2620, 2620); (2625, 2626); (2631, 2632); (2635, 2637); (2641, 2641);
    (2672, 2673); (2677, 2677); (2689, 2690); (2748, 2748); (2753, 2757);
    (2759, 2760); (2765, 2765); (2786, 2787); (2810, 2815); (2817, 2817);
    (2876, 2876); (2879, 2879); (2881, 2884); (2893, 2893); (2901, 2902);
    (2914, 2915); (2946, 2946); (3008, 3008); (3021, 3021); (3072, 3072);
    (3076, 3076); (3132, 3132); (3134, 3136); (3142, 3144); (3146, 3149);
    (3157, 3158); (3170, 3171); (3201, 3201); (3260, 3260); (3263, 3263);
    (3270, 3270); (3276, 3277); (3298, 3299); (3328, 3329); (3387, 3388);
    (3393, 3396); (3405, 3405); (3426, 3427); (3457, 3457); (3530, 3530);
    (3538, 3540); (3542, 3542); (3633, 3633); (3636, 3642); (3654, 3662);
    (3761, 3761); (3764, 3772); (3782, 3782); (3784, 3789); (3864, 3865);
    (3893, 3893); (3895, 3895); (3897, 3897); (3953, 3966); (3968, 3972);
    (3974, 3975); (3981, 3991); (3993, 4028); (4038, 4038); (4141, 4144);
    (4146, 4151); (4153, 4154); (4157, 4158); (4184, 4185); (4190, 4192);
    (4209, 4212); (4226, 4226); (4229, 4230); (4237, 4237); (4253, 4253);
    (4348, 4348); (4957, 4959); (5906, 5908); (5938, 5939); (5970, 5971);
    (6002, 6003); (6068, 6069); (6071, 6077); (6086, 6086); (6089, 6099);
    (6103, 6103); (6109, 6109); (6155, 6159); (6211, 6211); (6277, 6278);
    (6313, 6313); (6432, 6434); (6439, 6440); (6450, 6450); (6457, 6459);
    (6679, 6680); (6683, 6683); (6742, 6742); (6744, 6750); (6752, 6752);
    (6754, 6754); (6757, 6764); (6771, 6780); (6783, 6783); (6823, 6823);
    (6832, 6862); (6912, 6915); (6964, 6964); (6966, 6970); (6972, 6972);
    (6978, 6978); (7019, 7027); (7040, 7041); (7074, 7077); (7080, 7081);
    (7083, 7085); (7142, 7142); (7144, 7145); (7149, 7149); (7151, 7153);
    (7212, 7219); (7222, 7223); (7288, 7293); (7376, 7378); (7380, 7392);
    (7394, 7400); (7405, 7405); (7412, 7412); (7416, 7417); (7468, 7530);
    (7544, 7544); (7579, 7679); (8125, 8125); (8127, 8129); (8141, 8143);
    (8157, 8159); (8173, 8175); (8189, 8190); (8203, 8207); (8216, 8217);
    (8228, 8228); (8231, 8231); (8234, 8238); (8288, 8292); (8294, 8303);
    (8305, 8305); (8319, 8319); (8336, 8348); (8400, 8432); (11388, 11389);
    (11503, 11505); (11631, 11631); (11647, 11647); (11744, 11775); (11823, 11823);
    (12293, 12293); (12330, 12333); (12337, 12341); (12347, 12347); (12441, 12446);
    (12540, 12542); (40981, 40981); (42232, 42237); (42508, 42508); (42607, 42610);
    (42612, 42621); (42623, 42623); (42652, 42655); (42736, 42737); (42752, 42785);
    (42864, 42864); (42888, 42890); (42994, 42996); (43000, 43001); (43010, 43010);
    (43014, 43014); (43019, 43019); (43045, 43046); (43052, 43052); (43204, 43205);
    (43232, 43249); (43263, 43263); (43302, 43309); (43335, 43345); (43392, 43394);
    (43443, 43443); (43446, 43449); (43452, 43453); (43471, 43471); (43493, 43494);
    (43561, 43566); (43569, 43570); (43573, 43574); (43587, 43587); (43596, 43596);
    (43632, 43632); (43644, 43644); (43696, 43696); (43698, 43700); (43703, 43704);
    (43710, 43711); (43713, 43713); (43741, 43741); (43756, 43757); (43763, 43764);
    (43766, 43766); (43867, 43871); (43881, 43883); (44005, 44005); (44008, 44008);
    (44013, 44013); (64286, 64286); (64434, 64450); (65024, 65039); (65043, 65043);
    (65056, 65071); (65106, 65106); (65109, 65109); (65279, 65279); (65287, 65287);
    (65294, 65294); (65306, 65306); (65342, 65342); (65344, 65344); (65392, 65392);
    (65438, 65439); (65507, 65507); (65529, 65531); (66045, 66045); (66272, 66272);
    (66422, 66426); (67456, 67461); (67463, 67504); (67506, 67514); (68097, 68099);
    (68101, 68102); (68108, 68111); (68152, 68154); (68159, 68159); (68325, 68326);
    (68900, 68903); (69291, 69292); (69446, 69456); (69506, 69509); (69633, 69633);
    (69688, 69702); (69744, 69744); (69747, 69748); (69759, 69761); (69811, 69814);
    (69817, 69818); (69821, 69821); (69826, 69826); (69837, 69837); (69888, 69890);
    (69927, 69931); (69933, 69940); (70003, 70003); (70016, 70017); (70070, 70078);
    (70089, 70092); (70095, 70095); (70191, 70193); (70196, 70196); (70198, 70199);
    (70206, 70206); (70367, 70367); (70371, 70378); (70400, 70401); (70459, 70460);
    (70464, 70464); (70502, 70508); (70512, 70516); (70712, 70719); (70722, 70724);
    (70726, 70726); (70750, 70750); (70835, 70840); (70842, 70842); (70847, 70848);
    (70850, 70851); (71090, 71093); (71100, 71101); (71103, 71104); (71132, 71133);
    (71219, 71226); (71229, 71229); (71231, 71232); (71339, 71339); (71341, 71341);
    (71344, 71349); (71351, 71351); (71453, 71455); (71458, 71461); (71463, 71467);
    (71727, 71735); (71737, 71738); (71995, 71996); (71998, 71998); (72003, 72003);
    (72148, 72151); (72154, 72155); (72160, 72160); (72193, 72202); (72243, 72248);
    (72251, 72254); (72263, 72263); (72273, 72278); (72281, 72283); (72330, 72342);
    (72344, 72345); (72752, 72758); (72760, 72765); (72767, 72767); (72850, 72871);
    (72874, 72880); (72882, 72883); (72885, 72886); (73009, 73014); (73018, 73018);
    (73020, 73021); (73023, 73029); (73031, 73031); (73104, 73105); (73109, 73109);
    (73111, 73111); (73459, 73460); (78896, 78904); (92912, 92916); (92976, 92982);
    (92992, 92995); (94031, 94031); (94095, 94111); (94176, 94177); (94179, 94180);
    (110576, 110579); (110581, 110587); (110589, 110590); (113821, 113822); (113824, 113827);
    (118528, 118573); (118576, 118598); (119143, 119145); (119155, 119170); (119173, 119179);
    (119210, 119213); (119362, 119364); (121344, 121398); (121403, 121452); (121461, 121461);
    (121476, 121476); (121499, 121503); (121505, 121519); (122880, 122886); (122888, 122904);
    (122907, 122913); (122915, 122916); (122918, 122922); (123184, 123197); (123566, 123566);
    (123628, 123631); (125136, 125142); (125252, 125259); (127995, 127999); (917505, 917505);
    (917536, 917631); (917760, 917999)
  ]%N.

(** [str.isdecimal] on one character, which is also the regex class [\d]. *)
Definition isdecimal (c : char) : bool := in_ranges c decimal_ranges.

(** [str.isdigit] on one character. *)
Definition isdigit (c : char) : bool := in_ranges c digit_ranges.

Fixpoint lower_in (c : char) (runs : list (N * N * N * N)) : char :=
  match runs with
  | [] => c
  | (first, last, step, target) :: rest =>
      if (c <? first)%N then c
      else if ((c <=? last) && ((c - first) mod step =? 0))%N
           then (target + (c - first))%N
           else lower_in c rest
  end.

(** The simple lower-case mapping of one character. *)
Definition lower_char (c : char) : char := lower_in c lower_runs.

Definition cased (c : char) : bool := in_ranges c cased_ranges.
Definition case_ignorable (c : char) : bool := in_ranges c case_ignorable_ranges.

(** No cased character follows, case-ignorable characters apart. *)
Definition final_sigma_after (t : str) : bool :=
  match dropwhile case_ignorable t with
  | [] => true
  | d :: _ => negb (cased d)
  end.

(** [s.lower()], character by character.  U+0130 becomes i followed by the
    combining dot U+0307.  The capital sigma U+03A3 becomes the final sigma
    U+03C2 when a cased character precedes it and none follows it,
    case-ignorable characters apart, and the small sigma U+03C3 otherwise;
    [after_cased] tells whether a cased character precedes. *)
Fixpoint lower_from (after_cased : bool) (s : str) : str :=
  match s with
  | [] => []
  | c :: t =>
      (if (c =? 931)%N
       then [if after_cased && final_sigma_after t then 962%N else 963%N]
       else if (c =? 304)%N then [105%N; 775%N]
       else [lower_char c])
      ++ lower_from (if case_ignorable c then after_cased else cased c) t
  end.

Definition lower (s : str) : str := lower_from false s.

(** [s.startswith(p)] *)
Fixpoint startswith (s p : str) {struct p} : bool :=
  match p, s with
  | [], _ => true
  | a :: p', b :: s' => char_eqb a b && startswith s' p'
  | _ :: _, [] => false
  end.

(** [s.endswith(p)] *)
Definition endswith (s p : str) : bool := startswith (rev s) (rev p).

(** [sub in s] *)
Fixpoint contains (s sub : str) : bool :=
  startswith s sub ||
  match s with
  | [] => false
  | _ :: t => contains t sub
  end.

Fixpoint find_from (i : Z) (s sub : str) : Z :=
  if startswith s sub then i
  else match s with
       | [] => -1
       | _ :: t => find_from (i + 1) t sub
       end.

(** [s.find(sub)] *)
Definition find (s sub : str) : Z := find_from 0 s sub.

Fixpoint rfind_from (i : Z) (s sub : str) (best : Z) : Z :=
  let best' := if startswith s sub then i else best in
  match s with
  | [] => best'
  | _ :: t => rfind_from (i + 1) t sub best'
  end.

(** [s.rfind(sub)] *)
Definition rfind (s sub : str) : Z := rfind_from 0 s sub (-1).

(** Python's slice index normalisation. *)
Definition slice_index (n : Z) (s : str) : nat :=
  if n <? 0 then Z.to_nat (Z.max 0 (len s + n)) else Z.to_nat (Z.min n (len s)).

(** [s[:n]] *)
Definition slice_to (n : Z) (s : str) : str := firstn (slice_index n s) s.

(** [s[n:]] *)
Definition slice_from (n : Z) (s : str) : str := skipn (slice_index n s) s.

(** [s[i:j]] *)
Definition slice (i j : Z) (s : str) : str :=
  let a := slice_index i s in
  let b := slice_index j s in
  firstn (b - a)%nat (skipn a s).

Definition lstrip_by (p : char -> bool) (s : str) : str := dropwhile p s.
Fixpoint rstrip_by (p : char -> bool) (s : str) : str :=
  match s with
  | [] => []
  | c :: t =>
      match rstrip_by p t with
      | [] => if p c then [] else [c]
      | r => c :: r
      end
  end.
Definition strip_by (p : char -> bool) (s : str) : str :=
  rstrip_by p (lstrip_by p s).

(** [s.strip()] *)
Definition strip (s : str) : str := strip_by isspace s.

Definition mem_char (cs : str) (c : char) : bool := existsb (char_eqb c) cs.

(** [s.strip(cs)] and [s.lstrip(cs)] *)
Definition strip_chars (cs s : str) : str := strip_by (mem_char cs) s.
Definition lstrip_chars (cs s : str) : str := lstrip_by (mem_char cs) s.

(** [s.split(c)] for a one-character separator: never an empty list. *)
Fixpoint split_char_acc (c : char) (acc : str) (s : str) : list str :=
  match s with
  | [] => [rev acc]
  | x :: t => if char_eqb x c then rev acc :: split_char_acc c [] t
              else split_char_acc c (x :: acc) t
  end.
Definition split_char (c : char) (s : str) : list str := split_char_acc c [] s.

(** [s.split(c, 1)]: one piece when [c] does not occur, else two. *)
Definition split_once (c : char) (s : str) : list str :=
  if existsb (char_eqb c) s
  then [takewhile (fun x => negb (char_eqb x c)) s;
        tl (dropwhile (fun x => negb (char_eqb x c)) s)]
  else [s].

(** [sep.join(l)] *)
Fixpoint join (sep : str) (l : list str) : str :=
  match l with
  | [] => []
  | [a] => a
  | a :: r => a ++ sep ++ join sep r
  end.

(** [s.split()]: the maximal runs of non-whitespace. *)
Fixpoint split_ws_acc (acc : str) (s : str) : list str :=
  match s with
  | [] => match acc with [] => [] | _ => [rev acc] end
  | c :: t =>
      if isspace c
      then match acc with
           | [] => split_ws_acc [] t
           | _ => rev acc :: split_ws_acc [] t
           end
      else split_ws_acc (c :: acc) t
  end.
Definition split_ws (s : str) : list str := split_ws_acc [] s.

(** Line boundaries of [str.splitlines]. *)
Definition islinebreak (c : char) : bool :=
  ((10 <=? c) && (c <=? 13) || (28 <=? c) && (c <=? 30)
   || (c =? 133) || (c =? 8232) || (c =? 8233))%N.

(** [s.splitlines()]: CR LF counts as one boundary, no final empty line. *)
Fixpoint splitlines_acc (acc : str) (s : str) : list str :=
  match s with
  | [] => match acc with [] => [] | _ => [rev acc] end
  | c :: t =>
      if islinebreak c
      then rev acc ::
           match t with
           | d :: t' =>
               if (c =? 13)%N && (d =? 10)%N then splitlines_acc [] t'
               else splitlines_acc [] t
           | [] => []
           end
      else splitlines_acc (c :: acc) t
  end.
Definition splitlines (s : str) : list str := splitlines_acc [] s.

(* ================================================================== *)
(** * Regular expressions *)
(* ================================================================== *)

(** A pattern is the function that tries it at the head of the text and, on
    success, returns its group (or the matched text) and the text that
    follows the match. *)
Definition pattern := str -> option (str * str).

(** [re.sub(p, repl, s)] *)
Fixpoint re_sub_fuel (p : pattern) (repl : str -> str) (fuel : nat) (s : str)
  : str :=
  match fuel with
  | O => s
  | S f =>
      match s with
      | [] => []
      | c :: t =>
          match p s with
          | Some (g, rest) => repl g ++ re_sub_fuel p repl f rest
          | None => c :: re_sub_fuel p repl f t
          end
      end
  end.
Definition re_sub (p : pattern) (repl : str -> str) (s : str) : str :=
  re_sub_fuel p repl (length s) s.

(** [re.findall(p, s)] *)
Fixpoint re_findall_fuel (p : pattern) (fuel : nat) (s : str) : list str :=
  match fuel with
  | O => []
  | S f =>
      match s with
      | [] => []
      | _ :: t =>
          match p s with
          | Some (g, rest) => g :: re_findall_fuel p f rest
          | None => re_findall_fuel p f t
          end
      end
  end.
Definition re_findall (p : pattern) (s : str) : list str :=
  re_findall_fuel p (length s) s.

(** [re.search(p, s)]: the group of the leftmost match. *)
Fixpoint re_search (p : pattern) (s : str) : option str :=
  match s with
  | [] => None
  | _ :: t =>
      match p s with
      | Some (g, _) => Some g
      | None => re_search p t
      end
  end.

(** [re.split(p, s)] for a pattern with one group: the pieces of text
    alternate with the groups of the separators. *)
Fixpoint re_split_fuel (p : pattern) (fuel : nat) (acc : str) (s : str)
  : list str :=
  match fuel with
  | O => [rev acc ++ s]
  | S f =>
      match s with
      | [] => [rev acc]
      | c :: t =>
          match p s with
          | Some (g, rest) => rev acc :: g :: re_split_fuel p f [] rest
          | None => re_split_fuel p f (c :: acc) t
          end
      end
  end.
Definition re_split (p : pattern) (s : str) : list str :=
  re_split_fuel p (length s) [] s.

(** [s.replace(old, new)] for a non-empty [old]. *)
Definition pat_literal (old : str) : pattern :=
  fun s => if startswith s old then Some (old, skipn (length old) s) else None.
Definition replace (old new : str) (s : str) : str :=
  re_sub (pat_literal old) (fun _ => new) s.

(** [\[([^\]]+)\]\([^\)]+\)] *)
Definition pat_md_link : pattern :=
  fun s =>
    match s with
    | c :: t =>
        if char_eqb c (ch "[") then
          let text := takewhile (fun x => negb (char_eqb x (ch "]"))) t in
          match text, dropwhile (fun x => negb (char_eqb x (ch "]"))) t with
          | _ :: _, _ :: lp :: r =>
              if char_eqb lp (ch "(") then
                let url := takewhile (fun x => negb (char_eqb x (ch ")"))) r in
                match url, dropwhile (fun x => negb (char_eqb x (ch ")"))) r with
                | _ :: _, _ :: rest => Some (text, rest)
                | _, _ => None
                end
              else None
          | _, _ => None
          end
        else None
    | [] => None
    end.

(** At most [n] leading copies of [c] removed: the greedy [c{0,n}]. *)
Fixpoint drop_upto (n : nat) (c : char) (s : str) : str :=
  match n, s with
  | S k, x :: t => if char_eqb x c then drop_upto k c t else s
  | _, _ => s
  end.

(** [#{1,6}\s*] *)
Definition pat_heading : pattern :=
  fun s =>
    match s with
    | c :: t =>
        if char_eqb c (ch "#")
        then Some ([], dropwhile isspace (drop_upto 5 (ch "#") t))
        else None
    | [] => None
    end.

(** [\s+] *)
Definition pat_spaces : pattern :=
  fun s =>
    match s with
    | c :: t => if isspace c then Some ([], dropwhile isspace t) else None
    | [] => None
    end.

(** [https?://[^\s\)]+] *)
Definition url_char (c : char) : bool :=
  negb (isspace c) && negb (char_eqb c (ch ")")).

Definition pat_url : pattern :=
  fun s =>
    let scheme :=
      if startswith s (py "https://") then Some 8%nat
      else if startswith s (py "http://") then Some 7%nat
      else None in
    match scheme with
    | Some n =>
        let body := takewhile url_char (skipn n s) in
        match body with
        | _ :: _ => Some (firstn n s ++ body, dropwhile url_char (skipn n s))
        | [] => None
        end
    | None => None
    end.

(** [\]\((https?://[^\)]+)\)] *)
Definition pat_md_target : pattern :=
  fun s =>
    match s with
    | rb :: lp :: r =>
        if char_eqb rb (ch "]") && char_eqb lp (ch "(") then
          let scheme :=
            if startswith r (py "https://") then Some 8%nat
            else if startswith r (py "http://") then Some 7%nat
            else None in
          match scheme with
          | Some n =>
              let notrp := fun x => negb (char_eqb x (ch ")")) in
              match takewhile notrp (skipn n r), dropwhile notrp (skipn n r) with
              | (_ :: _) as body, _ :: rest => Some (firstn n r ++ body, rest)
              | _, _ => None
              end
          | None => None
          end
        else None
    | _ => None
    end.

(** [\*\*([^*]+)\*\*] *)
Definition pat_bold : pattern :=
  fun s =>
    match s with
    | a :: b :: r =>
        if char_eqb a (ch "*") && char_eqb b (ch "*") then
          let notstar := fun x => negb (char_eqb x (ch "*")) in
          match takewhile notstar r, dropwhile notstar r with
          | (_ :: _) as g, _ :: b' :: rest =>
              if char_eqb b' (ch "*") then Some (g, rest) else None
          | _, _ => None
          end
        else None
    | _ => None
    end.

(** [\n\s*(\d+)\.\s+] *)
Definition pat_numbered : pattern :=
  fun s =>
    match s with
    | c :: t =>
        if char_eqb c nl then
          let t1 := dropwhile isspace t in
          match takewhile isdecimal t1, dropwhile isdecimal t1 with
          | (_ :: _) as g, dot :: ((w :: _) as r) =>
              if char_eqb dot (ch ".") && isspace w
              then Some (g, dropwhile isspace r)
              else None
          | _, _ => None
          end
        else None
    | [] => None
    end.

(** Case-insensitive comparison of a text character with the lower-case
    pattern letter [p], as [re.IGNORECASE] does on [str]: besides the two
    ASCII cases, U+0130 and U+0131 match [i], U+017F matches [s] and U+212A
    matches [k]. *)
Definition char_eqb_ci (p c : char) : bool :=
  char_eqb (lower_char c) p
  || (char_eqb p (ch "i") && ((c =? 304) || (c =? 305))%N)
  || (char_eqb p (ch "s") && (c =? 383)%N)
  || (char_eqb p (ch "k") && (c =? 8490)%N).

Fixpoint startswith_ci (s p : str) {struct p} : bool :=
  match p, s with
  | [], _ => true
  | a :: p', b :: s' => char_eqb_ci a b && startswith_ci s' p'
  | _ :: _, [] => false
  end.

(** [re.sub(r'^(Product|Name|Title):?\s*', '', s, flags=re.IGNORECASE)]:
    anchored at the start of the text, so at most one replacement. *)
Definition sub_label_prefix (s : str) : str :=
  let word :=
    if startswith_ci s (py "product") then Some 7%nat
    else if startswith_ci s (py "name") then Some 4%nat
    else if startswith_ci s (py "title") then Some 5%nat
    else None in
  match word with
  | Some n => dropwhile isspace (drop_upto 1 (ch ":") (skipn n s))
  | None => s
  end.

(** [re.match(r'^\d+[\.\)]\s', s)] as a test. *)
Definition match_numbered_item (s : str) : bool :=
  match takewhile isdecimal s, dropwhile isdecimal s with
  | _ :: _, p :: w :: _ =>
      (char_eqb p (ch ".") || char_eqb p (ch ")")) && isspace w
  | _, _ => false
  end.

(* ================================================================== *)
(** * Text Normalizer *)
(* ================================================================== *)

(** [clean_exa_text(text, max_length)] *)
Definition clean_exa_text_len (max_length : Z) (text : option str)
  : option str :=
  match text with
  | None => None
  | Some text =>
      if is_empty text then None
      else
        let cleaned := re_sub pat_md_link (fun g => g) text in
        let cleaned := re_sub pat_heading (fun _ => []) cleaned in
        let cleaned := replace (py "*") (py " ") cleaned in
        let cleaned := replace (py "\n") (py " ") cleaned in
        let cleaned := strip (re_sub pat_spaces (fun _ => py " ") cleaned) in
        if is_empty cleaned then None
        else if len cleaned >? max_length then
          let truncated := slice_to max_length cleaned in
          let last_period := rfind truncated (py ".") in
          if last_period >? 120
          then Some (slice_to (last_period + 1) truncated)
          else Some (strip truncated ++ [ellipsis])
        else Some cleaned
  end.

(** The default [max_length=400], which every call site uses. *)
Definition clean_exa_text (text : option str) : option str :=
  clean_exa_text_len 400 text.

(** The loop of [extract_highlights]: [break] once [max_items] are held. *)
Fixpoint highlight_lines (max_items : Z) (highlights : list str)
  (lines : list str) : list str :=
  match lines with
  | [] => highlights
  | line :: rest =>
      let stripped := strip line in
      if is_empty stripped then highlight_lines max_items highlights rest
      else
        let highlights :=
          if startswith stripped (py "-") || startswith stripped (py "*")
             || match_numbered_item stripped
          then match clean_exa_text
                       (Some (lstrip_chars (py "-*0123456789. )") stripped)) with
               | Some clean_line => highlights ++ [clean_line]
               | None => highlights
               end
          else highlights in
        if Z.of_nat (length highlights) >=? max_items then highlights
        else highlight_lines max_items highlights rest
  end.

(** [extract_highlights(text)] with the default [max_items=4]. *)
Definition extract_highlights (text : str) : option (list str) :=
  if is_empty text then None
  else match highlight_lines 4 [] (splitlines text) with
       | [] => None
       | hs => Some hs
       end.

(** [s.split(sep)] for a non-empty separator of any length. *)
Fixpoint split_str_fuel (sep : str) (fuel : nat) (acc : str) (s : str)
  : list str :=
  match fuel with
  | O => [rev acc ++ s]
  | S f =>
      match s with
      | [] => [rev acc]
      | c :: t =>
          if startswith s sep
          then rev acc :: split_str_fuel sep f [] (skipn (length sep) s)
          else split_str_fuel sep f (c :: acc) t
      end
  end.
Definition split_str (sep : str) (s : str) : list str :=
  split_str_fuel sep (length s) [] s.

(** [str(n)] for a non-negative integer. *)
Fixpoint digits_fuel (fuel : nat) (n : N) (acc : str) : str :=
  match fuel with
  | O => acc
  | S f =>
      let acc := (48 + n mod 10)%N :: acc in
      if (n <? 10)%N then acc else digits_fuel f (n / 10)%N acc
  end.
Definition str_of_nat (n : nat) : str :=
  digits_fuel (S n) (N.of_nat n) [].

(** [str(z)] for an integer. *)
Definition str_of_int (z : Z) : str :=
  match z with
  | Zneg p => ch "-" :: str_of_nat (Pos.to_nat p)
  | _ => str_of_nat (Z.to_nat z)
  end.

(* ================================================================== *)
(** * Python values, dictionaries, exceptions *)
(* ================================================================== *)

(** A [float]: the decimal [m * 10^e], or a special value. *)
Inductive pyfloat :=
| FDec (m e : Z)
| FNaN
| FInf (negative : bool).

Inductive pyval :=
| PNone
| PBool (b : bool)
| PInt (z : Z)
| PFloat (f : pyfloat)
| PStr (s : str)
| PList (l : list pyval)
| PDict (d : list (str * pyval)).

(** A [dict] with [str] keys, in insertion order. *)
Definition dict (V : Type) := list (str * V).
Definition pdict := dict pyval.

Fixpoint dict_get {V} (d : dict V) (k : str) : option V :=
  match d with
  | [] => None
  | (k', v) :: r => if str_eqb k' k then Some v else dict_get r k
  end.

(** [d[k] = v]: an existing key keeps its place. *)
Fixpoint dict_set {V} (d : dict V) (k : str) (v : V) : dict V :=
  match d with
  | [] => [(k, v)]
  | (k', v') :: r =>
      if str_eqb k' k then (k', v) :: r else (k', v') :: dict_set r k v
  end.

(** [k in d] *)
Definition dict_has {V} (d : dict V) (k : str) : bool :=
  match dict_get d k with Some _ => true | None => false end.

(** [d.get(k)] *)
Definition py_get (d : pdict) (k : str) : pyval :=
  match dict_get d k with Some v => v | None => PNone end.

(** Truth value of an object. *)
Definition truthy (v : pyval) : bool :=
  match v with
  | PNone => false
  | PBool b => b
  | PInt z => negb (z =? 0)
  | PFloat (FDec m _) => negb (m =? 0)
  | PFloat _ => true
  | PStr s => negb (is_empty s)
  | PList l => match l with [] => false | _ => true end
  | PDict d => match d with [] => false | _ => true end
  end.

(** [a or b] *)
Definition py_or (a b : pyval) : pyval := if truthy a then a else b.

Inductive exn_kind :=
| ValueError | TypeError | AttributeError | IndexError | KeyError
| RuntimeError | OtherException.

(** A raised exception: its class and [str(e)]. *)
Record exn := Exn { exn_class : exn_kind; exn_message : str }.

Inductive outcome (A : Type) :=
| Return (a : A)
| Raise (e : exn).
Arguments Return {A} a.
Arguments Raise {A} e.

Definition bind {A B} (m : outcome A) (k : A -> outcome B) : outcome B :=
  match m with
  | Return a => k a
  | Raise e => Raise e
  end.

Notation "x <- m ;; k" := (bind m (fun x => k))
  (at level 61, m at next level, right associativity).
Notation "' p <- m ;; k" := (bind m (fun p => k))
  (at level 61, p pattern, m at next level, right associativity).

Definition type_name (v : pyval) : str :=
  match v with
  | PNone => py "NoneType"
  | PBool _ => py "bool"
  | PInt _ => py "int"
  | PFloat _ => py "float"
  | PStr _ => py "str"
  | PList _ => py "list"
  | PDict _ => py "dict"
  end.

Definition no_attribute (v : pyval) (attr : string) : exn :=
  Exn AttributeError
      (py "'" ++ type_name v ++ py "' object has no attribute '" ++ py attr
          ++ py "'").

(** The receiver of [x.get(...)] or [x.keys()]. *)
Definition as_dict (attr : string) (v : pyval) : outcome pdict :=
  match v with
  | PDict d => Return d
  | _ => Raise (no_attribute v attr)
  end.

(** [for x in v] *)
Definition py_iter (v : pyval) : outcome (list pyval) :=
  match v with
  | PList l => Return l
  | PDict d => Return (map (fun kv => PStr (fst kv)) d)
  | PStr s => Return (map (fun c => PStr [c]) s)
  | _ => Raise (Exn TypeError
                    (py "'" ++ type_name v ++ py "' object is not iterable"))
  end.

(** [len(v)] *)
Definition py_len (v : pyval) : outcome Z :=
  match v with
  | PList l => Return (Z.of_nat (length l))
  | PDict d => Return (Z.of_nat (length d))
  | PStr s => Return (len s)
  | _ => Raise (Exn TypeError
                    (py "object of type '" ++ type_name v ++ py "' has no len()"))
  end.

(** What [json.loads] does with a text. *)
Inductive json_result :=
| JsonValue (v : pyval)
| JsonDecodeError (msg : str)
| JsonFailure (e : exn).     (* any other exception, e.g. RecursionError *)

(* ================================================================== *)
(** * A reference JSON decoder *)
(* ================================================================== *)

Module JsonRef.

(** Why a scan stops: [StopIteration(idx)], which [raw_decode] reports as
    Expecting value; [JSONDecodeError(msg, s, idx)]; another exception. *)
Inductive failure :=
| Stop (idx : nat)
| Malformed (msg : string) (idx : nat)
| Crash (e : exn).

Definition is_json_ws (c : char) : bool :=
  ((c =? 32) || (c =? 9) || (c =? 10) || (c =? 13))%N.

(** The text after the whitespace at its head, and the index it starts at. *)
Fixpoint skip_ws (s : str) (idx : nat) : str * nat :=
  match s with
  | c :: t => if is_json_ws c then skip_ws t (S idx) else (s, idx)
  | [] => (s, idx)
  end.

(** The digits of a JSON number: 0 to 9 only. *)
Definition is_json_digit (c : char) : bool := ((48 <=? c) && (c <=? 57))%N.

Definition hex_digit (c : char) : option N :=
  if ((48 <=? c) && (c <=? 57))%N then Some (c - 48)%N
  else if ((97 <=? c) && (c <=? 102))%N then Some (c - 87)%N
  else if ((65 <=? c) && (c <=? 70))%N then Some (c - 55)%N
  else None.

Definition hex4 (a b c d : char) : option N :=
  match hex_digit a, hex_digit b, hex_digit c, hex_digit d with
  | Some a, Some b, Some c, Some d => Some (a * 4096 + b * 256 + c * 16 + d)%N
  | _, _, _, _ => None
  end.

(** The body of a string literal whose opening quote is at index [begin];
    [s] starts at index [idx].  On success: the text, what follows the
    closing quote, and the index of that.  An escape of four hexadecimal
    digits is read only when a character follows it. *)
Fixpoint scan_string (begin : nat) (acc : str) (s : str) (idx : nat) {struct s}
  : (str * str * nat) + failure :=
  match s with
  | [] => inr (Malformed "Unterminated string starting at" begin)
  | c :: t =>
      if (c =? 34)%N then inl (rev acc, t, S idx)
      else if (c =? 92)%N then
        match t with
        | [] => inr (Malformed "Unterminated string starting at" begin)
        | e :: u =>
            let simple (x : N) := scan_string begin (x :: acc) u (2 + idx) in
            if (e =? 34)%N then simple 34%N
            else if (e =? 92)%N then simple 92%N
            else if (e =? 47)%N then simple 47%N
            else if (e =? 98)%N then simple 8%N
            else if (e =? 102)%N then simple 12%N
            else if (e =? 110)%N then simple 10%N
            else if (e =? 114)%N then simple 13%N
            else if (e =? 116)%N then simple 9%N
            else if (e =? 117)%N then
              match u with
              | h1 :: h2 :: h3 :: h4 :: ((_ :: _) as v) =>
                  match hex4 h1 h2 h3 h4 with
                  | None => inr (Malformed "Invalid \uXXXX escape" (S idx))
                  | Some hi =>
                      let lone := scan_string begin (hi :: acc) v (6 + idx) in
                      if ((55296 <=? hi) && (hi <=? 56319))%N then
                        match v with
                        | b1 :: b2 :: l1 :: l2 :: l3 :: l4 :: ((_ :: _) as w) =>
                            if ((b1 =? 92) && (b2 =? 117))%N then
                              match hex4 l1 l2 l3 l4 with
                              | None =>
                                  inr (Malformed "Invalid \uXXXX escape" (7 + idx))
                              | Some lo =>
                                  if ((56320 <=? lo) && (lo <=? 57343))%N
                                  then scan_string begin
                                         ((65536 + (hi - 55296) * 1024
                                           + (lo - 56320))%N :: acc) w (12 + idx)
                                  else lone
                              end
                            else lone
                        | _ => lone
                        end
                      else lone
                  end
              | _ => inr (Malformed "Invalid \uXXXX escape" (S idx))
              end
            else inr (Malformed "Invalid \escape" idx)
        end
      else if (c <=? 31)%N
      then inr (Malformed "Invalid control character at" idx)
      else scan_string begin (c :: acc) t (S idx)
  end.

Definition digits_value (ds : str) : Z :=
  fold_left (fun a c => a * 10 + Z.of_N (c - 48)) ds 0.

(** [sys.get_int_max_str_digits()] *)
Definition int_max_str_digits : nat := 4300.

(** [int(text)] for the digits [ds]. *)
Definition int_of_digits (neg : bool) (ds : str) : pyval + failure :=
  if (int_max_str_digits <? length ds)%nat
  then inr (Crash (Exn ValueError
                       (py "Exceeds the limit (4300 digits) for integer string conversion: value has "
                           ++ str_of_nat (length ds)
                           ++ py " digits; use sys.set_int_max_str_digits() to increase the limit")))
  else inl (PInt (if neg then - digits_value ds else digits_value ds)).

(** [float(text)] for the decimal [m * 10^e] with [m] of [digits] digits:
    the decimal itself, unless it rounds to zero or to an infinity.  The
    halfway points are [2^-1075], which rounds to zero, and
    [2^1024 - 2^970], which rounds to infinity. *)
Definition float_of_decimal (neg : bool) (m : Z) (digits : nat) (e : Z) : pyfloat :=
  if m =? 0 then FDec 0 0
  else if 310 <=? e then FInf neg
  else if Z.of_nat digits + e <? - 330 then FDec 0 0
  else if 0 <=? e then
    if 2 ^ 1024 - 2 ^ 970 <=? m * 10 ^ e then FInf neg
    else FDec (if neg then - m else m) e
  else
    if (2 ^ 1024 - 2 ^ 970) * 10 ^ (- e) <=? m then FInf neg
    else if m * 2 ^ 1075 <=? 10 ^ (- e) then FDec 0 0
    else FDec (if neg then - m else m) e.

(** A number at the head of [s]: optional sign, integer part without
    leading zeros, optional fraction, optional exponent.  An integer unless a
    fraction or an exponent is present. *)
Definition scan_number (s : str) (idx : nat)
  : (pyval * str * nat) + failure :=
  let (neg, s1) :=
    match s with
    | c :: t => if (c =? 45)%N then (true, t) else (false, s)
    | [] => (false, s)
    end in
  let int_part :=
    match s1 with
    | c :: t =>
        if (c =? 48)%N then Some ([c], t)
        else if is_json_digit c
        then Some (takewhile is_json_digit s1, dropwhile is_json_digit s1)
        else None
    | [] => None
    end in
  match int_part with
  | None => inr (Stop idx)
  | Some (ids, s2) =>
      let (frac, s3) :=
        match s2 with
        | dot :: ((d :: _) as r) =>
            if (dot =? 46)%N && is_json_digit d
            then (Some (takewhile is_json_digit r), dropwhile is_json_digit r)
            else (None, s2)
        | _ => (None, s2)
        end in
      let (ex, s4) :=
        match s3 with
        | e :: r =>
            if (e =? 101)%N || (e =? 69)%N then
              match r with
              | sg :: ((d :: _) as r') =>
                  if ((sg =? 43) || (sg =? 45))%N && is_json_digit d
                  then (Some (if (sg =? 45)%N
                              then - digits_value (takewhile is_json_digit r')
                              else digits_value (takewhile is_json_digit r')),
                        dropwhile is_json_digit r')
                  else if is_json_digit sg
                  then (Some (digits_value (takewhile is_json_digit r)),
                        dropwhile is_json_digit r)
                  else (None, s3)
              | [d] =>
                  if is_json_digit d then (Some (digits_value [d]), [])
                  else (None, s3)
              | [] => (None, s3)
              end
            else (None, s3)
        | [] => (None, s3)
        end in
      let idx' := (idx + (length s - length s4))%nat in
      match frac, ex with
      | None, None =>
          match int_of_digits neg ids with
          | inl v => inl (v, s4, idx')
          | inr f => inr f
          end
      | _, _ =>
          let fds := match frac with Some f => f | None => [] end in
          let e := match ex with Some e => e | None => 0 end in
          inl (PFloat (float_of_decimal neg (digits_value (ids ++ fds))
                         (length (ids ++ fds)) (e - Z.of_nat (length fds))),
               s4, idx')
      end
  end.

(** [scan_once(s, idx)]: a value at the head of the text; [fuel] bounds the
    nesting and the number of members. *)
Fixpoint scan_value (fuel : nat) (s : str) (idx : nat) {struct fuel}
  : (pyval * str * nat) + failure :=
  match fuel with
  | O => inr (Stop idx)
  | S f =>
      let fix scan_items (n : nat) (acc : list pyval) (s : str) (idx : nat)
        {struct n} : (pyval * str * nat) + failure :=
        match n with
        | O => inr (Stop idx)
        | S n' =>
            match scan_value f s idx with
            | inr e => inr e
            | inl (v, r, i) =>
                let (r1, i1) := skip_ws r i in
                match r1 with
                | c :: r' =>
                    if (c =? 93)%N then inl (PList (rev (v :: acc)), r', S i1)
                    else if (c =? 44)%N then
                      let (r2, i2) := skip_ws r' (S i1) in
                      scan_items n' (v :: acc) r2 i2
                    else inr (Malformed "Expecting ',' delimiter" i1)
                | [] => inr (Malformed "Expecting ',' delimiter" i1)
                end
            end
        end in
      let fix scan_members (n : nat) (acc : pdict) (s : str) (idx : nat)
        {struct n} : (pyval * str * nat) + failure :=
        match n with
        | O => inr (Stop idx)
        | S n' =>
            match s with
            | q :: r0 =>
                if (q =? 34)%N then
                  match scan_string idx [] r0 (S idx) with
                  | inr e => inr e
                  | inl (k, r1, i1) =>
                      let (r2, i2) := skip_ws r1 i1 in
                      match r2 with
                      | colon :: r3 =>
                          if (colon =? 58)%N then
                            let (r4, i4) := skip_ws r3 (S i2) in
                            match scan_value f r4 i4 with
                            | inr e => inr e
                            | inl (v, r5, i5) =>
                                let (r6, i6) := skip_ws r5 i5 in
                                match r6 with
                                | c :: r7 =>
                                    if (c =? 125)%N
                                    then inl (PDict (dict_set acc k v), r7, S i6)
                                    else if (c =? 44)%N then
                                      let (r8, i8) := skip_ws r7 (S i6) in
                                      scan_members n' (dict_set acc k v) r8 i8
                                    else inr (Malformed "Expecting ',' delimiter" i6)
                                | [] => inr (Malformed "Expecting ',' delimiter" i6)
                                end
                            end
                          else inr (Malformed "Expecting ':' delimiter" i2)
                      | [] => inr (Malformed "Expecting ':' delimiter" i2)
                      end
                  end
                else inr (Malformed "Expecting property name enclosed in double quotes" idx)
            | [] => inr (Malformed "Expecting property name enclosed in double quotes" idx)
            end
        end in
      match s with
      | [] => inr (Stop idx)
      | c :: t =>
          if (c =? 34)%N then
            match scan_string idx [] t (S idx) with
            | inl (x, r, i) => inl (PStr x, r, i)
            | inr e => inr e
            end
          else if (c =? 123)%N then
            let (r, i) := skip_ws t (S idx) in
            match r with
            | c' :: r' =>
                if (c' =? 125)%N then inl (PDict [], r', S i)
                else scan_members (length s) [] r i
            | [] => scan_members (length s) [] r i
            end
          else if (c =? 91)%N then
            let (r, i) := skip_ws t (S idx) in
            match r with
            | c' :: r' =>
                if (c' =? 93)%N then inl (PList [], r', S i)
                else scan_items (length s) [] r i
            | [] => scan_items (length s) [] r i
            end
          else if startswith s (py "null") then inl (PNone, skipn 4 s, 4 + idx)%nat
          else if startswith s (py "true")
          then inl (PBool true, skipn 4 s, 4 + idx)%nat
          else if startswith s (py "false")
          then inl (PBool false, skipn 5 s, 5 + idx)%nat
          else if startswith s (py "NaN")
          then inl (PFloat FNaN, skipn 3 s, 3 + idx)%nat
          else if startswith s (py "Infinity")
          then inl (PFloat (FInf false), skipn 8 s, 8 + idx)%nat
          else if startswith s (py "-Infinity")
          then inl (PFloat (FInf true), skipn 9 s, 9 + idx)%nat
          else scan_number s idx
      end
  end.

(** [str(JSONDecodeError(msg, doc, pos))] *)
Definition decode_error (msg : string) (doc : str) (pos : nat) : str :=
  let before := firstn pos doc in
  let lineno := S (length (filter (char_eqb nl) before)) in
  let colno :=
    S (length (takewhile (fun c => negb (char_eqb c nl)) (rev before))) in
  py msg ++ py ": line " ++ str_of_nat lineno ++ py " column "
     ++ str_of_nat colno ++ py " (char " ++ str_of_nat pos ++ py ")".

(** [json.loads(s)] for a text: one value, surrounded by optional
    whitespace.  The limit of the interpreter on the depth of the nesting is
    not reproduced. *)
Definition loads (s : str) : json_result :=
  if startswith s [65279%N]
  then JsonDecodeError
         (decode_error "Unexpected UTF-8 BOM (decode using utf-8-sig)" s 0)
  else
    let (s1, i1) := skip_ws s 0 in
    match scan_value (S (length s)) s1 i1 with
    | inl (v, r, i) =>
        let (r', i') := skip_ws r i in
        match r' with
        | [] => JsonValue v
        | _ => JsonDecodeError (decode_error "Extra data" s i')
        end
    | inr (Stop i) => JsonDecodeError (decode_error "Expecting value" s i)
    | inr (Malformed msg i) => JsonDecodeError (decode_error msg s i)
    | inr (Crash e) => JsonFailure e
    end.

End JsonRef.

Definition json_loads_ref : str -> json_result := JsonRef.loads.

(** A text written with apostrophes standing for double quotes. *)
Definition pyq (s : string) : str :=
  map (fun c => if (c =? 39)%N then 34%N else c) (py s).

(* ================================================================== *)
(** * The model's reply *)
(* ================================================================== *)

(** One entry of [message.executed_tools]. *)
Record tool_record := { tool_name : str; tool_output : option str }.

Record message := { content : option str; executed_tools : list tool_record }.

(** The ChatCompletion object: [response.choices[i].message]. *)
Record completion := { choices : list message }.

(* ================================================================== *)
(** * Structured-Text Parser *)
(* ================================================================== *)

(** A record under construction: every value the scanner stores is a [str]. *)
Definition sdict := dict str.

(** The values of [current_section]. *)
Inductive section :=
| SecTitle | SecUrl | SecImageUrl | SecDescription | SecWhyMatches
| SecAdditionalInfo.

Record scan_state := {
  scanned : list sdict;
  current_result : sdict;
  current_section : option section
}.

Definition k_title := py "title".
Definition k_url := py "url".
Definition k_image_url := py "image_url".
Definition k_description := py "description".
Definition k_why_matches := py "why_matches".
Definition k_additional_info := py "additional_info".
Definition k_relevance := py "relevance".
Definition k_highlights := py "highlights".

Definition placeholder_title := py "Product Recommendation".

(** [d and d.get("title")] *)
Definition has_title (d : sdict) : bool :=
  match d with
  | [] => false
  | _ => match dict_get d k_title with
         | Some (_ :: _) => true
         | _ => false
         end
  end.

(** [if current_result and current_result.get("title"):
       results.append(current_result)] *)
Definition flush (st : scan_state) : list sdict :=
  if has_title (current_result st)
  then scanned st ++ [current_result st]
  else scanned st.

(** [l[1]] *)
Definition index1 (l : list str) : outcome str :=
  match l with
  | _ :: x :: _ => Return x
  | _ => Raise (Exn IndexError (py "list index out of range"))
  end.

(** [d[k] += " " + s] on a key that is present, [d[k] = s] otherwise. *)
Definition set_or_append (d : sdict) (k : str) (s : str) : sdict :=
  match dict_get d k with
  | None => dict_set d k s
  | Some old => dict_set d k (old ++ py " " ++ s)
  end.

Definition image_markers : list str :=
  [py ".jpg"; py ".jpeg"; py ".png"; py ".gif"; py ".webp"; py "image";
   py "img"].

Definition title_keywords : list str := [py "product"; py "name"; py "title"].

(** The text after the first colon, stripped, or [""] without a colon:
    [line.split(':', 1)[1].strip() if ':' in line else ""]. *)
Definition after_colon_or_empty (line : str) : str :=
  if contains line (py ":")
  then match split_once (ch ":") line with
       | _ :: x :: _ => strip x
       | _ => []
       end
  else [].

(** The body of [for line in lines] in [parse_response]. *)
Definition scan_line (st : scan_state) (raw : str) : outcome scan_state :=
  let line := strip raw in
  if is_empty line then Return st
  else
    let cur := current_result st in
    let sec := current_section st in
    let keep d s := Return {| scanned := scanned st;
                              current_result := d;
                              current_section := s |} in
    if match line with c :: _ => isdigit c | [] => false end
       && (contains (slice_to 3 line) (py ".")
           || contains (slice_to 3 line) (py ":"))
    then
      let title_match := split_once (ch ":") line in
      let cur :=
        match title_match with
        | _ :: t :: _ =>
            dict_set [] k_title (strip (strip_chars (py "*") (strip t)))
        | _ =>
            if contains line (py "**") then
              match split_str (py "**") line with
              | _ :: t :: _ => dict_set [] k_title (strip t)
              | _ => []
              end
            else []
        end in
      Return {| scanned := flush st;
                current_result := cur;
                current_section := None |}
    else if startswith line (py "**") && endswith line (py "**")
            && (len line >? 4)
    then
      Return {| scanned := flush st;
                current_result :=
                  dict_set [] k_title (strip (strip_chars (py "*") line));
                current_section := None |}
    else if contains line (py ":")
            && existsb (contains (lower line)) title_keywords
    then
      match split_once (ch ":") line with
      | _ :: v :: _ =>
          let value := strip (strip_chars (py "*") (strip v)) in
          if is_empty value then Return st
          else keep (dict_set cur k_title value) (Some SecTitle)
      | _ => Return st
      end
    else if startswith line (py "http://") || startswith line (py "https://")
    then
      if existsb (contains (lower line)) image_markers
      then keep (dict_set cur k_image_url line) (Some SecUrl)
      else keep (dict_set cur k_url line) (Some SecUrl)
    else if startswith (lower line) (py "url:")
    then
      x <- index1 (split_once (ch ":") line) ;;
      let url := strip x in
      let cur :=
        if startswith url (py "http") then dict_set cur k_url url
        else if startswith url (py "[") && contains url (py "](") then
          match re_search pat_md_target url with
          | Some target => dict_set cur k_url target
          | None => cur
          end
        else cur in
      keep cur (Some SecUrl)
    else if startswith (lower line) (py "image url:")
            || startswith (lower line) (py "image:")
    then
      x <- index1 (split_once (ch ":") line) ;;
      let image_url := strip x in
      keep (if startswith image_url (py "http")
            then dict_set cur k_image_url image_url else cur)
           (Some SecImageUrl)
    else if startswith (lower line) (py "description:")
    then
      x <- index1 (split_once (ch ":") line) ;;
      keep (dict_set cur k_description (strip x)) (Some SecDescription)
    else if contains (lower line) (py "why") && contains (lower line) (py "match")
    then
      let why := after_colon_or_empty line in
      keep (if is_empty why then cur else dict_set cur k_why_matches why)
           (Some SecWhyMatches)
    else if contains (lower line) (py "additional")
            || contains (lower line) (py "information")
    then
      let info := after_colon_or_empty line in
      keep (if is_empty info then cur
            else set_or_append cur k_additional_info info)
           (Some SecAdditionalInfo)
    else
      match cur with
      | [] => Return st
      | _ =>
          match sec with
          | Some SecDescription =>
              keep (set_or_append cur k_description line) sec
          | None =>
              if dict_has cur k_description then Return st
              else keep (set_or_append cur k_description line) sec
          | Some SecWhyMatches =>
              keep (set_or_append cur k_why_matches line) sec
          | Some SecAdditionalInfo =>
              keep (set_or_append cur k_additional_info line) sec
          | _ => Return st
          end
      end.

Fixpoint scan_lines (st : scan_state) (lines : list str) : outcome scan_state :=
  match lines with
  | [] => Return st
  | line :: rest => st' <- scan_line st line ;; scan_lines st' rest
  end.

(** The labeled scan: [content.split('\n')], the loop, the last flush. *)
Definition labeled_scan (content : str) : outcome (list sdict) :=
  st <- scan_lines {| scanned := []; current_result := [];
                      current_section := None |}
                   (split_char nl content) ;;
  Return (flush st).

(** The texts [numbered_sections[i + 1]] visited by
    [for i in range(1, len(numbered_sections), 2)] under the guard
    [i + 1 < len(numbered_sections)]. *)
Fixpoint section_texts (l : list str) : list str :=
  match l with
  | _ :: text :: rest => text :: section_texts rest
  | _ => []
  end.

(** One numbered section of the fallback, with its final guard
    [if fallback_result.get("title")]. *)
Definition fallback_section (section_text : str) : option sdict :=
  let urls := re_findall pat_url section_text in
  let fr : sdict :=
    match urls with
    | u :: _ => dict_set [] k_url u
    | [] => []
    end in
  let lines := split_char nl section_text in
  let first_line := match lines with l0 :: _ => strip l0 | [] => [] end in
  let fr :=
    if contains first_line (py ":") then
      let title_part :=
        strip (hd [] (split_once (ch ":") first_line)) in
      let title_part := sub_label_prefix title_part in
      dict_set fr k_title
        (if is_empty title_part then placeholder_title else title_part)
    else
      match re_search pat_bold first_line with
      | Some g => dict_set fr k_title (strip g)
      | None =>
          dict_set fr k_title
            (if is_empty first_line then placeholder_title
             else slice_to 100 first_line)
      end in
  let description_lines := if 1 <? Z.of_nat (length lines) then tl lines else [] in
  let description :=
    join [nl] (filter (fun l => negb (is_empty l)) (map strip description_lines)) in
  let fr :=
    if is_empty description then fr
    else dict_set fr k_description (slice_to 500 description) in
  if has_title fr then Some fr else None.

Fixpoint fallback_sections (texts : list str) : list sdict :=
  match texts with
  | [] => []
  | t :: rest =>
      match fallback_section t with
      | Some r => r :: fallback_sections rest
      | None => fallback_sections rest
      end
  end.

(** A record of the result list: its values are Python objects. *)
Definition to_pdict (d : sdict) : pdict := map (fun kv => (fst kv, PStr (snd kv))) d.

(** The single-record fallback. *)
Definition single_fallback (content : str) (all_urls : list str) : pdict :=
  let product_name :=
    match re_search pat_bold content with
    | Some g => g
    | None => placeholder_title
    end in
  [ (k_title, PStr product_name);
    (k_description,
      PStr (if len content >? 500 then slice_to 500 content ++ py "..."
            else content));
    (k_url, PStr (match all_urls with u :: _ => u | [] => [] end));
    (k_relevance, PFloat (FDec 1 0)) ].

(** The final pass: [for result in results] with its counter [url_index]. *)
Fixpoint backfill_urls (all_urls : list str) (url_index : nat)
  (rs : list pdict) : list pdict :=
  match rs with
  | [] => []
  | result :: rest =>
      if negb (truthy (py_get result k_url))
         && (Z.of_nat url_index <? Z.of_nat (length all_urls))
      then dict_set result k_url (PStr (nth url_index all_urls []))
           :: backfill_urls all_urls (S url_index) rest
      else result :: backfill_urls all_urls url_index rest
  end.

(** The records of the text heuristics before the final pass. *)
Definition text_records (content : str) : outcome (list pdict) :=
  scanned <- labeled_scan content ;;
  let all_urls := re_findall pat_url content in
  match scanned with
  | [] =>
      if is_empty content then Return []
      else
        let numbered_sections := re_split pat_numbered content in
        if 1 <? Z.of_nat (length numbered_sections)
        then Return (map to_pdict
                         (fallback_sections (section_texts (tl numbered_sections))))
        else Return [single_fallback content all_urls]
  | _ => Return (map to_pdict scanned)
  end.

(** Everything after the embedded-JSON attempt. *)
Definition parse_text (content : str) : outcome (list pdict) :=
  rs <- text_records content ;;
  let all_urls := re_findall pat_url content in
  match rs, all_urls with
  | _ :: _, _ :: _ => Return (backfill_urls all_urls 0 rs)
  | _, _ => Return rs
  end.

Section WithJson.

Variable json_loads : str -> json_result.

(** The embedded-JSON attempt: [Return (Some v)] is the early [return],
    [Return None] falls through to the text heuristics. *)
Definition json_attempt (content : str) : outcome (option pyval) :=
  let json_start := find content (py "{") in
  let json_end := rfind content (py "}") + 1 in
  if (json_start >=? 0) && (json_end >? json_start) then
    match json_loads (slice json_start json_end content) with
    | JsonValue (PList l) => Return (Some (PList l))
    | JsonValue (PDict d) =>
        match dict_get d (py "results") with
        | Some v => Return (Some v)
        | None => Return None
        end
    | JsonValue _ => Return None
    | JsonDecodeError _ => Return None
    | JsonFailure e => Raise e
    end
  else Return None.

(** The [try] block of [parse_response]. *)
Definition parse_response_body (openai_response : completion)
  : outcome pyval :=
  match choices openai_response with
  | [] => Raise (Exn IndexError (py "list index out of range"))
  | msg :: _ =>
      match content msg with
      | None => Return (PList [])
      | Some [] => Return (PList [])
      | Some content =>
          early <- json_attempt content ;;
          match early with
          | Some v => Return v
          | None =>
              rs <- parse_text content ;;
              Return (PList (map PDict rs))
          end
      end
  end.

(** [parse_response(openai_response)]: any exception gives [[]]. *)
Definition parse_response (openai_response : completion) : pyval :=
  match parse_response_body openai_response with
  | Return v => v
  | Raise _ => PList []
  end.

End WithJson.

(** A reply whose only content is [text]. *)
Definition reply (text : str) : completion :=
  {| choices := [ {| content := Some text; executed_tools := [] |} ] |}.

(* ================================================================== *)
(** * Prompt Builder *)
(* ================================================================== *)

(** A question object: [q["id"]], [q["text"]], [q["answers"]]. *)
Record question := { q_id : str; q_text : str; q_answers : list str }.

Definition ranking_directive : str :=
  nl :: py "Return the top results ranked by relevance and quality.".

Definition exclusion_directive : str :=
  nl :: py "Exclude items the user has already purchased or watched.".

Definition history_hint (user_id : str) : str :=
  nl :: py "User ID: " ++ user_id
     ++ py " (check purchase/watch history if available)".

Definition closing_instruction : str :=
  nl :: nl :: py "Provide a clear, structured list of recommendations with titles, descriptions, and relevant details.".

(** [{q["id"]: q["text"] for q in questions}] *)
Definition questions_map (questions : list question) : dict str :=
  fold_left (fun m q => dict_set m (q_id q) (q_text q)) questions [].

(** The text before the conditional instructions. *)
Definition prompt_head (user_query : str) (user_answers : dict str)
  (questions : list question) : str :=
  let qmap := questions_map questions in
  let answers_text :=
    join [nl]
      (map (fun qa =>
              py "- "
              ++ match dict_get qmap (fst qa) with
                 | Some text => text
                 | None => fst qa
                 end
              ++ py ": " ++ snd qa)
           user_answers) in
  py "User wants: " ++ user_query ++ [nl; nl]
  ++ py "User Preferences:" ++ [nl] ++ answers_text ++ [nl; nl]
  ++ py "Please search for relevant products and provide recommendations based on these preferences."
  ++ [nl].

(** ["top" in q.lower() or "best" in q.lower()] *)
Definition has_ranking_language (user_query : str) : bool :=
  contains (lower user_query) (py "top")
  || contains (lower user_query) (py "best").

(** ["haven't" in q.lower() or "didn't" in q.lower() or "not" in q.lower()] *)
Definition has_negation_language (user_query : str) : bool :=
  contains (lower user_query) (py "haven't")
  || contains (lower user_query) (py "didn't")
  || contains (lower user_query) (py "not").

(** [build_search_prompt(user_query, user_answers, questions, user_id)] *)
Definition build_search_prompt (user_query : str) (user_answers : dict str)
  (questions : list question) (user_id : option str) : str :=
  let prompt := prompt_head user_query user_answers questions in
  let prompt :=
    if has_ranking_language user_query
    then prompt ++ ranking_directive else prompt in
  let prompt :=
    if has_negation_language user_query then
      let prompt := prompt ++ exclusion_directive in
      match user_id with
      | Some ((_ :: _) as uid) => prompt ++ history_hint uid
      | _ => prompt
      end
    else prompt in
  prompt ++ closing_instruction.

(* ================================================================== *)
(** * Result Fuser *)
(* ================================================================== *)

(** [v.lower()] *)
Definition py_lower (v : pyval) : outcome str :=
  match v with
  | PStr s => Return (lower s)
  | _ => Raise (no_attribute v "lower")
  end.

Definition mem_str (l : list str) (w : str) : bool := existsb (str_eqb w) l.

(** A set of words: the distinct elements. *)
Fixpoint distinct (l : list str) : list str :=
  match l with
  | [] => []
  | w :: r => if mem_str r w then distinct r else w :: distinct r
  end.

(** [{w for w in s.split() if len(w) > 3}] *)
Definition long_words (s : str) : list str :=
  distinct (filter (fun w => len w >? 3) (split_ws s)).

(** [titles_match(exa_title)] for the lower-cased [parsed_title]. *)
Definition titles_match (parsed_title : str) (exa_title : pyval)
  : outcome bool :=
  exa_title_lower <- py_lower (py_or exa_title (PStr [])) ;;
  if is_empty exa_title_lower then Return false
  else if contains exa_title_lower parsed_title
          || contains parsed_title exa_title_lower
  then Return true
  else
    let parsed_words := long_words parsed_title in
    let exa_words := long_words exa_title_lower in
    Return (Z.of_nat (length (filter (mem_str exa_words) parsed_words)) >=? 2).

(** [clean_exa_text] applied to an object. *)
Definition clean_exa_value (v : pyval) : outcome (option str) :=
  if negb (truthy v) then Return None
  else match v with
       | PStr s => Return (clean_exa_text (Some s))
       | _ => Raise (Exn TypeError
                         (py "expected string or bytes-like object, got '"
                             ++ type_name v ++ py "'"))
       end.

(** [extract_highlights] applied to an object. *)
Definition extract_highlights_value (v : pyval) : outcome (option (list str)) :=
  if negb (truthy v) then Return None
  else match v with
       | PStr s => Return (extract_highlights s)
       | _ => Raise (no_attribute v "splitlines")
       end.

(** [not parsed_result.get("url") or not parsed_result.get("image_url")] *)
Definition missing_link (d : pdict) : bool :=
  negb (truthy (py_get d k_url)) || negb (truthy (py_get d k_image_url)).

(** The four guarded assignments that both passes perform with the chosen
    entry [exa_res]. *)
Definition enrich (d : pdict) (exa_res : pdict) : outcome pdict :=
  let d :=
    if negb (truthy (py_get d k_url)) && truthy (py_get exa_res k_url)
    then dict_set d k_url (py_get exa_res k_url) else d in
  let d :=
    if negb (truthy (py_get d k_image_url)) && truthy (py_get exa_res k_image_url)
    then dict_set d k_image_url (py_get exa_res k_image_url) else d in
  d <- (if negb (truthy (py_get d k_description)) then
          cleaned <- clean_exa_value
                       (py_or (py_get exa_res k_description)
                              (py_get exa_res (py "text"))) ;;
          Return match cleaned with
                 | Some c => dict_set d k_description (PStr c)
                 | None => d
                 end
        else Return d) ;;
  if negb (truthy (py_get d k_highlights)) then
    highlights <- extract_highlights_value
                    (py_or (py_get exa_res (py "text")) (PStr [])) ;;
    Return match highlights with
           | Some hs => dict_set d k_highlights (PList (map PStr hs))
           | None => d
           end
  else Return d.

Definition is_used (used_indices : list nat) (i : nat) : bool :=
  existsb (Nat.eqb i) used_indices.

(** [exa_res.get("title", "")] *)
Definition exa_title_of (exa_res : pdict) : pyval :=
  match dict_get exa_res k_title with Some v => v | None => PStr [] end.

(** First pass: the first unused entry whose title matches. *)
Fixpoint first_pass (parsed_title : str) (d : pdict) (used_indices : list nat)
  (exa_idx : nat) (entries : list pdict) : outcome (pdict * list nat) :=
  match entries with
  | [] => Return (d, used_indices)
  | exa_res :: rest =>
      if is_used used_indices exa_idx
      then first_pass parsed_title d used_indices (S exa_idx) rest
      else
        m <- titles_match parsed_title (exa_title_of exa_res) ;;
        if m then
          d' <- enrich d exa_res ;;
          Return (d', used_indices ++ [exa_idx])
        else first_pass parsed_title d used_indices (S exa_idx) rest
  end.

(** Second pass: the first unused entry, whatever its title. *)
Fixpoint second_pass (d : pdict) (used_indices : list nat)
  (exa_idx : nat) (entries : list pdict) : outcome (pdict * list nat) :=
  match entries with
  | [] => Return (d, used_indices)
  | exa_res :: rest =>
      if is_used used_indices exa_idx
      then second_pass d used_indices (S exa_idx) rest
      else
        d' <- enrich d exa_res ;;
        Return (d', used_indices ++ [exa_idx])
  end.

(** The body of [for idx, parsed_result in enumerate(result)]. *)
Definition fuse_record (stored_exa_results : list pdict)
  (used_indices : list nat) (parsed_result : pyval)
  : outcome (pyval * list nat) :=
  d <- as_dict "get" parsed_result ;;
  parsed_title <- py_lower (py_or (py_get d k_title) (PStr [])) ;;
  '(d, used_indices) <-
     (if missing_link d
      then first_pass parsed_title d used_indices 0 stored_exa_results
      else Return (d, used_indices)) ;;
  '(d, used_indices) <-
     (if missing_link d
      then second_pass d used_indices 0 stored_exa_results
      else Return (d, used_indices)) ;;
  Return (PDict d, used_indices).

Fixpoint fuse_records (stored_exa_results : list pdict)
  (used_indices : list nat) (items : list pyval)
  : outcome (list pyval * list nat) :=
  match items with
  | [] => Return ([], used_indices)
  | parsed_result :: rest =>
      '(r, used_indices) <-
         fuse_record stored_exa_results used_indices parsed_result ;;
      '(rs, used_indices) <- fuse_records stored_exa_results used_indices rest ;;
      Return (r :: rs, used_indices)
  end.

(** [if result and stored_exa_results: ...]: the records are enriched in
    place, so the list keeps its identity; the second component is the final
    [used_indices]. *)
Definition fuse (result : pyval) (stored_exa_results : list pdict)
  : outcome (pyval * list nat) :=
  if truthy result && negb (is_nil stored_exa_results)
  then
    items <- py_iter result ;;
    '(items', used_indices) <- fuse_records stored_exa_results [] items ;;
    Return (match result with PList _ => PList items' | _ => result end,
            used_indices)
  else Return (result, []).

(** One entry of [stored_exa_results]. *)
Definition store_exa (res : pyval) : outcome pdict :=
  r <- as_dict "get" res ;;
  Return [ (k_title, py_or (py_get r (py "title")) (py_get r (py "id")));
           (k_url, py_get r (py "url"));
           (k_image_url, py_or (py_get r (py "image")) (py_get r (py "favicon")));
           (k_description, py_get r (py "text")) ].

Fixpoint store_all (items : list pyval) : outcome (list pdict) :=
  match items with
  | [] => Return []
  | res :: rest =>
      e <- store_exa res ;;
      es <- store_all rest ;;
      Return (e :: es)
  end.

(** [stored_exa_results] from [exa_raw_results]. *)
Definition stored_results (exa_raw_results : pyval) : outcome (list pdict) :=
  if truthy exa_raw_results
  then items <- py_iter exa_raw_results ;; store_all items
  else Return [].

(* ================================================================== *)
(** * The sandboxed search call and its retry orchestrator *)
(* ================================================================== *)

Definition MAX_RETRIES : nat := 3.

(** The structured result of the search entry point. *)
Record envelope := {
  success : bool;
  results : pyval;
  error : option str
}.

(** The process environment read with [os.getenv]. *)
Record environ := {
  E2B_API_KEY : option str;
  EXA_API_KEY : option str;
  GROQ_API_KEY : option str;
  GROQ_MODEL : option str
}.

(** The request sent to the completion provider. *)
Record chat_request := {
  req_model : str;
  req_system : str;
  req_user : str;
  req_server_url : str;
  req_authorization : str
}.

(** What the remote services do during one attempt. *)
Record remote := {
  sandbox_create : Z -> outcome unit;      (* AsyncSandbox.create(timeout=...) *)
  sandbox_mcp_url : str;                    (* sandbox.get_mcp_url() *)
  sandbox_mcp_token : outcome str;          (* sandbox.get_mcp_token() *)
  chat_create : chat_request -> outcome completion;
  sandbox_kill : outcome unit               (* sandbox.kill() *)
}.

(** Observable steps, in order: the calls of the single attempt, the remote
    calls it makes, and the sleeps between attempts. *)
Inductive event :=
| EvAttempt (attempt : nat)
| EvSandboxCreate
| EvMcpToken
| EvChatCompletion
| EvSandboxKill
| EvSleep (seconds : Z).

(** [not os.getenv(k)] *)
Definition unset (v : option str) : bool :=
  match v with
  | Some (_ :: _) => false
  | _ => true
  end.

Definition not_set_error (name : string) : exn :=
  Exn ValueError (py name ++ py " environment variable is not set").

Definition system_prompt : str :=
  py "You are a senior shopping concierge. Always call the `exa_search` MCP tool to gather fresh product data before answering the user. Carefully read the tool output and extract accurate titles, URLs, and image links.".

(** [next((q["text"] for q in questions if q["id"] == q_id), "")] *)
Definition question_text_of (questions : list question) (qid : str) : str :=
  match filter (fun q => str_eqb (q_id q) qid) questions with
  | q :: _ => q_text q
  | [] => []
  end.

Definition search_query_of (user_query : str) (user_answers : dict str)
  (questions : list question) : str :=
  join (py " ")
    (user_query ::
     flat_map (fun qa =>
                 let question_text := question_text_of questions (fst qa) in
                 if is_empty question_text then []
                 else [question_text ++ py ": " ++ snd qa])
              user_answers).

Definition user_prompt_of (prompt search_query : str) : str :=
  prompt ++ [nl; nl]
  ++ py "When you call `exa_search`, start with the following query (you may refine it if needed):"
  ++ [nl] ++ search_query ++ [nl; nl]
  ++ py "After retrieving results, produce 3-6 recommendations in a numbered list. For each result, include Title, Description, URL, Image URL (if available), Why It Matches, and Additional Information. The URL must be a direct buy link.".

(** [result[0]] *)
Definition py_first (v : pyval) : outcome pyval :=
  match v with
  | PList (x :: _) => Return x
  | PList [] => Raise (Exn IndexError (py "list index out of range"))
  | PStr (c :: _) => Return (PStr [c])
  | PStr [] => Raise (Exn IndexError (py "string index out of range"))
  | PDict _ => Raise (Exn KeyError (py "0"))
  | _ => Raise (Exn TypeError
                    (py "'" ++ type_name v ++ py "' object is not subscriptable"))
  end.

Fixpoint all_dicts (items : list pyval) : outcome unit :=
  match items with
  | [] => Return tt
  | r :: rest => _ <- as_dict "get" r ;; all_dicts rest
  end.

(** What the debug prints after fusion evaluate: [len(result)],
    [result[0].keys()] and [r.get('url')] for every [r]. *)
Definition debug_report (result : pyval) : outcome unit :=
  _ <- py_len result ;;
  if truthy result then
    first <- py_first result ;;
    _ <- as_dict "keys" first ;;
    items <- py_iter result ;;
    all_dicts items
  else Return tt.

Section SearchService.

Variable json_loads : str -> json_result.

(** The loop over [executed_tools] in [extract_exa_results_from_response]. *)
Fixpoint exa_tools_loop (tools : list tool_record) : outcome pyval :=
  match tools with
  | [] => Return (PList [])
  | tool :: rest =>
      match tool_output tool with
      | Some ((_ :: _) as output) =>
          if contains (tool_name tool) (py "exa") then
            match json_loads output with
            | JsonValue data =>
                d <- as_dict "get" data ;;
                let results := py_or (py_get d (py "results")) (PList []) in
                if truthy results then Return results
                else exa_tools_loop rest
            | JsonDecodeError _ => exa_tools_loop rest
            | JsonFailure e => Raise e
            end
          else exa_tools_loop rest
      | _ => exa_tools_loop rest
      end
  end.

(** [extract_exa_results_from_response(response)] *)
Definition extract_exa_results_from_response (response : completion) : pyval :=
  match choices response with
  | [] => PList []
  | msg :: _ =>
      match exa_tools_loop (executed_tools msg) with
      | Return v => v
      | Raise _ => PList []
      end
  end.

(** From the reply to the returned dictionary: parse, capture, fuse. *)
Definition reconcile (response : completion) : outcome envelope :=
  let result := parse_response json_loads response in
  let exa_raw_results := extract_exa_results_from_response response in
  stored_exa_results <- stored_results exa_raw_results ;;
  '(result, _) <- fuse result stored_exa_results ;;
  _ <- debug_report result ;;
  Return {| success := true; results := result; error := None |}.

(** The [try] block of the single attempt, entered once the sandbox
    exists, with the remote calls it makes. *)
Definition in_sandbox (env : environ) (rem : remote) (prompt : str)
  (user_query : str) (user_answers : dict str) (questions : list question)
  : outcome envelope * list event :=
  match sandbox_mcp_token rem with
  | Raise e => (Raise e, [EvMcpToken])
  | Return mcp_token =>
      let search_query := search_query_of user_query user_answers questions in
      let groq_model :=
        match GROQ_MODEL env with
        | Some m => m
        | None => py "llama-3.3-70b-versatile"
        end in
      let request :=
        {| req_model := groq_model;
           req_system := system_prompt;
           req_user := user_prompt_of prompt search_query;
           req_server_url := sandbox_mcp_url rem;
           req_authorization := py "Bearer " ++ mcp_token |} in
      match chat_create rem request with
      | Raise e => (Raise e, [EvMcpToken; EvChatCompletion])
      | Return response =>
          (reconcile response, [EvMcpToken; EvChatCompletion])
      end
  end.

(** [_search_with_e2b_exa_single_attempt]: its outcome and its remote
    calls.  The [finally] clause kills the sandbox when one was created and
    swallows any error of the kill. *)
Definition _search_with_e2b_exa_single_attempt (env : environ) (rem : remote)
  (user_query : str) (user_answers : dict str) (questions : list question)
  (user_id : option str) (timeout_ms : Z) : outcome envelope * list event :=
  if unset (E2B_API_KEY env) then (Raise (not_set_error "E2B_API_KEY"), [])
  else if unset (EXA_API_KEY env) then (Raise (not_set_error "EXA_API_KEY"), [])
  else if unset (GROQ_API_KEY env) then (Raise (not_set_error "GROQ_API_KEY"), [])
  else
    let prompt := build_search_prompt user_query user_answers questions user_id in
    match sandbox_create rem (if timeout_ms =? 0 then 600 else timeout_ms / 1000) with
    | Raise e => (Raise e, [EvSandboxCreate])
    | Return _ =>
        let '(r, evs) :=
          in_sandbox env rem prompt user_query user_answers questions in
        (r, EvSandboxCreate :: evs ++ [EvSandboxKill])
    end.

Definition is_value_error (e : exn) : bool :=
  match exn_class e with ValueError => true | _ => false end.

(** The [for attempt in range(1, MAX_RETRIES + 1)] loop of
    [search_with_e2b_exa] over the attempt numbers still to run, and the
    code after the loop.  [world attempt] is what the remote services do
    during that attempt. *)
Fixpoint search_attempts (env : environ) (world : nat -> remote)
  (user_query : str) (user_answers : dict str) (questions : list question)
  (user_id : option str) (timeout_ms : Z)
  (attempts : list nat) (last_error : option exn)
  : outcome envelope * list event :=
  match attempts with
  | [] =>
      let final_error :=
        py "Search failed after " ++ str_of_nat MAX_RETRIES
        ++ py " attempts. Last error: "
        ++ match last_error with
           | Some e => exn_message e
           | None => py "None"
           end in
      (Return {| success := false; results := PList [];
                 error := Some final_error |}, [])
  | attempt :: rest =>
      let '(r, evs) :=
        _search_with_e2b_exa_single_attempt env (world attempt) user_query
          user_answers questions user_id timeout_ms in
      let evs := EvAttempt attempt :: evs in
      match r with
      | Return result => (Return result, evs)
      | Raise e =>
          if is_value_error e then
            (Return {| success := false; results := PList [];
                       error := Some (py "Configuration error: "
                                      ++ exn_message e) |}, evs)
          else
            let sleeps :=
              if (attempt <? MAX_RETRIES)%nat
              then [EvSleep (2 ^ Z.of_nat attempt)] else [] in
            let '(r', evs') :=
              search_attempts env world user_query user_answers questions
                user_id timeout_ms rest (Some e) in
            (r', evs ++ sleeps ++ evs')
      end
  end.

(** [search_with_e2b_exa]: what it returns or raises, and its trace. *)
Definition search_with_e2b_exa (env : environ) (world : nat -> remote)
  (user_query : str) (user_answers : dict str) (questions : list question)
  (user_id : option str) (timeout_ms : Z) : outcome envelope * list event :=
  search_attempts env world user_query user_answers questions user_id
    timeout_ms (seq 1 MAX_RETRIES) None.

End SearchService.

(* ================================================================== *)
(** * The question-generation retry orchestrator *)
(* ================================================================== *)

Module QuestionGenerator.

Definition MAX_RETRIES : nat := 4.

(** What building a [QuestionsResponse] from the parsed object does: the schema of
    [models.question] is not part of these sources, so the validator is a
    parameter of [call_openai_with_validation]. *)
Inductive validation :=
| Valid (questions : list question)
| ValidationError (msg : str)
| ValidationCrash (e : exn).

(** [not content] for the text of a reply. *)
Definition is_empty_content (text : option str) : bool :=
  match text with
  | Some (_ :: _) => false
  | _ => true
  end.

(** The request sent to the completion provider. *)
Record question_request := {
  qr_model : str;
  qr_system : str;
  qr_user : str
}.

(** The user prompt of the question-generation call. *)
Definition question_prompt (user_query : str) (num_questions num_answers : Z)
  : str :=
  join [nl]
    [ pyq "Given this user request: '" ++ user_query ++ pyq "'";
      [];
      py "Generate " ++ str_of_int num_questions
        ++ py " multiple choice questions to understand their preferences.";
      py "Each question should have exactly " ++ str_of_int num_answers
        ++ py " answer options.";
      [];
      py "Return ONLY valid JSON in this exact format:";
      py "{";
      pyq "  'questions': [";
      py "    {";
      pyq "      'id': 'q1',";
      pyq "      'text': 'Question text?',";
      pyq "      'answers': ['Option 1', 'Option 2', 'Option 3']";
      py "    }";
      py "  ]";
      py "}";
      [];
      py "Requirements:";
      py "- Clear, specific questions";
      py "- Exactly " ++ str_of_int num_answers ++ py " answers per question";
      py "- Concise answer options (2-4 words)";
      py "- Relevant to the user's request";
      py "- Use IDs: q1, q2, q3, etc." ].

(** [Exception(f"OpenAI API error: {e}")] *)
Definition api_error (e : exn) : exn :=
  Exn OtherException (py "OpenAI API error: " ++ exn_message e).

Section Call.

Variable json_loads : str -> json_result.
Variable validate : pdict -> validation.

(** The [try] block of [call_openai_with_validation], from the reply on.
    [inr e] is an exception raised inside the block, tagged with the
    handler that catches it. *)
Inductive raised :=
| RaisedValidationError (msg : str)
| RaisedJSONDecodeError (msg : str)
| RaisedOther (e : exn).

Definition validate_reply (response : completion)
  : list question + raised :=
  match choices response with
  | [] => inr (RaisedOther (Exn IndexError (py "list index out of range")))
  | msg :: _ =>
      match content msg with
      | Some ((_ :: _) as text) =>
          match json_loads text with
          | JsonDecodeError e => inr (RaisedJSONDecodeError e)
          | JsonFailure e => inr (RaisedOther e)
          | JsonValue parsed =>
              match parsed with
              | PDict d =>
                  let questions := py_get d (py "questions") in
                  if negb (truthy questions)
                     || negb (match questions with PList _ => true | _ => false end)
                  then inr (RaisedOther
                              (Exn ValueError
                                   (py "Invalid response structure: missing or invalid 'questions' array")))
                  else match validate d with
                       | Valid qs => inl qs
                       | ValidationError e => inr (RaisedValidationError e)
                       | ValidationCrash e => inr (RaisedOther e)
                       end
              | _ => inr (RaisedOther (no_attribute parsed "get"))
              end
          end
      | _ => inr (RaisedOther (Exn ValueError (py "Empty response from OpenAI")))
      end
  end.

(** [call_openai_with_validation(user_query, num_questions, num_answers)]
    given the value of [OPENAI_API_KEY] and what the completion call does.
    An exception of the completion call itself is taken to be neither a
    [ValidationError] nor a [JSONDecodeError], so that the last handler
    catches it. *)
Definition call_openai_with_validation (api_key : option str)
  (chat_create : question_request -> outcome completion)
  (user_query : str) (num_questions num_answers : Z)
  : outcome (list question) :=
  match api_key with
  | Some (_ :: _) =>
      let request :=
        {| qr_model := py "gpt-3.5-turbo";
           qr_system := py "You generate survey questions. Always return valid JSON.";
           qr_user := question_prompt user_query num_questions num_answers |} in
      match chat_create request with
      | Raise e => Raise (api_error e)
      | Return response =>
          match validate_reply response with
          | inl questions => Return questions
          | inr (RaisedValidationError e) =>
              Raise (Exn ValueError (py "Validation error: " ++ e))
          | inr (RaisedJSONDecodeError e) =>
              Raise (Exn ValueError (py "Invalid JSON response: " ++ e))
          | inr (RaisedOther e) => Raise (api_error e)
          end
      end
  | _ => Raise (Exn ValueError (py "OPENAI_API_KEY environment variable is not set"))
  end.

End Call.

(** Observable steps of the orchestrator. *)
Inductive step :=
| Call (attempt : nat)        (* call_openai_with_validation(...) *)
| Sleep (seconds : Z).        (* time.sleep(wait_time) *)

(** The loop of [generate_questions_with_retry] and the code after it.
    [call attempt] is the outcome of [call_openai_with_validation] at that
    attempt: a list of questions, a [ValueError], or another exception. *)
Fixpoint retry_attempts (call : nat -> outcome (list question))
  (attempts : list nat) (last_error : option exn)
  : outcome (list question) * list step :=
  match attempts with
  | [] =>
      let error_message :=
        py "Question generation failed after " ++ str_of_nat MAX_RETRIES
        ++ py " attempts. Last error: "
        ++ match last_error with
           | Some e => exn_message e
           | None => py "None"
           end in
      (Raise (Exn OtherException error_message), [])
  | attempt :: rest =>
      match call attempt with
      | Return questions => (Return questions, [Call attempt])
      | Raise e =>
          match exn_class e with
          | ValueError =>
              (Raise (Exn ValueError
                          (py "Question generation failed: " ++ exn_message e)),
               [Call attempt])
          | _ =>
              let sleeps :=
                if (attempt <? MAX_RETRIES)%nat
                then [Sleep (2 ^ (Z.of_nat attempt - 1))] else [] in
              let '(r, steps) := retry_attempts call rest (Some e) in
              (r, Call attempt :: sleeps ++ steps)
          end
      end
  end.

(** [generate_questions_with_retry] *)
Definition generate_questions_with_retry (call : nat -> outcome (list question))
  : outcome (list question) * list step :=
  retry_attempts call (seq 1 MAX_RETRIES) None.

End QuestionGenerator.

(* ================================================================== *)
(** * Vocabulary of the properties *)
(* ================================================================== *)

(** The records of a result list. *)
Definition records_of (v : pyval) : list pyval :=
  match v with PList l => l | _ => [] end.

(** A record with a non-empty title. *)
Definition record_titled (v : pyval) : bool :=
  match v with
  | PDict d => match dict_get d k_title with
               | Some (PStr (_ :: _)) => true
               | _ => false
               end
  | _ => false
  end.

(** The records of the text heuristics before the final pass, as a list. *)
Definition heuristic_records (content : str) : list pdict :=
  match text_records content with
  | Return rs => rs
  | Raise _ => []
  end.

(** The URL backfill as the specification words it: walk the records in
    order; a record whose url is still unfilled takes the next URL of the
    pool, which is thereby used up; stop assigning when the pool is empty. *)
Fixpoint assign_urls (pool : list str) (rs : list pdict) : list pdict :=
  match rs with
  | [] => []
  | r :: rest =>
      if truthy (py_get r k_url) then r :: assign_urls pool rest
      else match pool with
           | u :: pool' => dict_set r k_url (PStr u) :: assign_urls pool' rest
           | [] => r :: assign_urls [] rest
           end
  end.

(** The attempts and sleeps of a search trace, without the remote calls. *)
Definition schedule (trace : list event) : list event :=
  filter (fun e => match e with
                   | EvAttempt _ | EvSleep _ => true
                   | _ => false
                   end) trace.

(** The remote calls of a search trace. *)
Definition remote_calls (trace : list event) : list event :=
  filter (fun e => match e with
                   | EvSandboxCreate | EvMcpToken | EvChatCompletion
                   | EvSandboxKill => true
                   | _ => false
                   end) trace.

(** A pattern whose every match consumes a non-empty part [m] of the text
    and leaves the rest of it. *)
Definition consuming (p : pattern) : Prop :=
  forall s g rest, p s = Some (g, rest) -> exists m, m <> [] /\ s = m ++ rest.

(** Every whitespace character of [s] is a single blank between two other
    characters; [after_space] tells whether a blank precedes [s].  With
    [after_space = true] the text may not start with a blank, and it may
    never end with one. *)
Fixpoint spaced_ok (after_space : bool) (s : str) : bool :=
  match s with
  | [] => negb after_space
  | c :: t =>
      if isspace c
      then char_eqb c 32%N && negb after_space && spaced_ok true t
      else spaced_ok false t
  end.

(** The same without the condition on the end of the text. *)
Fixpoint single_spaced (after_space : bool) (s : str) : bool :=
  match s with
  | [] => true
  | c :: t =>
      if isspace c
      then char_eqb c 32%N && negb after_space && single_spaced true t
      else single_spaced false t
  end.

(** The two-character sequence backslash, n that [clean_exa_text] replaces. *)
Definition esc : str := [92%N; 110%N].

(** A text without heading marks, emphasis marks and escaped newlines, and
    with its whitespace in normal form. *)
Definition tidy (s : str) : Prop :=
  ~ In 35%N s /\ ~ In 42%N s /\ contains s esc = false
  /\ spaced_ok true s = true.

#[local] Notation "'collapse'" := (re_sub pat_spaces (fun _ => py " ")).

(** The steps of [clean_exa_text] after the link substitution, up to the
    final [strip]. *)
#[local] Notation "'scrub' x" :=
  (strip (collapse (replace (py "\n") (py " ")
                      (replace (py "*") (py " ")
                         (re_sub pat_heading (fun _ => []) x)))))
  (at level 10).

(** Every record under construction in [l] has a title. *)
Definition all_titled (l : list sdict) : Prop :=
  Forall (fun d => has_title d = true) l.

(** Every record of a result list has a title. *)
Definition all_records_titled (rs : list pdict) : Prop :=
  Forall (fun r => record_titled (PDict r) = true) rs.

(** The keys that fusion may assign. *)
Definition fusion_keys : list str :=
  [k_url; k_image_url; k_description; k_highlights].

(** [d'] is [d] with absent or empty fields filled: a key that holds a true
    value in [d], and any key that fusion does not assign, has the same
    entry in [d']. *)
Definition enriches (d d' : pdict) : Prop :=
  forall k, truthy (py_get d k) = true \/ ~ In k fusion_keys ->
            dict_get d' k = dict_get d k.

(** The same on the elements of a result list. *)
Definition record_enriched (v v' : pyval) : Prop :=
  match v, v' with
  | PDict d, PDict d' => enriches d d'
  | _, _ => v' = v
  end.

(** The indices in [used] are distinct entries of a list of [n] entries. *)
Definition consumed_once (n : nat) (used : list nat) : Prop :=
  NoDup used /\ forall i, In i used -> (i < n)%nat.

(** The title test of the first pass on two texts: the entry's title is not
    empty and, lower-cased, contains the record's title, is contained in it,
    or shares two distinct words of more than three characters with it. *)
Definition similar (parsed_title exa_title : str) : bool :=
  negb (is_empty (lower exa_title))
  && (contains (lower exa_title) parsed_title
      || contains parsed_title (lower exa_title)
      || (Z.of_nat (length (filter (mem_str (long_words (lower exa_title)))
                                   (long_words parsed_title))) >=? 2)).

(** Entry [i] is [e], the first entry not yet used whose title matches. *)
Definition first_match (title : str) (used : list nat) (stored : list pdict)
  (i : nat) (e : pdict) : Prop :=
  nth_error stored i = Some e /\ is_used used i = false
  /\ titles_match title (exa_title_of e) = Return true
  /\ forall j e', (j < i)%nat -> nth_error stored j = Some e' ->
                  is_used used j = false ->
                  titles_match title (exa_title_of e') = Return false.

(** No entry that is not yet used has a matching title. *)
Definition no_match (title : str) (used : list nat) (stored : list pdict) : Prop :=
  forall j e', nth_error stored j = Some e' -> is_used used j = false ->
               titles_match title (exa_title_of e') = Return false.

(** Entry [i] is [e], the first entry not yet used. *)
Definition first_unused (used : list nat) (stored : list pdict)
  (i : nat) (e : pdict) : Prop :=
  nth_error stored i = Some e /\ is_used used i = false
  /\ forall j, (j < i)%nat -> is_used used j = true.

(** Every entry is used. *)
Definition none_unused (used : list nat) (stored : list pdict) : Prop :=
  forall j, (j < length stored)%nat -> is_used used j = true.

(** What [d'] takes from the entry [e]: the url and the image url of [e]
    where [d] had none and [e] has one, and the cleaned description of [e]
    where [d] had none. *)
Definition filled_from (d e d' : pdict) : Prop :=
  (truthy (py_get d k_url) = false -> truthy (py_get e k_url) = true ->
   py_get d' k_url = py_get e k_url)
  /\ (truthy (py_get d k_image_url) = false ->
      truthy (py_get e k_image_url) = true ->
      py_get d' k_image_url = py_get e k_image_url)
  /\ (truthy (py_get d k_description) = false ->
      forall c,
        clean_exa_value (py_or (py_get e k_description) (py_get e (py "text")))
        = Return (Some c) ->
        py_get d' k_description = PStr c).

(** A value that is a text or [None]. *)
Definition text_or_none (v : pyval) : bool :=
  match v with
  | PNone | PStr _ => true
  | _ => false
  end.

(** A stored entry whose title and description are texts or [None]. *)
Definition plain_entry (e : pdict) : Prop :=
  text_or_none (exa_title_of e) = true
  /\ text_or_none (py_get e k_description) = true
  /\ dict_get e (py "text") = None.

(** A record (a dictionary) whose title is a text or [None]. *)
Definition plain_record (v : pyval) : Prop :=
  exists d, v = PDict d /\ text_or_none (py_get d k_title) = true.

(** A record, and two raw results of the search tool, used as examples. *)
Definition shoe_record : pdict := [(py "title", PStr (py "Trail Shoe"))].

Definition shoe_entries : pyval :=
  PList [PDict [(py "title", PStr (py "Trail Shoe Pro"));
                (py "url", PStr (py "http://s.example/0"))];
         PDict [(py "title", PStr (py "Rain Boot"));
                (py "url", PStr (py "http://s.example/1"));
                (py "image", PStr (py "http://s.example/1.png"))]].

Definition shoe_stored : list pdict :=
  match stored_results shoe_entries with
  | Return es => es
  | Raise _ => []
  end.

(** A reply with three labeled records and the output of the search tool. *)
Definition example_response : completion :=
  {| choices :=
       [ {| content :=
              Some (py "1. Product: Trail Shoe" ++ nl
                       :: py "2. Product: Umbrella" ++ nl
                       :: py "3. Product: Hat" ++ nl
                       :: py "URL: http://hat.example");
            executed_tools :=
              [ {| tool_name := py "exa_search";
                   tool_output :=
                     Some (pyq "{'results':[{'title':'Umbrella Deluxe','url':'http://s.example/1','text':'Keeps you dry.'},{'title':'Trail Shoe Pro','url':'http://s.example/0','image':'http://s.example/0.png','text':'## Great **shoe** for [trails](http://t.example)'},{'id':'http://s.example/2','favicon':'http://s.example/fav.ico'}]}") |} ] |} ] |}.

(** An environment with every credential present. *)
Definition full_environ : environ :=
  {| E2B_API_KEY := Some (py "e2b"); EXA_API_KEY := Some (py "exa");
     GROQ_API_KEY := Some (py "groq"); GROQ_MODEL := None |}.

(** Remote services that fail at sandbox creation with [e]. *)
Definition failing_remote (e : exn) : remote :=
  {| sandbox_create := fun _ => Raise e;
     sandbox_mcp_url := py "https://sandbox/mcp";
     sandbox_mcp_token := Raise e;
     chat_create := fun _ => Raise e;
     sandbox_kill := Return tt |}.

(** Remote services that answer with the reply [response]. *)
Definition answering_remote (response : completion) : remote :=
  {| sandbox_create := fun _ => Return tt;
     sandbox_mcp_url := py "https://sandbox/mcp";
     sandbox_mcp_token := Return (py "token");
     chat_create := fun _ => Return response;
     sandbox_kill := Return tt |}.

(** A failure that the orchestrators retry: any exception but [ValueError]. *)
Definition transient {A} (o : outcome A) : bool :=
  match o with
  | Raise e => negb (is_value_error e)
  | Return _ => false
  end.

(** What [search_with_e2b_exa] makes of an attempt that is not retried. *)
Definition search_verdict (o : outcome envelope) : outcome envelope :=
  match o with
  | Return result => Return result
  | Raise e =>
      Return {| success := false; results := PList [];
                error := Some (py "Configuration error: " ++ exn_message e) |}
  end.

(** The attempts and sleeps of a search that is decided at attempt [k]. *)
Definition backoff_until (k : nat) : list event :=
  flat_map (fun j => [EvAttempt j; EvSleep (2 ^ Z.of_nat j)]) (seq 1 (k - 1))
  ++ [EvAttempt k].

(** What [generate_questions_with_retry] makes of a call that is not
    retried. *)
Definition generator_verdict (o : outcome (list question))
  : outcome (list question) :=
  match o with
  | Return questions => Return questions
  | Raise e =>
      Raise (Exn ValueError (py "Question generation failed: " ++ exn_message e))
  end.

(** The calls and sleeps of a generation that is decided at call [k]. *)
Definition calls_until (k : nat) : list QuestionGenerator.step :=
  flat_map (fun j => [QuestionGenerator.Call j;
                      QuestionGenerator.Sleep (2 ^ (Z.of_nat j - 1))])
           (seq 1 (k - 1))
  ++ [QuestionGenerator.Call k].

Definition is_dict (v : pyval) : bool :=
  match v with PDict _ => true | _ => false end.

(** The result lists that a successful attempt can hand out: a list of
    dictionaries, or the empty dictionary or text that the debug report lets
    through. *)
Definition reportable (v : pyval) : Prop :=
  (exists l, v = PList l /\ forallb is_dict l = true)
  \/ v = PDict [] \/ v = PStr [].

(** The two shapes of the dictionary that the search returns. *)
Definition well_formed (env : envelope) : Prop :=
  if success env
  then error env = None /\ reportable (results env)
  else results env = PList [] /\ exists msg, error env = Some msg.

(** A computation that raises no [ValueError]. *)
Definition benign {A} (m : outcome A) : Prop :=
  forall e, m = Raise e -> is_value_error e = false.

(** The tools that [extract_exa_results_from_response] looks into. *)
Definition is_exa_tool (tool : tool_record) : bool :=
  match tool_output tool with
  | Some (_ :: _) => contains (tool_name tool) (py "exa")
  | _ => false
  end.

(** A raw result of the search tool whose title, id and text are texts or
    absent. *)
Definition plain_raw (res : pyval) : Prop :=
  exists r, res = PDict r
    /\ text_or_none (py_get r (py "title")) = true
    /\ text_or_none (py_get r (py "id")) = true
    /\ text_or_none (py_get r (py "text")) = true.

(** A record that holds both links, with a title that is a text or absent. *)
Definition complete_record (v : pyval) : Prop :=
  exists d, v = PDict d /\ missing_link d = false
            /\ text_or_none (py_get d k_title) = true.

(** The failure dictionary for a credential that is not set. *)
Definition credential_failure (name : string) : envelope :=
  {| success := false; results := PList [];
     error := Some (py "Configuration error: " ++ py name
                       ++ py " environment variable is not set") |}.

(** Where a trace stands with respect to the calls made on a sandbox: no
    sandbox is awaiting its [kill()] call; [AsyncSandbox.create] has just
    been called; a sandbox was entered and [kill()] has not been called for
    it yet. *)
Inductive sandbox_phase := Idle | Requested | Entered.

(** The moves of a trace: [create] is called when no sandbox awaits its
    [kill()] call; the token is asked for right after the creation;
    completions are requested for an entered sandbox, whose bracket ends
    with the call of [kill()]; attempts start and sleeps happen outside of
    the bracket (right after a [create], this means that the creation
    failed).  [EvSandboxKill] is the call of [sandbox.kill()]: what the call
    itself does is not observed, the source catches and prints its
    failure. *)
Definition sandbox_step (p : sandbox_phase) (e : event) : option sandbox_phase :=
  match p, e with
  | (Idle | Requested), (EvAttempt _ | EvSleep _) => Some Idle
  | Idle, EvSandboxCreate => Some Requested
  | Requested, EvMcpToken => Some Entered
  | Entered, EvChatCompletion => Some Entered
  | Entered, EvSandboxKill => Some Idle
  | _, _ => None
  end.

Fixpoint sandbox_run (p : sandbox_phase) (trace : list event)
  : option sandbox_phase :=
  match trace with
  | [] => Some p
  | e :: rest =>
      match sandbox_step p e with
      | Some p' => sandbox_run p' rest
      | None => None
      end
  end.

(** [generate_questions_with_retry(user_query, num_questions, num_answers)]
    with [call_openai_with_validation] as the operation: [chat attempt] is
    what the completion call does during that attempt. *)
Definition generate_questions (json_loads : str -> json_result)
  (validate : pdict -> QuestionGenerator.validation) (api_key : option str)
  (chat : nat -> QuestionGenerator.question_request -> outcome completion)
  (user_query : str) (num_questions num_answers : Z)
  : outcome (list question) * list QuestionGenerator.step :=
  QuestionGenerator.generate_questions_with_retry
    (fun attempt =>
       QuestionGenerator.call_openai_with_validation json_loads validate
         api_key (chat attempt) user_query num_questions num_answers).

(** A record whose description, if any, is a text of at most [n]
    characters. *)
Definition description_within (n : Z) (r : pdict) : Prop :=
  match dict_get r k_description with
  | Some (PStr d) => len d <= n
  | Some _ => False
  | None => True
  end.

(* ================================================================== *)
(** * Retry orchestrators *)
(* ================================================================== *)

(** ** One attempt of the question generator

    Which failures of [call_openai_with_validation] are validation failures
    ([ValueError], not retried) and which are transient. *)

Section CallProofs.

Import QuestionGenerator.

Variable json_loads : str -> json_result.
Variable validate : pdict -> validation.
Variable chat_create : question_request -> outcome completion.
Variables (user_query : str) (num_questions num_answers : Z).

Let attempt (api_key : option str) :=
  call_openai_with_validation json_loads validate api_key chat_create
    user_query num_questions num_answers.

Lemma call_without_key_raises_value_error :
  forall api_key,
    unset api_key = true ->
    attempt api_key
    = Raise (Exn ValueError
               (py "OPENAI_API_KEY environment variable is not set")).
Proof.
  intros [[ | c k] | ] U; try reflexivity. discriminate U.
Qed.

Lemma call_remote_failure_is_transient :
  forall c k e,
    chat_create
      {| qr_model := py "gpt-3.5-turbo";
         qr_system :=
           py "You generate survey questions. Always return valid JSON.";
         qr_user := question_prompt user_query num_questions num_answers |}
    = Raise e ->
    attempt (Some (c :: k)) = Raise (api_error e)
    /\ is_value_error (api_error e) = false.
Proof.
  intros c k e E. split; [ | reflexivity ].
  unfold attempt, call_openai_with_validation. rewrite E. reflexivity.
Qed.

(** The [ValueError] raised for an empty reply is raised inside the [try]
    block, so the last handler turns it into a plain [Exception]. *)
Lemma call_empty_reply_is_transient :
  forall c k response msg rest,
    chat_create
      {| qr_model := py "gpt-3.5-turbo";
         qr_system :=
           py "You generate survey questions. Always return valid JSON.";
         qr_user := question_prompt user_query num_questions num_answers |}
    = Return response ->
    choices response = msg :: rest ->
    is_empty_content (content msg) = true ->
    exists e,
      attempt (Some (c :: k)) = Raise e /\ is_value_error e = false.
Proof.
  intros c k response msg rest E C M.
  unfold attempt, call_openai_with_validation. rewrite E.
  unfold validate_reply. rewrite C.
  destruct (content msg) as [[ | x t] | ]; try discriminate M;
    eexists; split; reflexivity.
Qed.

Lemma call_invalid_json_raises_value_error :
  forall c k response msg rest x text why,
    chat_create
      {| qr_model := py "gpt-3.5-turbo";
         qr_system :=
           py "You generate survey questions. Always return valid JSON.";
         qr_user := question_prompt user_query num_questions num_answers |}
    = Return response ->
    choices response = msg :: rest ->
    content msg = Some (x :: text) ->
    json_loads (x :: text) = JsonDecodeError why ->
    attempt (Some (c :: k))
    = Raise (Exn ValueError (py "Invalid JSON response: " ++ why)).
Proof.
  intros c k response msg rest x text why E C M J.
  unfold attempt, call_openai_with_validation. rewrite E.
  unfold validate_reply. rewrite C, M, J. reflexivity.
Qed.

End CallProofs.

Section RetryProofs.

Variable json_loads : str -> json_result.
Variables (env : environ) (world : nat -> remote).
Variables (user_query : str) (user_answers : dict str)
          (questions : list question) (user_id : option str)
          (timeout_ms : Z).

Let attempt_at (n : nat) :=
  _search_with_e2b_exa_single_attempt json_loads env (world n) user_query
    user_answers questions user_id timeout_ms.

Let search_from (attempts : list nat) (last : option exn) :=
  search_attempts json_loads env world user_query user_answers questions
    user_id timeout_ms attempts last.

Lemma in_sandbox_schedule :
  forall rem prompt,
    schedule (snd (in_sandbox json_loads env rem prompt user_query
                     user_answers questions)) = [].
Proof.
  intros rem prompt. unfold in_sandbox.
  destruct (sandbox_mcp_token rem); [ | reflexivity ].
  destruct (chat_create rem _); reflexivity.
Qed.

Lemma schedule_app :
  forall a b, schedule (a ++ b) = schedule a ++ schedule b.
Proof. intros a b. unfold schedule. apply filter_app. Qed.

Lemma single_attempt_schedule :
  forall n, schedule (snd (attempt_at n)) = [].
Proof.
  intro n. unfold attempt_at, _search_with_e2b_exa_single_attempt.
  destruct (unset (E2B_API_KEY env)); [ reflexivity | ].
  destruct (unset (EXA_API_KEY env)); [ reflexivity | ].
  destruct (unset (GROQ_API_KEY env)); [ reflexivity | ].
  destruct (sandbox_create (world n) _); [ | reflexivity ].
  pose proof (in_sandbox_schedule (world n)
                (build_search_prompt user_query user_answers questions user_id)) as H.
  destruct (in_sandbox _ _ _ _ _ _ _) as [r evs]. simpl in H |- *.
  rewrite schedule_app, H. reflexivity.
Qed.

Lemma search_from_transient :
  forall n rest last e,
    fst (attempt_at n) = Raise e ->
    is_value_error e = false ->
    fst (search_from (n :: rest) last) = fst (search_from rest (Some e))
    /\ schedule (snd (search_from (n :: rest) last))
       = EvAttempt n
         :: (if (n <? MAX_RETRIES)%nat then [EvSleep (2 ^ Z.of_nat n)] else [])
         ++ schedule (snd (search_from rest (Some e))).
Proof.
  intros n rest last e Hr Hv.
  pose proof (single_attempt_schedule n) as Hs.
  unfold search_from. cbn [search_attempts].
  fold (attempt_at n). destruct (attempt_at n) as [r evs].
  simpl in Hr, Hs. subst r. rewrite Hv.
  fold (search_from rest (Some e)).
  destruct (search_from rest (Some e)) as [r' evs']. simpl.
  split; [ reflexivity | ].
  rewrite schedule_app, Hs, schedule_app. simpl. f_equal.
  destruct (n <? MAX_RETRIES)%nat; reflexivity.
Qed.

Lemma search_from_value_error :
  forall n rest last e,
    fst (attempt_at n) = Raise e ->
    is_value_error e = true ->
    fst (search_from (n :: rest) last)
    = Return {| success := false; results := PList [];
                error := Some (py "Configuration error: " ++ exn_message e) |}
    /\ snd (search_from (n :: rest) last) = EvAttempt n :: snd (attempt_at n).
Proof.
  intros n rest last e Hr Hv.
  unfold search_from. cbn [search_attempts].
  fold (attempt_at n). destruct (attempt_at n) as [r evs].
  simpl in Hr. subst r. rewrite Hv. split; reflexivity.
Qed.

Lemma search_from_returns :
  forall attempts last, exists result,
    fst (search_from attempts last) = Return result.
Proof.
  induction attempts as [ | n rest IH ]; intro last.
  - eexists. reflexivity.
  - unfold search_from. cbn [search_attempts].
    fold (attempt_at n). destruct (attempt_at n) as [r evs].
    destruct r as [ result | e ].
    + exists result. reflexivity.
    + destruct (is_value_error e).
      * eexists. reflexivity.
      * destruct (IH (Some e)) as [result Hres].
        fold (search_from rest (Some e)).
        destruct (search_from rest (Some e)) as [r' evs'].
        exists result. exact Hres.
Qed.

Lemma missing_credential_raises :
  forall n,
    unset (E2B_API_KEY env) || unset (EXA_API_KEY env)
    || unset (GROQ_API_KEY env) = true ->
    exists msg, attempt_at n = (Raise (Exn ValueError msg), []).
Proof.
  intros n H. unfold attempt_at, _search_with_e2b_exa_single_attempt.
  destruct (unset (E2B_API_KEY env)); [ eexists; reflexivity | ].
  destruct (unset (EXA_API_KEY env)); [ eexists; reflexivity | ].
  destruct (unset (GROQ_API_KEY env)); [ eexists; reflexivity | ].
  discriminate H.
Qed.

End RetryProofs.

(** C3.  When every attempt fails with a transient (non-[ValueError])
    exception, [generate_questions_with_retry] calls the operation exactly
    four times, sleeping 1, 2 and 4 seconds between the calls, and raises an
    exception whose message holds the attempt count and the last error;
    [search_with_e2b_exa] runs exactly three attempts, sleeping 2 and 4
    seconds between them, and returns the failure dictionary whose message
    holds the attempt count and the last error.  Each sleeps one time less
    than it attempts. *)
Theorem transient_failures_exhaust_attempts :
  forall (call : nat -> outcome (list question))
         (json_loads : str -> json_result) (env : environ)
         (world : nat -> remote) (user_query : str) (user_answers : dict str)
         (questions : list question) (user_id : option str) (timeout_ms : Z),
    (forall n, exists e, call n = Raise e /\ exn_class e <> ValueError) ->
    (forall n, exists e,
        fst (_search_with_e2b_exa_single_attempt json_loads env (world n)
               user_query user_answers questions user_id timeout_ms) = Raise e
        /\ is_value_error e = false) ->
    (exists last,
        call 4%nat = Raise last
        /\ QuestionGenerator.generate_questions_with_retry call
           = (Raise (Exn OtherException
                         (py "Question generation failed after 4 attempts. Last error: "
                             ++ exn_message last)),
              [QuestionGenerator.Call 1; QuestionGenerator.Sleep 1;
               QuestionGenerator.Call 2; QuestionGenerator.Sleep 2;
               QuestionGenerator.Call 3; QuestionGenerator.Sleep 4;
               QuestionGenerator.Call 4]))
    /\ (exists last,
           fst (_search_with_e2b_exa_single_attempt json_loads env (world 3%nat)
                  user_query user_answers questions user_id timeout_ms)
           = Raise last
           /\ fst (search_with_e2b_exa json_loads env world user_query
                     user_answers questions user_id timeout_ms)
              = Return {| success := false; results := PList [];
                          error := Some (py "Search failed after 3 attempts. Last error: "
                                            ++ exn_message last) |}
           /\ schedule (snd (search_with_e2b_exa json_loads env world user_query
                               user_answers questions user_id timeout_ms))
              = [EvAttempt 1; EvSleep 2; EvAttempt 2; EvSleep 4; EvAttempt 3]).
Proof.
  intros call json_loads env world q a qs uid t Hcall Hsearch. split.
  - destruct (Hcall 1%nat) as [e1 [H1 N1]], (Hcall 2%nat) as [e2 [H2 N2]],
      (Hcall 3%nat) as [e3 [H3 N3]], (Hcall 4%nat) as [e4 [H4 N4]].
    exists e4. split; [ exact H4 | ].
    unfold QuestionGenerator.generate_questions_with_retry.
    cbn [seq QuestionGenerator.MAX_RETRIES QuestionGenerator.retry_attempts].
    rewrite H1, H2, H3, H4.
    destruct (exn_class e1); try contradiction;
      destruct (exn_class e2); try contradiction;
      destruct (exn_class e3); try contradiction;
      destruct (exn_class e4); try contradiction; reflexivity.
  - destruct (Hsearch 1%nat) as [e1 [H1 N1]], (Hsearch 2%nat) as [e2 [H2 N2]],
      (Hsearch 3%nat) as [e3 [H3 N3]].
    exists e3. split; [ exact H3 | ].
    unfold search_with_e2b_exa. cbn [seq MAX_RETRIES].
    destruct (search_from_transient json_loads env world q a qs uid t
                1 [2; 3]%nat None e1 H1 N1) as [F1 S1].
    destruct (search_from_transient json_loads env world q a qs uid t
                2 [3]%nat (Some e1) e2 H2 N2) as [F2 S2].
    destruct (search_from_transient json_loads env world q a qs uid t
                3 []%nat (Some e2) e3 H3 N3) as [F3 S3].
    split.
    + rewrite F1, F2, F3. reflexivity.
    + rewrite S1, S2, S3. reflexivity.
Qed.

Lemma transient_failures_exhaust_attempts_witness :
  let boom := Exn OtherException (py "connection reset") in
  let call := fun _ : nat => @Raise (list question) boom in
  let world := fun _ : nat => failing_remote boom in
  QuestionGenerator.generate_questions_with_retry call
  = (Raise (Exn OtherException
                (py "Question generation failed after 4 attempts. Last error: connection reset")),
     [QuestionGenerator.Call 1; QuestionGenerator.Sleep 1;
      QuestionGenerator.Call 2; QuestionGenerator.Sleep 2;
      QuestionGenerator.Call 3; QuestionGenerator.Sleep 4;
      QuestionGenerator.Call 4])
  /\ schedule (snd (search_with_e2b_exa json_loads_ref full_environ world
                      (py "shoes") [] [] None 600000))
     = [EvAttempt 1; EvSleep 2; EvAttempt 2; EvSleep 4; EvAttempt 3].
Proof.
  intros boom call world.
  destruct (transient_failures_exhaust_attempts call json_loads_ref
              full_environ world (py "shoes") [] [] None 600000) as [A B].
  - intro n. exists boom. split; [ reflexivity | discriminate ].
  - intro n. exists boom. split; reflexivity.
  - destruct A as [last [Hl A]], B as [last' [Hl' [_ B]]].
    injection Hl as <-. split; [ exact A | exact B ].
Defined.

(** C4.  A [ValueError] at the first attempt stops either orchestrator at
    once, with no sleep and no second attempt:
    [generate_questions_with_retry] raises a [ValueError] that carries the
    message, and [search_with_e2b_exa] returns the failure dictionary with
    [success = False] and an empty result list. *)
Theorem validation_failure_is_not_retried :
  forall (call : nat -> outcome (list question))
         (json_loads : str -> json_result) (env : environ)
         (world : nat -> remote) (user_query : str) (user_answers : dict str)
         (questions : list question) (user_id : option str) (timeout_ms : Z)
         (msg msg' : str),
    call 1%nat = Raise (Exn ValueError msg) ->
    fst (_search_with_e2b_exa_single_attempt json_loads env (world 1%nat)
           user_query user_answers questions user_id timeout_ms)
    = Raise (Exn ValueError msg') ->
    QuestionGenerator.generate_questions_with_retry call
    = (Raise (Exn ValueError (py "Question generation failed: " ++ msg)),
       [QuestionGenerator.Call 1])
    /\ fst (search_with_e2b_exa json_loads env world user_query user_answers
              questions user_id timeout_ms)
       = Return {| success := false; results := PList [];
                   error := Some (py "Configuration error: " ++ msg') |}
    /\ schedule (snd (search_with_e2b_exa json_loads env world user_query
                        user_answers questions user_id timeout_ms))
       = [EvAttempt 1].
Proof.
  intros call json_loads env world q a qs uid t msg msg' Hcall Hsearch. split.
  - unfold QuestionGenerator.generate_questions_with_retry.
    cbn [seq QuestionGenerator.MAX_RETRIES QuestionGenerator.retry_attempts].
    rewrite Hcall. reflexivity.
  - unfold search_with_e2b_exa. cbn [seq MAX_RETRIES].
    destruct (search_from_value_error json_loads env world q a qs uid t
                1 [2; 3]%nat None _ Hsearch eq_refl) as [F S].
    split; [ exact F | ].
    pose proof (single_attempt_schedule json_loads env world q a qs uid t 1) as Hs.
    rewrite S. unfold schedule in *. cbn [filter]. rewrite Hs. reflexivity.
Qed.

Lemma validation_failure_is_not_retried_witness :
  let call := fun _ : nat =>
    @Raise (list question) (Exn ValueError (py "Validation error: bad")) in
  let env := {| E2B_API_KEY := None; EXA_API_KEY := Some (py "exa");
                GROQ_API_KEY := Some (py "groq"); GROQ_MODEL := None |} in
  let world := fun _ : nat => answering_remote (reply (py "1. Product: Shoe")) in
  QuestionGenerator.generate_questions_with_retry call
  = (Raise (Exn ValueError
                (py "Question generation failed: Validation error: bad")),
     [QuestionGenerator.Call 1])
  /\ snd (search_with_e2b_exa json_loads_ref env world (py "shoes") [] []
            None 600000)
     = [EvAttempt 1].
Proof.
  intros call env world.
  destruct (validation_failure_is_not_retried call json_loads_ref env world
              (py "shoes") [] [] None 600000
              (py "Validation error: bad")
              (py "E2B_API_KEY environment variable is not set")
              eq_refl eq_refl) as [A [_ _]].
  split; [ exact A | reflexivity ].
Defined.

(** C5.  [search_with_e2b_exa] never raises: whatever the environment, the
    remote services and the reply, it returns a dictionary with the keys
    success, results and error.  When a required credential (E2B, Exa or
    Groq key) is unset, the result is a failure dictionary with
    [success = False] and no remote call is made. *)
Theorem search_always_returns_envelope :
  forall (json_loads : str -> json_result) (env : environ)
         (world : nat -> remote) (user_query : str) (user_answers : dict str)
         (questions : list question) (user_id : option str) (timeout_ms : Z),
    (exists result,
        fst (search_with_e2b_exa json_loads env world user_query user_answers
               questions user_id timeout_ms) = Return result)
    /\ (unset (E2B_API_KEY env) || unset (EXA_API_KEY env)
        || unset (GROQ_API_KEY env) = true ->
        (exists msg,
            fst (search_with_e2b_exa json_loads env world user_query
                   user_answers questions user_id timeout_ms)
            = Return {| success := false; results := PList [];
                        error := Some msg |})
        /\ remote_calls (snd (search_with_e2b_exa json_loads env world
                                user_query user_answers questions user_id
                                timeout_ms)) = []).
Proof.
  intros json_loads env world q a qs uid t. split.
  - apply search_from_returns.
  - intro Hmiss.
    destruct (missing_credential_raises json_loads env world q a qs uid t 1 Hmiss)
      as [msg Hatt].
    unfold search_with_e2b_exa. cbn [seq MAX_RETRIES].
    destruct (search_from_value_error json_loads env world q a qs uid t
                1 [2; 3]%nat None (Exn ValueError msg)) as [F S].
    + rewrite Hatt. reflexivity.
    + reflexivity.
    + split.
      * eexists. exact F.
      * rewrite S, Hatt. reflexivity.
Qed.

Lemma search_always_returns_envelope_witness :
  let env := {| E2B_API_KEY := Some (py "e2b"); EXA_API_KEY := None;
                GROQ_API_KEY := Some (py "groq"); GROQ_MODEL := None |} in
  let world := fun _ : nat => answering_remote (reply (py "1. Product: Shoe")) in
  search_with_e2b_exa json_loads_ref env world (py "shoes") [] [] None 600000
  = (Return {| success := false; results := PList [];
               error := Some (py "Configuration error: EXA_API_KEY environment variable is not set") |},
     [EvAttempt 1]).
Proof.
  intros env world.
  destruct (search_always_returns_envelope json_loads_ref env world
              (py "shoes") [] [] None 600000) as [_ H].
  destruct (H eq_refl) as [_ _]. reflexivity.
Defined.

(* ================================================================== *)
(** * Embedded JSON *)
(* ================================================================== *)

Lemma find_nil : forall sub, sub <> [] -> find [] sub = -1.
Proof. intros [ | c sub ] H; [ contradiction | reflexivity ]. Qed.

Lemma json_attempt_decoded :
  forall json_loads content parsed,
    find content (py "{") >= 0 ->
    rfind content (py "}") + 1 > find content (py "{") ->
    json_loads (slice (find content (py "{")) (rfind content (py "}") + 1)
                      content) = JsonValue parsed ->
    json_attempt json_loads content
    = match parsed with
      | PList l => Return (Some (PList l))
      | PDict d => match dict_get d (py "results") with
                   | Some v => Return (Some v)
                   | None => Return None
                   end
      | _ => Return None
      end.
Proof.
  intros json_loads content parsed Hs He Hj. unfold json_attempt.
  replace (find content (py "{") >=? 0) with true
    by (symmetry; apply Z.geb_le; lia).
  replace (rfind content (py "}") + 1 >? find content (py "{")) with true
    by (symmetry; apply Z.gtb_lt; lia).
  cbn [andb]. rewrite Hj. destruct parsed; reflexivity.
Qed.

(** C6.  When the text from the first opening brace to the last closing
    brace decodes as JSON, an array is returned as it is and an object with a
    results key yields the value of that key, with no text heuristic
    applied; and the reply [{"results":[{"title":"A","url":"http://x"}]}]
    parses to the single record with title A and url http://x. *)
Theorem embedded_json_is_returned_directly :
  (forall (json_loads : str -> json_result) (content : str) (parsed : pyval),
      find content (py "{") >= 0 ->
      rfind content (py "}") + 1 > find content (py "{") ->
      json_loads (slice (find content (py "{")) (rfind content (py "}") + 1)
                        content) = JsonValue parsed ->
      (forall l, parsed = PList l ->
                 parse_response json_loads (reply content) = PList l)
      /\ (forall d v, parsed = PDict d ->
                      dict_get d (py "results") = Some v ->
                      parse_response json_loads (reply content) = v))
  /\ parse_response json_loads_ref
       (reply (pyq "{'results':[{'title':'A','url':'http://x'}]}"))
     = PList [PDict [(py "title", PStr (py "A"));
                     (py "url", PStr (py "http://x"))]].
Proof.
  split; [ | vm_compute; reflexivity ].
  intros json_loads text parsed Hs He Hj.
  pose proof (json_attempt_decoded json_loads text parsed Hs He Hj) as Ha.
  assert (Hne : text <> []).
  { intro E. subst text. rewrite find_nil in Hs by discriminate. lia. }
  unfold parse_response, parse_response_body, reply. cbn [choices content].
  destruct text as [ | c text ]; [ contradiction | ].
  rewrite Ha. split.
  - intros l ->. reflexivity.
  - intros d v -> Hv. rewrite Hv. reflexivity.
Qed.

Lemma embedded_json_is_returned_directly_witness :
  parse_response json_loads_ref
    (reply (pyq "Here you go: {'results':[{'title':'A'}]} enjoy"))
  = PList [PDict [(py "title", PStr (py "A"))]].
Proof.
  destruct embedded_json_is_returned_directly as [H _].
  destruct (H json_loads_ref
              (pyq "Here you go: {'results':[{'title':'A'}]} enjoy")
              (PDict [(py "results", PList [PDict [(py "title", PStr (py "A"))]])]))
    as [_ Hd].
  - vm_compute. discriminate.
  - vm_compute. reflexivity.
  - vm_compute. reflexivity.
  - apply (Hd _ _ eq_refl). vm_compute. reflexivity.
Defined.

(* ================================================================== *)
(** * Prompt directives *)
(* ================================================================== *)

(** C10.  The search prompt builder looks for ranking and negation language
    by plain substring containment in the lower-cased query: whenever it
    contains the letters top or best anywhere (as laptop does) the ranking
    directive is appended after the head of the prompt, and whenever it
    contains not, haven't or didn't anywhere (as nothing and cannot do) the
    exclusion directive is appended, whatever the word boundaries. *)
Theorem directives_follow_raw_substrings :
  forall (user_query : str) (user_answers : dict str)
         (questions : list question) (user_id : option str),
    (contains (lower user_query) (py "top") = true
     \/ contains (lower user_query) (py "best") = true ->
     exists tail,
       build_search_prompt user_query user_answers questions user_id
       = prompt_head user_query user_answers questions
         ++ ranking_directive ++ tail)
    /\ (contains (lower user_query) (py "not") = true
        \/ contains (lower user_query) (py "haven't") = true
        \/ contains (lower user_query) (py "didn't") = true ->
        exists before tail,
          build_search_prompt user_query user_answers questions user_id
          = before ++ exclusion_directive ++ tail
          /\ (before = prompt_head user_query user_answers questions
              \/ before = prompt_head user_query user_answers questions
                          ++ ranking_directive)).
Proof.
  intros q a qs uid. split.
  - intro H.
    assert (Hr : has_ranking_language q = true).
    { unfold has_ranking_language. destruct H as [ -> | -> ];
        [ reflexivity | apply orb_true_r ]. }
    unfold build_search_prompt. rewrite Hr.
    destruct (has_negation_language q).
    + destruct uid as [ [ | c uid ] | ]; eexists;
        rewrite <- !app_assoc; reflexivity.
    + eexists. rewrite <- !app_assoc. reflexivity.
  - intro H.
    assert (Hn : has_negation_language q = true).
    { unfold has_negation_language.
      destruct H as [ -> | [ -> | -> ] ];
        [ apply orb_true_r | reflexivity | ].
      rewrite orb_true_r. reflexivity. }
    unfold build_search_prompt. rewrite Hn.
    destruct (has_ranking_language q).
    + exists (prompt_head q a qs ++ ranking_directive).
      destruct uid as [ [ | c uid ] | ]; eexists;
        (split; [ rewrite <- !app_assoc; reflexivity | right; reflexivity ]).
    + exists (prompt_head q a qs).
      destruct uid as [ [ | c uid ] | ]; eexists;
        (split; [ rewrite <- !app_assoc; reflexivity | left; reflexivity ]).
Qed.

Lemma directives_follow_raw_substrings_witness :
  (exists tail,
      build_search_prompt (py "laptop") [] [] None
      = prompt_head (py "laptop") [] [] ++ ranking_directive ++ tail)
  /\ (exists before tail,
         build_search_prompt (py "I cannot decide") [] [] None
         = before ++ exclusion_directive ++ tail)
  /\ (exists before tail,
         build_search_prompt (py "nothing fancy") [] [] None
         = before ++ exclusion_directive ++ tail).
Proof.
  split; [ | split ].
  - apply (directives_follow_raw_substrings (py "laptop") [] [] None).
    left. vm_compute. reflexivity.
  - destruct (directives_follow_raw_substrings (py "I cannot decide") [] [] None)
      as [_ H].
    destruct H as [before [tail [H _]]].
    + left. vm_compute. reflexivity.
    + exists before, tail. exact H.
  - destruct (directives_follow_raw_substrings (py "nothing fancy") [] [] None)
      as [_ H].
    destruct H as [before [tail [H _]]].
    + left. vm_compute. reflexivity.
    + exists before, tail. exact H.
Defined.


(* ================================================================== *)
(** * Text Normalizer: the cleaner on its own output *)
(* ================================================================== *)

Lemma dropwhile_length : forall p s, (length (dropwhile p s) <= length s)%nat.
Proof.
  induction s as [ | c t IH ]; simpl; [ lia | ].
  destruct (p c); simpl; lia.
Qed.

Lemma drop_upto_length : forall n c s, (length (drop_upto n c s) <= length s)%nat.
Proof.
  induction n as [ | n IH ]; intros c s; simpl; [ lia | ].
  destruct s as [ | x t ]; simpl; [ lia | ].
  destruct (char_eqb x c); simpl; [ | lia ].
  specialize (IH c t). lia.
Qed.

Lemma takewhile_dropwhile :
  forall p s, takewhile p s ++ dropwhile p s = s.
Proof.
  induction s as [ | c t IH ]; simpl; [ reflexivity | ].
  destruct (p c); simpl; [ rewrite IH | ]; reflexivity.
Qed.

Lemma drop_upto_suffix :
  forall n c s, exists m, s = m ++ drop_upto n c s.
Proof.
  induction n as [ | n IH ]; intros c s; [ exists []; reflexivity | ].
  destruct s as [ | x t ]; [ exists []; reflexivity | ]. simpl.
  destruct (char_eqb x c); [ | exists []; reflexivity ].
  destruct (IH c t) as [m Hm]. exists (x :: m). simpl. rewrite <- Hm. reflexivity.
Qed.

Lemma consuming_shrinks :
  forall p, consuming p ->
  forall s g rest, p s = Some (g, rest) -> (length rest < length s)%nat.
Proof.
  intros p Hp s g rest H. destruct (Hp s g rest H) as [m [Hm E]].
  subst s. rewrite length_app. destruct m; [ contradiction | simpl; lia ].
Qed.

Lemma pat_heading_consuming : consuming pat_heading.
Proof.
  intros [ | c t ] g rest H; [ discriminate | ].
  change (pat_heading (c :: t))
    with (if char_eqb c (ch "#")
          then Some (@nil char, dropwhile isspace (drop_upto 5 (ch "#") t))
          else None) in H.
  destruct (char_eqb c (ch "#")); [ | discriminate ].
  assert (rest = dropwhile isspace (drop_upto 5 (ch "#") t)) by congruence.
  subst rest. destruct (drop_upto_suffix 5 (ch "#") t) as [m Hm].
  exists (c :: m ++ takewhile isspace (drop_upto 5 (ch "#") t)).
  split; [ discriminate | ].
  rewrite <- app_comm_cons, <- app_assoc, takewhile_dropwhile, <- Hm. reflexivity.
Qed.

Lemma pat_spaces_consuming : consuming pat_spaces.
Proof.
  intros [ | c t ] g rest H; [ discriminate | ].
  change (pat_spaces (c :: t))
    with (if isspace c then Some (@nil char, dropwhile isspace t) else None) in H.
  destruct (isspace c); [ | discriminate ].
  assert (rest = dropwhile isspace t) by congruence.
  subst rest. exists (c :: takewhile isspace t).
  split; [ discriminate | ].
  rewrite <- app_comm_cons, takewhile_dropwhile. reflexivity.
Qed.

Lemma pat_literal_consuming :
  forall old, old <> [] -> consuming (pat_literal old).
Proof.
  intros old Hold s g rest H. unfold pat_literal in H.
  destruct (startswith s old) eqn:E; [ | discriminate ].
  assert (rest = skipn (length old) s) by congruence. subst rest.
  exists (firstn (length old) s). split.
  - destruct old as [ | a old ]; [ contradiction | ].
    destruct s as [ | b s ]; [ discriminate | ]. discriminate.
  - symmetry. apply firstn_skipn.
Qed.

Lemma re_sub_fuel_irrelevant :
  forall p repl, consuming p ->
  forall n m s, (length s <= n)%nat -> (length s <= m)%nat ->
    re_sub_fuel p repl n s = re_sub_fuel p repl m s.
Proof.
  intros p repl Hp. induction n as [ | n IH ]; intros m s Hn Hm.
  - destruct s; [ | simpl in Hn; lia ]. destruct m; reflexivity.
  - destruct m as [ | m ].
    + destruct s; [ reflexivity | simpl in Hm; lia ].
    + destruct s as [ | c t ]; [ reflexivity | ]. simpl in Hn, Hm.
      cbn [re_sub_fuel]. destruct (p (c :: t)) as [ [g rest] | ] eqn:E.
      * apply (consuming_shrinks p Hp) in E. simpl in E. f_equal. apply IH; lia.
      * f_equal. apply IH; lia.
Qed.

Lemma re_sub_cons :
  forall p repl, consuming p ->
  forall c t,
    re_sub p repl (c :: t)
    = match p (c :: t) with
      | Some (g, rest) => repl g ++ re_sub p repl rest
      | None => c :: re_sub p repl t
      end.
Proof.
  intros p repl Hp c t. unfold re_sub. cbn [length re_sub_fuel].
  destruct (p (c :: t)) as [ [g rest] | ] eqn:E.
  - apply (consuming_shrinks p Hp) in E. simpl in E. f_equal.
    apply re_sub_fuel_irrelevant; [ exact Hp | lia | lia ].
  - reflexivity.
Qed.

Lemma re_sub_no_match :
  forall p repl s, re_search p s = None -> re_sub p repl s = s.
Proof.
  intros p repl s. unfold re_sub. generalize (length s) as n.
  intros n. revert s. induction n as [ | n IH ]; intros s H; [ reflexivity | ].
  destruct s as [ | c t ]; [ reflexivity | ].
  cbn [re_search] in H. cbn [re_sub_fuel].
  destruct (p (c :: t)) as [ [g rest] | ]; [ discriminate | ].
  f_equal. apply IH. exact H.
Qed.

(* ---------- prefixes and suffixes ---------- *)


Lemma rstrip_by_prefix :
  forall p s, exists w, s = rstrip_by p s ++ w /\ forallb p w = true.
Proof.
  induction s as [ | c t [w [IH Hw]] ]; simpl.
  - exists []. split; reflexivity.
  - destruct (rstrip_by p t) as [ | r0 r ] eqn:E.
    + simpl in IH. subst w. destruct (p c) eqn:Ec.
      * exists (c :: t). split; [ reflexivity | simpl; rewrite Ec; exact Hw ].
      * exists t. split; [ reflexivity | exact Hw ].
    + exists w. split; [ simpl; rewrite IH at 1; reflexivity | exact Hw ].
Qed.

Lemma rstrip_by_length :
  forall p s, (length (rstrip_by p s) <= length s)%nat.
Proof.
  intros p s. destruct (rstrip_by_prefix p s) as [w [H _]].
  rewrite H at 2. rewrite length_app. lia.
Qed.

Lemma rstrip_by_same_length :
  forall p s, length (rstrip_by p s) = length s -> rstrip_by p s = s.
Proof.
  intros p s H. destruct (rstrip_by_prefix p s) as [w [E _]].
  rewrite E in H at 2. rewrite length_app in H.
  destruct w; [ rewrite app_nil_r in E; symmetry; exact E | simpl in H; lia ].
Qed.

Lemma rstrip_by_last :
  forall p a c, p c = false -> rstrip_by p (a ++ [c]) = a ++ [c].
Proof.
  induction a as [ | x a IH ]; intros c Hc; simpl.
  - rewrite Hc. reflexivity.
  - rewrite (IH c Hc). destruct a; reflexivity.
Qed.

Lemma startswith_app :
  forall sub a b, startswith a sub = true -> startswith (a ++ b) sub = true.
Proof.
  induction sub as [ | x sub IH ]; intros a b H; [ reflexivity | ].
  destruct a as [ | y a ]; [ discriminate | ]. simpl in *.
  apply andb_true_iff in H. destruct H as [H1 H2].
  rewrite H1. simpl. apply IH. exact H2.
Qed.

Lemma contains_cons :
  forall a t sub,
    contains (a :: t) sub = startswith (a :: t) sub || contains t sub.
Proof. reflexivity. Qed.

Lemma contains_prefix :
  forall sub a b, contains (a ++ b) sub = false -> contains a sub = false.
Proof.
  intros sub a b. induction a as [ | x a IH ]; intro H.
  - destruct sub; [ destruct b; discriminate | reflexivity ].
  - change ((x :: a) ++ b) with (x :: (a ++ b)) in H.
    rewrite contains_cons in *. apply orb_false_iff in H. destruct H as [H1 H2].
    apply orb_false_iff. split; [ | apply IH; exact H2 ].
    destruct (startswith (x :: a) sub) eqn:E; [ | reflexivity ].
    apply (startswith_app sub (x :: a) b) in E. simpl in E, H1. congruence.
Qed.

Lemma contains_suffix :
  forall sub a b, contains (a ++ b) sub = false -> contains b sub = false.
Proof.
  intros sub a b. induction a as [ | x a IH ]; intro H; [ exact H | ].
  change ((x :: a) ++ b) with (x :: (a ++ b)) in H.
  rewrite contains_cons in H. apply orb_false_iff in H. apply IH. apply H.
Qed.

Lemma contains_single :
  forall x s, contains s [x] = false <-> ~ In x s.
Proof.
  intros x s. induction s as [ | c t IH ].
  - simpl. split; [ intros _ [] | reflexivity ].
  - rewrite contains_cons. simpl startswith. rewrite andb_true_r.
    rewrite orb_false_iff, IH. unfold char_eqb. rewrite N.eqb_neq.
    simpl. split.
    + intros [H1 H2] [H | H]; [ congruence | contradiction ].
    + intro H. split; [ intro E; apply H; left; congruence | intro E; apply H; right; exact E ].
Qed.

Lemma in_dropwhile : forall p s c, In c (dropwhile p s) -> In c s.
Proof.
  intros p s c H. rewrite <- (takewhile_dropwhile p s). apply in_or_app. right. exact H.
Qed.

Lemma in_rstrip_by : forall p s c, In c (rstrip_by p s) -> In c s.
Proof.
  intros p s c H. destruct (rstrip_by_prefix p s) as [w [E _]].
  rewrite E. apply in_or_app. left. exact H.
Qed.

Lemma in_firstn : forall k (s : str) c, In c (firstn k s) -> In c s.
Proof.
  intros k s c H. rewrite <- (firstn_skipn k s). apply in_or_app. left. exact H.
Qed.

Lemma in_strip : forall s c, In c (strip s) -> In c s.
Proof.
  intros s c H. unfold strip, strip_by, lstrip_by in H.
  apply in_rstrip_by in H. apply in_dropwhile in H. exact H.
Qed.

(* ---------- what re.sub emits ---------- *)

Lemma re_sub_nil : forall p repl, re_sub p repl [] = [].
Proof. reflexivity. Qed.


Lemma re_sub_emits :
  forall p repl, consuming p ->
  forall n s c, (length s <= n)%nat ->
    In c (re_sub p repl s) ->
    (exists t, p (c :: t) = None) \/ exists g, In c (repl g).
Proof.
  intros p repl Hp. induction n as [ | n IH ]; intros s c Hn H.
  - destruct s; [ contradiction | simpl in Hn; lia ].
  - destruct s as [ | x t ]; [ contradiction | ].
    rewrite (re_sub_cons p repl Hp) in H. simpl in Hn.
    destruct (p (x :: t)) as [ [g rest] | ] eqn:E.
    + apply in_app_or in H. destruct H as [H | H].
      * right. exists g. exact H.
      * apply (consuming_shrinks p Hp) in E. simpl in E.
        apply (IH rest c); [ lia | exact H ].
    + destruct H as [H | H].
      * subst x. left. exists t. exact E.
      * apply (IH t c); [ lia | exact H ].
Qed.

Lemma re_sub_source :
  forall p repl, consuming p ->
  forall n s c, (length s <= n)%nat ->
    In c (re_sub p repl s) ->
    In c s \/ exists g, In c (repl g).
Proof.
  intros p repl Hp. induction n as [ | n IH ]; intros s c Hn H.
  - destruct s; [ contradiction | simpl in Hn; lia ].
  - destruct s as [ | x t ]; [ contradiction | ].
    rewrite (re_sub_cons p repl Hp) in H. simpl in Hn.
    destruct (p (x :: t)) as [ [g rest] | ] eqn:E.
    + apply in_app_or in H. destruct H as [H | H].
      * right. exists g. exact H.
      * pose proof (consuming_shrinks p Hp _ _ _ E) as Hl. simpl in Hl.
        destruct (Hp _ _ _ E) as [m [_ Em]].
        destruct (IH rest c ltac:(lia) H) as [Hin | Hr]; [ | right; exact Hr ].
        left. rewrite Em. apply in_or_app. right. exact Hin.
    + destruct H as [H | H].
      * left. left. exact H.
      * destruct (IH t c ltac:(lia) H) as [Hin | Hr]; [ | right; exact Hr ].
        left. right. exact Hin.
Qed.

(* ---------- the steps of the cleaner ---------- *)

Lemma heading_marks_removed :
  forall s, ~ In (ch "#") (re_sub pat_heading (fun _ => []) s).
Proof.
  intros s H.
  destruct (re_sub_emits pat_heading (fun _ => []) pat_heading_consuming
              (length s) s _ (le_n _) H) as [ [t Ht] | [g []] ].
  discriminate Ht.
Qed.

Lemma replace_removes_char :
  forall x new s, ~ In x new -> ~ In x (replace [x] new s).
Proof.
  intros x new s Hnew H. unfold replace in H.
  destruct (re_sub_emits (pat_literal [x]) (fun _ => new)
              (pat_literal_consuming [x] ltac:(discriminate))
              (length s) s _ (le_n _) H) as [ [t Ht] | [g Hg] ].
  - unfold pat_literal in Ht. simpl in Ht. unfold char_eqb in Ht.
    rewrite N.eqb_refl in Ht. discriminate.
  - contradiction.
Qed.

Lemma replace_source :
  forall old new s c, old <> [] ->
    In c (replace old new s) -> In c s \/ In c new.
Proof.
  intros old new s c Hold H. unfold replace in H.
  destruct (re_sub_source (pat_literal old) (fun _ => new)
              (pat_literal_consuming old Hold) (length s) s _ (le_n _) H)
    as [ Hin | [g Hg] ]; [ left | right ]; assumption.
Qed.

Lemma collapse_source :
  forall s c, In c (re_sub pat_spaces (fun _ => py " ") s) ->
              In c s \/ c = 32%N.
Proof.
  intros s c H.
  destruct (re_sub_source pat_spaces (fun _ => py " ") pat_spaces_consuming
              (length s) s _ (le_n _) H) as [ Hin | [g Hg] ].
  - left. exact Hin.
  - right. destruct Hg as [Hg | []]. symmetry. exact Hg.
Qed.

Lemma collapse_cons :
  forall c t,
    re_sub pat_spaces (fun _ => py " ") (c :: t)
    = if isspace c
      then 32%N :: re_sub pat_spaces (fun _ => py " ") (dropwhile isspace t)
      else c :: re_sub pat_spaces (fun _ => py " ") t.
Proof.
  intros c t. rewrite (re_sub_cons _ _ pat_spaces_consuming).
  change (pat_spaces (c :: t))
    with (if isspace c then Some (@nil char, dropwhile isspace t) else None).
  destruct (isspace c); reflexivity.
Qed.

Lemma replace_cons :
  forall old new c t, old <> [] ->
    replace old new (c :: t)
    = if startswith (c :: t) old
      then new ++ replace old new (skipn (length old) (c :: t))
      else c :: replace old new t.
Proof.
  intros old new c t Hold. unfold replace.
  rewrite (re_sub_cons _ _ (pat_literal_consuming old Hold)).
  unfold pat_literal. destruct (startswith (c :: t) old); reflexivity.
Qed.

(* ---------- the two-character sequence backslash n ---------- *)


Lemma startswith_esc :
  forall a t, startswith (a :: t) esc = char_eqb 92%N a && startswith t [110%N].
Proof. reflexivity. Qed.

Lemma replace_esc_head :
  forall t, startswith (replace esc [32%N] t) [110%N] = true ->
            startswith t [110%N] = true.
Proof.
  intros [ | b t ] H; [ discriminate | ].
  rewrite replace_cons in H by discriminate.
  destruct (startswith (b :: t) esc); [ discriminate | exact H ].
Qed.

Lemma replace_esc_clean :
  forall n s, (length s <= n)%nat -> contains (replace esc [32%N] s) esc = false.
Proof.
  induction n as [ | n IH ]; intros s Hn.
  - destruct s; [ reflexivity | simpl in Hn; lia ].
  - destruct s as [ | a t ]; [ reflexivity | ]. simpl in Hn.
    rewrite replace_cons by discriminate.
    destruct (startswith (a :: t) esc) eqn:E.
    + change ([32%N] ++ ?x) with (32%N :: x). rewrite contains_cons.
      rewrite startswith_esc. simpl andb.
      apply IH. pose proof (length_skipn (length esc) (a :: t)) as Hl.
      change (length esc) with 2%nat in *. cbn [length] in *. lia.
    + rewrite contains_cons, (IH t) by lia. rewrite orb_false_r.
      rewrite startswith_esc in *.
      destruct (char_eqb 92%N a); [ | reflexivity ]. cbn [andb] in *.
      destruct (startswith (replace esc [32%N] t) [110%N]) eqn:F; [ | reflexivity ].
      apply replace_esc_head in F. congruence.
Qed.

Lemma collapse_head :
  forall t, startswith (re_sub pat_spaces (fun _ => py " ") t) [110%N] = true ->
            startswith t [110%N] = true.
Proof.
  intros [ | b t ] H; [ discriminate | ].
  rewrite collapse_cons in H.
  destruct (isspace b); [ discriminate | exact H ].
Qed.

Lemma collapse_keeps_clean :
  forall n s, (length s <= n)%nat ->
    contains s esc = false ->
    contains (re_sub pat_spaces (fun _ => py " ") s) esc = false.
Proof.
  induction n as [ | n IH ]; intros s Hn H.
  - destruct s; [ reflexivity | simpl in Hn; lia ].
  - destruct s as [ | a t ]; [ reflexivity | ]. simpl in Hn.
    rewrite collapse_cons. rewrite contains_cons in H.
    apply orb_false_iff in H. destruct H as [H1 H2].
    destruct (isspace a).
    + rewrite contains_cons, startswith_esc. simpl andb. apply IH.
      * pose proof (dropwhile_length isspace t). lia.
      * apply (contains_suffix esc (takewhile isspace t)).
        rewrite takewhile_dropwhile. exact H2.
    + rewrite contains_cons, (IH t) by (lia || assumption). rewrite orb_false_r.
      rewrite startswith_esc in *.
      destruct (char_eqb 92%N a); [ | reflexivity ]. cbn [andb] in *.
      destruct (startswith (re_sub pat_spaces (fun _ => py " ") t) [110%N]) eqn:F;
        [ | reflexivity ].
      apply collapse_head in F. congruence.
Qed.

Lemma strip_keeps_clean :
  forall sub s, contains s sub = false -> contains (strip s) sub = false.
Proof.
  intros sub s H. unfold strip, strip_by, lstrip_by.
  destruct (rstrip_by_prefix isspace (dropwhile isspace s)) as [w [E _]].
  apply (contains_prefix sub _ w). rewrite <- E.
  apply (contains_suffix sub (takewhile isspace s)).
  rewrite takewhile_dropwhile. exact H.
Qed.

Lemma firstn_keeps_clean :
  forall sub k (s : str), contains s sub = false -> contains (firstn k s) sub = false.
Proof.
  intros sub k s H. apply (contains_prefix sub _ (skipn k s)).
  rewrite firstn_skipn. exact H.
Qed.

Lemma append_keeps_clean :
  forall c u, c <> 110%N -> contains u esc = false ->
              contains (u ++ [c]) esc = false.
Proof.
  intros c u Hc. induction u as [ | a t IH ]; intro H.
  - change ([] ++ [c]) with [c]. rewrite contains_cons, startswith_esc.
    cbn [startswith contains]. rewrite andb_false_r. reflexivity.
  - change ((a :: t) ++ [c]) with (a :: (t ++ [c])).
    rewrite contains_cons in *. apply orb_false_iff in H. destruct H as [H1 H2].
    rewrite (IH H2), orb_false_r. rewrite startswith_esc in *.
    destruct (char_eqb 92%N a); [ | reflexivity ]. cbn [andb] in *.
    destruct t as [ | b t ].
    + cbn [app startswith]. unfold char_eqb. rewrite andb_true_r.
      apply N.eqb_neq. congruence.
    + exact H1.
Qed.

Lemma no_match_literal :
  forall old s, contains s old = false -> re_search (pat_literal old) s = None.
Proof.
  intros old s. induction s as [ | c t IH ]; intro H; [ reflexivity | ].
  rewrite contains_cons in H. apply orb_false_iff in H. destruct H as [H1 H2].
  cbn [re_search]. unfold pat_literal at 1. rewrite H1. apply IH. exact H2.
Qed.

Lemma no_match_heading :
  forall s, ~ In (ch "#") s -> re_search pat_heading s = None.
Proof.
  induction s as [ | c t IH ]; intro H; [ reflexivity | ].
  cbn [re_search].
  change (pat_heading (c :: t))
    with (if char_eqb c (ch "#")
          then Some (@nil char, dropwhile isspace (drop_upto 5 (ch "#") t))
          else None).
  destruct (char_eqb c (ch "#")) eqn:E.
  - apply N.eqb_eq in E. exfalso. apply H. left. exact E.
  - apply IH. intro Hin. apply H. right. exact Hin.
Qed.

(* ---------- whitespace in normal form ---------- *)


Lemma spaced_ok_single :
  forall s b, spaced_ok b s = true -> single_spaced b s = true.
Proof.
  induction s as [ | c t IH ]; intros b H; [ reflexivity | ].
  cbn [spaced_ok single_spaced] in *. destruct (isspace c).
  - apply andb_true_iff in H. destruct H as [H1 H2].
    rewrite H1. apply IH. exact H2.
  - apply IH. exact H.
Qed.

Lemma single_spaced_head :
  forall t, single_spaced true t = true -> dropwhile isspace t = t.
Proof.
  intros [ | c t ] H; [ reflexivity | ].
  cbn [single_spaced dropwhile] in *. destruct (isspace c); [ | reflexivity ].
  rewrite andb_false_r in H. discriminate.
Qed.

Lemma collapse_fixed :
  forall s b, single_spaced b s = true -> collapse s = s.
Proof.
  induction s as [ | c t IH ]; intros b H; [ reflexivity | ].
  rewrite collapse_cons. cbn [single_spaced] in H. destruct (isspace c).
  - apply andb_true_iff in H. destruct H as [H1 H2].
    apply andb_true_iff in H1. destruct H1 as [H1 _].
    apply N.eqb_eq in H1. subst c.
    rewrite (single_spaced_head t H2), (IH true H2). reflexivity.
  - rewrite (IH false H). reflexivity.
Qed.

Lemma rstrip_fixed :
  forall s b, spaced_ok b s = true -> rstrip_by isspace s = s.
Proof.
  induction s as [ | c t IH ]; intros b H; [ reflexivity | ].
  cbn [spaced_ok rstrip_by] in *. destruct (isspace c) eqn:Ec.
  - apply andb_true_iff in H. destruct H as [_ H]. rewrite (IH true H).
    destruct t; [ discriminate H | reflexivity ].
  - rewrite (IH false H). destruct t; reflexivity.
Qed.

Lemma strip_collapse_fixed :
  forall s, spaced_ok true s = true -> strip (collapse s) = s.
Proof.
  intros s H. pose proof (spaced_ok_single s true H) as Hs.
  rewrite (collapse_fixed s true Hs). unfold strip, strip_by, lstrip_by.
  rewrite (single_spaced_head s Hs). apply (rstrip_fixed s true H).
Qed.

Lemma collapse_single_spaced :
  forall n s, (length s <= n)%nat ->
    single_spaced false (collapse s) = true
    /\ (match s with c :: _ => isspace c = false | [] => True end ->
        single_spaced true (collapse s) = true).
Proof.
  induction n as [ | n IH ]; intros s Hn.
  - destruct s; [ split; reflexivity | simpl in Hn; lia ].
  - destruct s as [ | c t ]; [ split; reflexivity | ]. simpl in Hn.
    rewrite collapse_cons. destruct (isspace c) eqn:Ec.
    + split; [ | discriminate ].
      cbn [single_spaced]. change (isspace 32%N) with true. cbn.
      apply (IH (dropwhile isspace t)).
      * pose proof (dropwhile_length isspace t). lia.
      * destruct t as [ | d t ]; [ exact I | ].
        clear. induction (d :: t) as [ | x l IHl ]; [ exact I | ].
        cbn [dropwhile]. destruct (isspace x) eqn:Ex; [ exact IHl | exact Ex ].
    + cbn [single_spaced]. rewrite Ec.
      split; intros; apply (IH t); lia.
Qed.

Lemma dropwhile_single :
  forall y b, single_spaced b y = true ->
              single_spaced true (dropwhile isspace y) = true.
Proof.
  induction y as [ | c t IH ]; intros b H; [ reflexivity | ].
  cbn [single_spaced dropwhile] in *. destruct (isspace c) eqn:Ec.
  - apply andb_true_iff in H. destruct H as [_ H]. apply (IH true H).
  - cbn [single_spaced]. rewrite Ec. exact H.
Qed.

Lemma rstrip_spaced :
  forall r b, single_spaced b r = true ->
    rstrip_by isspace r = [] \/ spaced_ok b (rstrip_by isspace r) = true.
Proof.
  induction r as [ | c t IH ]; intros b H; [ left; reflexivity | ].
  cbn [single_spaced rstrip_by] in *. destruct (isspace c) eqn:Ec.
  - apply andb_true_iff in H. destruct H as [H1 H2].
    destruct (IH true H2) as [E | E].
    + rewrite E. left. reflexivity.
    + destruct (rstrip_by isspace t) as [ | x r0 ]; [ left; reflexivity | ].
      right. remember (x :: r0) as u. cbn [spaced_ok]. rewrite Ec, H1. exact E.
  - destruct (IH false H) as [E | E].
    + rewrite E. right. cbn [spaced_ok]. rewrite Ec. reflexivity.
    + destruct (rstrip_by isspace t) as [ | x r0 ].
      * right. cbn [spaced_ok]. rewrite Ec. reflexivity.
      * right. remember (x :: r0) as u. cbn [spaced_ok]. rewrite Ec. exact E.
Qed.

Lemma strip_collapse_normal :
  forall s, strip (collapse s) = [] \/ spaced_ok true (strip (collapse s)) = true.
Proof.
  intro s. unfold strip, strip_by, lstrip_by.
  apply rstrip_spaced. apply (dropwhile_single _ false).
  apply (collapse_single_spaced (length s) s (le_n _)).
Qed.

Lemma single_spaced_firstn :
  forall k s b, single_spaced b s = true -> single_spaced b (firstn k s) = true.
Proof.
  induction k as [ | k IH ]; intros s b H; [ reflexivity | ].
  destruct s as [ | c t ]; [ reflexivity | ].
  cbn [firstn single_spaced] in *. destruct (isspace c).
  - apply andb_true_iff in H. destruct H as [H1 H2].
    rewrite H1. apply IH. exact H2.
  - apply IH. exact H.
Qed.

Lemma spaced_append :
  forall u b c, single_spaced b u = true -> isspace c = false ->
                spaced_ok b (u ++ [c]) = true.
Proof.
  induction u as [ | a t IH ]; intros b c H Hc.
  - cbn [app spaced_ok]. rewrite Hc. reflexivity.
  - change ((a :: t) ++ [c]) with (a :: (t ++ [c])).
    cbn [single_spaced spaced_ok] in *. destruct (isspace a).
    + apply andb_true_iff in H. destruct H as [H1 H2].
      rewrite H1. apply IH; assumption.
    + apply IH; assumption.
Qed.

Lemma spaced_ok_nonempty : forall s, spaced_ok true s = true -> s <> [].
Proof. intros [ | c t ] H; [ discriminate H | discriminate ]. Qed.

Lemma strip_prefix_normal :
  forall s k, spaced_ok true s = true ->
    strip (firstn k s) = rstrip_by isspace (firstn k s)
    /\ (strip (firstn k s) = [] \/ spaced_ok true (strip (firstn k s)) = true).
Proof.
  intros s k H.
  pose proof (single_spaced_firstn k s true (spaced_ok_single s true H)) as Hf.
  assert (E : strip (firstn k s) = rstrip_by isspace (firstn k s)).
  { unfold strip, strip_by, lstrip_by. rewrite (single_spaced_head _ Hf). reflexivity. }
  split; [ exact E | ]. rewrite E. apply rstrip_spaced. exact Hf.
Qed.

(* ---------- rfind and slices ---------- *)

Lemma rfind_from_spec :
  forall sub s i best,
    rfind_from i s sub best = best
    \/ (i <= rfind_from i s sub best
        /\ startswith (skipn (Z.to_nat (rfind_from i s sub best - i)) s) sub = true).
Proof.
  intros sub. induction s as [ | c t IH ]; intros i best.
  - cbn [rfind_from]. destruct (startswith [] sub) eqn:E.
    + right. split; [ lia | ]. rewrite Z.sub_diag. exact E.
    + left. reflexivity.
  - cbn [rfind_from].
    destruct (IH (i + 1) (if startswith (c :: t) sub then i else best)) as [H | [H1 H2]].
    + rewrite H. destruct (startswith (c :: t) sub) eqn:E.
      * right. split; [ lia | ]. rewrite Z.sub_diag. exact E.
      * left. reflexivity.
    + right. split; [ lia | ].
      replace (Z.to_nat (rfind_from (i + 1) t sub
                           (if startswith (c :: t) sub then i else best) - i))
        with (S (Z.to_nat (rfind_from (i + 1) t sub
                             (if startswith (c :: t) sub then i else best) - (i + 1))))
        by lia.
      exact H2.
Qed.

Lemma rfind_period :
  forall s, 0 <= rfind s (py ".") ->
    exists a b, s = a ++ 46%N :: b /\ Z.of_nat (length a) = rfind s (py ".").
Proof.
  intros s H. unfold rfind in *.
  destruct (rfind_from_spec (py ".") s 0 (-1)) as [E | [_ E]]; [ lia | ].
  rewrite Z.sub_0_r in E. set (k := Z.to_nat (rfind_from 0 s (py ".") (-1))) in *.
  destruct (skipn k s) as [ | x b ] eqn:Es; [ discriminate E | ].
  change (py ".") with [46%N] in E. cbn [startswith] in E.
  rewrite andb_true_r in E. apply N.eqb_eq in E. subst x.
  exists (firstn k s), b. split.
  - transitivity (firstn k s ++ skipn k s);
      [ symmetry; apply firstn_skipn | rewrite Es; reflexivity ].
  - assert (k < length s)%nat.
    { destruct (Nat.lt_ge_cases k (length s)) as [Hl | Hl]; [ exact Hl | ].
      rewrite (skipn_all2 s Hl) in Es. discriminate. }
    rewrite length_firstn. unfold k. lia.
Qed.

Lemma slice_to_firstn :
  forall n s, 0 <= n -> slice_to n s = firstn (Z.to_nat n) s.
Proof.
  intros n s Hn. unfold slice_to, slice_index, len.
  replace (n <? 0) with false by (symmetry; apply Z.ltb_ge; lia).
  destruct (Z.le_gt_cases n (Z.of_nat (length s))) as [H | H].
  - rewrite Z.min_l by lia. reflexivity.
  - rewrite Z.min_r by lia. rewrite Nat2Z.id.
    rewrite firstn_all. symmetry. apply firstn_all2. lia.
Qed.

(* ---------- the cleaner on its own output ---------- *)



Lemma scrub_marks :
  forall x, ~ In 35%N (scrub x) /\ ~ In 42%N (scrub x)
            /\ contains (scrub x) esc = false.
Proof.
  intro x.
  set (s2 := re_sub pat_heading (fun _ => []) x).
  set (s3 := replace (py "*") (py " ") s2).
  set (s4 := replace (py "\n") (py " ") s3).
  assert (H2 : ~ In 35%N s2) by apply heading_marks_removed.
  assert (H3 : ~ In 42%N s3).
  { apply (replace_removes_char 42%N (py " ") s2). intros [E | []]. discriminate E. }
  assert (H3' : ~ In 35%N s3).
  { intro H. apply (replace_source (py "*") (py " ")) in H; [ | discriminate ].
    destruct H as [H | [E | []]]; [ exact (H2 H) | discriminate E ]. }
  assert (H4 : forall c, In c s4 -> In c s3 \/ c = 32%N).
  { intros c H. apply (replace_source (py "\n") (py " ")) in H; [ | discriminate ].
    destruct H as [H | [E | []]]; [ left; exact H | right; symmetry; exact E ]. }
  assert (H5 : forall c, In c (strip (collapse s4)) -> In c s3 \/ c = 32%N).
  { intros c H. apply in_strip in H. apply collapse_source in H.
    destruct H as [H | H]; [ apply H4; exact H | right; exact H ]. }
  split; [ | split ].
  - intro H. apply H5 in H. destruct H as [H | H]; [ exact (H3' H) | discriminate H ].
  - intro H. apply H5 in H. destruct H as [H | H]; [ exact (H3 H) | discriminate H ].
  - apply strip_keeps_clean. apply (collapse_keeps_clean (length s4) s4 (le_n _)).
    apply (replace_esc_clean (length s3) s3 (le_n _)).
Qed.

Lemma scrub_tidy :
  forall x, scrub x = [] \/ tidy (scrub x).
Proof.
  intro x. destruct (scrub_marks x) as [A [B C]].
  destruct (strip_collapse_normal
              (replace (py "\n") (py " ")
                 (replace (py "*") (py " ") (re_sub pat_heading (fun _ => []) x))))
    as [E | E]; [ left; exact E | right ].
  repeat split; assumption.
Qed.

Lemma tidy_scrub_fixed :
  forall s, tidy s -> scrub s = s.
Proof.
  intros s [A [B [C D]]].
  rewrite (re_sub_no_match pat_heading _ s (no_match_heading s A)).
  unfold replace.
  rewrite (re_sub_no_match (pat_literal (py "*")) _ s).
  2:{ apply no_match_literal. apply (proj2 (contains_single 42%N s)). exact B. }
  rewrite (re_sub_no_match (pat_literal (py "\n")) _ s).
  2:{ apply no_match_literal. exact C. }
  apply strip_collapse_fixed. exact D.
Qed.

Lemma tidy_prefix_period :
  forall s a b, tidy s -> s = a ++ 46%N :: b -> tidy (a ++ [46%N]).
Proof.
  intros s a b [A [B [C D]]] E.
  assert (P : a ++ [46%N] = firstn (S (length a)) s).
  { subst s. rewrite firstn_app, firstn_all2 by lia.
    replace (S (length a) - length a)%nat with 1%nat by lia. reflexivity. }
  repeat split.
  - intro H. rewrite P in H. apply in_firstn in H. exact (A H).
  - intro H. rewrite P in H. apply in_firstn in H. exact (B H).
  - rewrite P. apply firstn_keeps_clean. exact C.
  - apply spaced_append; [ | reflexivity ].
    pose proof (single_spaced_firstn (length a) s true (spaced_ok_single s true D)) as F.
    subst s. rewrite firstn_app, firstn_all2, Nat.sub_diag in F by lia.
    cbn [firstn] in F. rewrite app_nil_r in F. exact F.
Qed.

Lemma tidy_prefix_ellipsis :
  forall s k, tidy s -> tidy (strip (firstn k s) ++ [ellipsis]).
Proof.
  intros s k [A [B [C D]]].
  destruct (strip_prefix_normal s k D) as [_ N].
  repeat split.
  - intro H. apply in_app_or in H. destruct H as [H | [H | []]]; [ | discriminate H ].
    apply in_strip in H. apply in_firstn in H. exact (A H).
  - intro H. apply in_app_or in H. destruct H as [H | [H | []]]; [ | discriminate H ].
    apply in_strip in H. apply in_firstn in H. exact (B H).
  - apply append_keeps_clean; [ discriminate | ].
    apply strip_keeps_clean. apply firstn_keeps_clean. exact C.
  - apply spaced_append; [ | reflexivity ].
    destruct N as [N | N]; [ rewrite N; reflexivity | apply spaced_ok_single; exact N ].
Qed.

Lemma clean_tidy :
  forall M s, tidy s -> re_search pat_md_link s = None ->
    clean_exa_text_len M (Some s)
    = if len s >? M
      then if rfind (slice_to M s) (py ".") >? 120
           then Some (slice_to (rfind (slice_to M s) (py ".") + 1) (slice_to M s))
           else Some (strip (slice_to M s) ++ [ellipsis])
      else Some s.
Proof.
  intros M s T L. unfold clean_exa_text_len.
  pose proof (spaced_ok_nonempty s (proj2 (proj2 (proj2 T)))) as Hne.
  rewrite (re_sub_no_match pat_md_link _ _ L), (tidy_scrub_fixed _ T).
  destruct s; [ contradiction | reflexivity ].
Qed.

(** C9 (amended).  Cleaning is a fixed point on its own output whenever no
    markdown link is left in that output: if [clean_exa_text] returns [s] for
    some text and no [[text](url)] pattern matches anywhere in [s], then
    [clean_exa_text] applied to [s] returns [s].  This holds for every
    non-negative [max_length], in particular for the default 400. *)
Theorem cleaner_fixed_point :
  forall (max_length : Z) (text : option str) (s : str),
    0 <= max_length ->
    clean_exa_text_len max_length text = Some s ->
    re_search pat_md_link s = None ->
    clean_exa_text_len max_length (Some s) = Some s.
Proof.
  intros M text s HM Hout Hlink.
  destruct text as [ text | ]; [ | discriminate Hout ].
  unfold clean_exa_text_len in Hout.
  destruct (is_empty text); [ discriminate Hout | ].
  set (x := re_sub pat_md_link (fun g => g) text) in Hout.
  destruct (scrub_tidy x) as [E | T].
  { rewrite E in Hout. discriminate Hout. }
  remember (scrub x) as s5 eqn:Es5.
  assert (Hs5 : is_empty s5 = false).
  { pose proof (spaced_ok_nonempty s5 (proj2 (proj2 (proj2 T)))).
    destruct s5; [ contradiction | reflexivity ]. }
  rewrite Hs5 in Hout.
  destruct (len s5 >? M) eqn:Elen.
  - rewrite (slice_to_firstn M s5 HM) in Hout.
    set (truncated := firstn (Z.to_nat M) s5) in *.
    assert (Ht : (length truncated <= Z.to_nat M)%nat) by apply firstn_le_length.
    destruct (rfind truncated (py ".") >? 120) eqn:Ep.
    + (* cut after the last full stop *)
      apply Z.gtb_lt in Ep.
      destruct (rfind_period truncated ltac:(lia)) as [a [b [Ea La]]].
      rewrite slice_to_firstn in Hout by lia.
      assert (Es : s = a ++ [46%N]).
      { injection Hout as <-. rewrite Ea.
        replace (Z.to_nat (rfind (a ++ 46%N :: b) (py ".") + 1))
          with (length a + 1)%nat by (rewrite <- Ea; lia).
        rewrite firstn_app, firstn_all2 by lia.
        replace (length a + 1 - length a)%nat with 1%nat by lia. reflexivity. }
      assert (Ts : tidy s).
      { rewrite Es. apply (tidy_prefix_period s5 a (b ++ skipn (Z.to_nat M) s5) T).
        rewrite <- (firstn_skipn (Z.to_nat M) s5) at 1. fold truncated.
        rewrite Ea, <- app_assoc. reflexivity. }
      rewrite (clean_tidy M s Ts Hlink).
      replace (len s >? M) with false; [ reflexivity | ].
      symmetry. rewrite Z.gtb_ltb. apply Z.ltb_ge. unfold len.
      rewrite Es, length_app. rewrite Ea, length_app in Ht. simpl in Ht |- *. lia.
    + (* hard cut, ellipsis appended *)
      injection Hout as Es.
      assert (Ts : tidy s).
      { rewrite <- Es. apply tidy_prefix_ellipsis. exact T. }
      rewrite (clean_tidy M s Ts Hlink).
      destruct (len s >? M) eqn:El; [ | reflexivity ].
      apply Z.gtb_lt in El. unfold len in El.
      destruct (strip_prefix_normal s5 (Z.to_nat M) (proj2 (proj2 (proj2 T))))
        as [Eu _]. fold truncated in Eu.
      pose proof (rstrip_by_length isspace truncated) as Hu.
      rewrite <- Eu in Hu.
      assert (Hlen : length (strip truncated) = Z.to_nat M).
      { rewrite <- Es, length_app in El. simpl in El. lia. }
      assert (Hsame : strip truncated = truncated).
      { rewrite Eu. apply rstrip_by_same_length. rewrite <- Eu. lia. }
      assert (Hcut : slice_to M s = truncated).
      { rewrite slice_to_firstn by exact HM. rewrite <- Es, Hsame.
        rewrite firstn_app, firstn_all2 by lia.
        rewrite Hsame in Hlen. rewrite Hlen, Nat.sub_diag. cbn [firstn].
        apply app_nil_r. }
      rewrite Hcut, Ep, Es. reflexivity.
  - injection Hout as <-.
    rewrite (clean_tidy M s5 T Hlink), Elen. reflexivity.
Qed.

Lemma cleaner_fixed_point_witness :
  clean_exa_text (Some (py "Trail shoe with grip. Light and fast"))
  = Some (py "Trail shoe with grip. Light and fast").
Proof.
  apply (cleaner_fixed_point 400
           (Some (py "##  Trail *shoe*   with [grip](http://g.example). Light and fast  "))
           (py "Trail shoe with grip. Light and fast")).
  - lia.
  - vm_compute. reflexivity.
  - vm_compute. reflexivity.
Defined.

(** C9 as stated fails: the cleaner maps [[[a](b)](c)] to [[a](c)], and
    cleaning that output again gives [a]. *)
Lemma cleaner_not_idempotent :
  clean_exa_text (Some (py "[[a](b)](c)")) = Some (py "[a](c)")
  /\ clean_exa_text (Some (py "[a](c)")) = Some (py "a")
  /\ clean_exa_text (Some (py "[a](c)")) <> Some (py "[a](c)").
Proof.
  split; [ vm_compute; reflexivity | ].
  split; [ vm_compute; reflexivity | ].
  vm_compute. discriminate.
Qed.


(* ================================================================== *)
(** * Structured-Text Parser: titles and the URL pass *)
(* ================================================================== *)

Lemma str_eqb_eq : forall a b, str_eqb a b = true <-> a = b.
Proof.
  induction a as [ | x a IH ]; intros [ | y b ]; simpl; split; intro H;
    try reflexivity; try discriminate.
  - apply andb_true_iff in H. destruct H as [H1 H2].
    apply N.eqb_eq in H1. apply IH in H2. congruence.
  - injection H as -> ->. apply andb_true_iff. split.
    + apply N.eqb_refl.
    + apply IH. reflexivity.
Qed.

Lemma str_eqb_refl : forall a, str_eqb a a = true.
Proof. intro a. apply str_eqb_eq. reflexivity. Qed.

Lemma str_eqb_neq : forall a b, str_eqb a b = false <-> a <> b.
Proof.
  intros a b. split; intro H.
  - intro E. apply str_eqb_eq in E. congruence.
  - destruct (str_eqb a b) eqn:E; [ | reflexivity ].
    apply str_eqb_eq in E. contradiction.
Qed.

Lemma dict_get_set_same :
  forall V (d : dict V) k v, dict_get (dict_set d k v) k = Some v.
Proof.
  intros V d k v. induction d as [ | [k' v'] r IH ]; simpl.
  - rewrite str_eqb_refl. reflexivity.
  - destruct (str_eqb k' k) eqn:E; simpl; rewrite E; [ reflexivity | exact IH ].
Qed.

Lemma dict_get_set_other :
  forall V (d : dict V) k v k', k <> k' ->
    dict_get (dict_set d k v) k' = dict_get d k'.
Proof.
  intros V d k v k' Hk. induction d as [ | [k0 v0] r IH ]; simpl.
  - apply str_eqb_neq in Hk. rewrite Hk. reflexivity.
  - destruct (str_eqb k0 k) eqn:E; simpl.
    + apply str_eqb_eq in E. subst k0.
      apply str_eqb_neq in Hk. rewrite Hk. reflexivity.
    + destruct (str_eqb k0 k'); [ reflexivity | exact IH ].
Qed.

Lemma dict_get_to_pdict :
  forall d k, dict_get (to_pdict d) k = option_map PStr (dict_get d k).
Proof.
  intros d k. induction d as [ | [k' v] r IH ]; simpl; [ reflexivity | ].
  destruct (str_eqb k' k); [ reflexivity | exact IH ].
Qed.

Lemma titled_to_pdict :
  forall d, has_title d = true -> record_titled (PDict (to_pdict d)) = true.
Proof.
  intros d H. unfold has_title in H. unfold record_titled.
  rewrite dict_get_to_pdict.
  destruct d as [ | kv d ]; [ discriminate | ].
  destruct (dict_get (kv :: d) k_title) as [ [ | c t ] | ]; try discriminate.
  reflexivity.
Qed.

Lemma Return_inj : forall A (a b : A), Return a = Return b -> a = b.
Proof. intros A a b H. congruence. Qed.

(* ---------- the labeled scan ---------- *)

Lemma scan_line_scanned :
  forall st raw st',
    scan_line st raw = Return st' ->
    scanned st' = scanned st \/ scanned st' = flush st.
Proof.
  intros st raw st' H. unfold scan_line in H.
  repeat (cbn [bind] in H;
          match type of H with
          | context [ bind ?m _ ] => destruct m
          | context [ if ?b then _ else _ ] => destruct b
          | context [ match ?x with _ => _ end ] => destruct x
          end);
    cbn [bind] in H; try discriminate H;
    injection H as <-; auto.
Qed.


Lemma flush_titled :
  forall st, all_titled (scanned st) -> all_titled (flush st).
Proof.
  intros st H. unfold flush. destruct (has_title (current_result st)) eqn:E.
  - apply Forall_app. split; [ exact H | ]. constructor; [ exact E | constructor ].
  - exact H.
Qed.

Lemma scan_lines_titled :
  forall lines st st',
    scan_lines st lines = Return st' ->
    all_titled (scanned st) -> all_titled (scanned st').
Proof.
  induction lines as [ | line rest IH ]; intros st st' H Hst.
  - injection H as <-. exact Hst.
  - cbn [scan_lines] in H.
    destruct (scan_line st line) as [ st1 | e ] eqn:E; [ | discriminate H ].
    cbn [bind] in H. apply (IH st1 st' H).
    destruct (scan_line_scanned st line st1 E) as [ -> | -> ].
    + exact Hst.
    + apply flush_titled. exact Hst.
Qed.

Lemma labeled_scan_titled :
  forall text l, labeled_scan text = Return l -> all_titled l.
Proof.
  intros text l H. unfold labeled_scan in H.
  destruct (scan_lines _ _) as [ st | e ] eqn:E; [ | discriminate H ].
  cbn [bind] in H. injection H as <-.
  apply flush_titled. apply (scan_lines_titled _ _ _ E). constructor.
Qed.

Lemma fallback_sections_titled :
  forall texts, all_titled (fallback_sections texts).
Proof.
  induction texts as [ | t rest IH ]; [ constructor | ].
  cbn [fallback_sections].
  destruct (fallback_section t) as [ r | ] eqn:E; [ | exact IH ].
  constructor; [ | exact IH ].
  unfold fallback_section in E.
  match type of E with
  | (if has_title ?fr then _ else _) = _ =>
      destruct (has_title fr) eqn:F; [ | discriminate E ]
  end.
  injection E as <-. exact F.
Qed.

Lemma search_bold_nonempty :
  forall s g, re_search pat_bold s = Some g -> g <> [].
Proof.
  induction s as [ | c t IH ]; intros g H; [ discriminate H | ].
  cbn [re_search] in H.
  destruct (pat_bold (c :: t)) as [ [g' rest] | ] eqn:E.
  - injection H as <-. unfold pat_bold in E.
    destruct t as [ | b r ]; [ discriminate E | ].
    destruct (char_eqb c (ch "*") && char_eqb b (ch "*")); [ | discriminate E ].
    destruct (takewhile _ r) as [ | x g0 ]; [ discriminate E | ].
    destruct (dropwhile _ r) as [ | y [ | b' rest' ] ]; try discriminate E.
    destruct (char_eqb b' (ch "*")); [ | discriminate E ].
    injection E as <- _. discriminate.
  - apply IH. exact H.
Qed.

Lemma single_fallback_titled :
  forall text urls, record_titled (PDict (single_fallback text urls)) = true.
Proof.
  intros text urls. unfold single_fallback, record_titled.
  cbn [dict_get]. rewrite str_eqb_refl.
  destruct (re_search pat_bold text) as [ g | ] eqn:E; [ | reflexivity ].
  pose proof (search_bold_nonempty text g E). destruct g; [ contradiction | reflexivity ].
Qed.


Lemma text_records_titled :
  forall text rs, text_records text = Return rs -> all_records_titled rs.
Proof.
  intros text rs H. unfold text_records in H.
  destruct (labeled_scan text) as [ l | e ] eqn:E; [ | discriminate H ].
  cbn [bind] in H. pose proof (labeled_scan_titled text l E) as Hl.
  assert (Hmap : forall l, all_titled l -> all_records_titled (map to_pdict l)).
  { intros l0 H0. unfold all_records_titled. rewrite Forall_map.
    eapply Forall_impl; [ | exact H0 ]. intros d Hd. apply titled_to_pdict. exact Hd. }
  destruct l as [ | d l ].
  - destruct (is_empty text); [ injection H as <-; constructor | ].
    destruct (1 <? _).
    + injection H as <-. apply Hmap. apply fallback_sections_titled.
    + injection H as <-. constructor; [ apply single_fallback_titled | constructor ].
  - injection H as <-. apply (Hmap (d :: l)). exact Hl.
Qed.

Lemma backfill_titled :
  forall urls rs i, all_records_titled rs -> all_records_titled (backfill_urls urls i rs).
Proof.
  intros urls. induction rs as [ | r rest IH ]; intros i H; [ constructor | ].
  inversion H as [ | ? ? Hr Hrest ]; subst.
  cbn [backfill_urls]. destruct (negb _ && _).
  - constructor; [ | apply IH; exact Hrest ].
    unfold record_titled in *. rewrite dict_get_set_other; [ exact Hr | discriminate ].
  - constructor; [ exact Hr | apply IH; exact Hrest ].
Qed.

Lemma parse_text_titled :
  forall text rs, parse_text text = Return rs -> all_records_titled rs.
Proof.
  intros text rs H. unfold parse_text in H.
  destruct (text_records text) as [ rs0 | e ] eqn:E; [ | discriminate H ].
  cbn [bind] in H. pose proof (text_records_titled text rs0 E) as H0.
  destruct rs0 as [ | r0 rs0 ]; [ injection H as <-; exact H0 | ].
  destruct (re_findall pat_url text) as [ | u us ];
    apply Return_inj in H; subst rs.
  - exact H0.
  - apply backfill_titled. exact H0.
Qed.

(* ---------- the final URL pass ---------- *)

Lemma skipn_nth :
  forall (urls : list str) i, (i < length urls)%nat ->
    skipn i urls = nth i urls [] :: skipn (S i) urls.
Proof.
  induction urls as [ | u urls IH ]; intros i H; [ simpl in H; lia | ].
  destruct i as [ | i ]; [ reflexivity | ].
  simpl in H. cbn [skipn nth]. apply IH. lia.
Qed.

Lemma assign_urls_nil : forall rs, assign_urls [] rs = rs.
Proof.
  induction rs as [ | r rest IH ]; [ reflexivity | ].
  cbn [assign_urls]. rewrite IH. destruct (truthy _); reflexivity.
Qed.

Lemma backfill_is_assign :
  forall urls rs i,
    backfill_urls urls i rs = assign_urls (skipn i urls) rs.
Proof.
  intros urls. induction rs as [ | r rest IH ]; intro i; [ reflexivity | ].
  cbn [backfill_urls assign_urls].
  destruct (truthy (py_get r k_url)); cbn [negb andb].
  - rewrite IH. reflexivity.
  - destruct (Z.of_nat i <? Z.of_nat (length urls)) eqn:E.
    + apply Z.ltb_lt in E. rewrite (skipn_nth urls i) by lia.
      rewrite IH. reflexivity.
    + apply Z.ltb_ge in E. rewrite IH. rewrite skipn_all2 by lia. reflexivity.
Qed.

Lemma parse_text_is_assign :
  forall text rs, text_records text = Return rs ->
    parse_text text = Return (assign_urls (re_findall pat_url text) rs).
Proof.
  intros text rs H. unfold parse_text. rewrite H. cbn [bind].
  destruct rs as [ | r rs ]; [ reflexivity | ].
  destruct (re_findall pat_url text) as [ | u us ] eqn:E.
  - rewrite assign_urls_nil. reflexivity.
  - rewrite backfill_is_assign. reflexivity.
Qed.

(* ---------- the text heuristics never raise ---------- *)

Lemma lower_in_colon :
  forall runs c,
    forallb (fun r => match r with (_, _, _, target) => (58 <? target)%N end)
            runs = true ->
    lower_in c runs = 58%N -> c = 58%N.
Proof.
  induction runs as [ | [[[first last] step] target] rest IH ]; intros c T H;
    [ exact H | ].
  cbn [forallb] in T. apply andb_true_iff in T. destruct T as [T1 T2].
  cbn [lower_in] in H.
  destruct (c <? first)%N; [ exact H | ].
  destruct ((c <=? last) && ((c - first) mod step =? 0))%N.
  - apply N.ltb_lt in T1. lia.
  - exact (IH c T2 H).
Qed.

Lemma lower_char_colon : forall c, lower_char c = 58%N -> c = 58%N.
Proof.
  intros c H. apply (lower_in_colon lower_runs c); [ | exact H ].
  vm_compute. reflexivity.
Qed.

Lemma lower_from_colon :
  forall s b, In 58%N (lower_from b s) -> In 58%N s.
Proof.
  induction s as [ | c t IH ]; intros b H; [ contradiction | ].
  cbn [lower_from] in H. apply in_app_or in H. destruct H as [H | H].
  - left.
    destruct (c =? 931)%N.
    + destruct H as [H | []].
      destruct (b && final_sigma_after t); discriminate H.
    + destruct (c =? 304)%N.
      * destruct H as [H | [H | []]]; discriminate H.
      * destruct H as [H | []]. apply lower_char_colon. exact H.
  - right. exact (IH _ H).
Qed.

Lemma startswith_in :
  forall p s c, startswith s p = true -> In c p -> In c s.
Proof.
  induction p as [ | a p IH ]; intros s c H Hin; [ contradiction | ].
  destruct s as [ | b s ]; [ discriminate H | ].
  cbn [startswith] in H. apply andb_true_iff in H. destruct H as [H1 H2].
  apply N.eqb_eq in H1. subst b.
  destruct Hin as [ <- | Hin ]; [ left; reflexivity | right; exact (IH s c H2 Hin) ].
Qed.

Lemma label_has_colon :
  forall p line,
    startswith (lower line) p = true -> In 58%N p ->
    existsb (char_eqb (ch ":")) line = true.
Proof.
  intros p line H Hin.
  pose proof (lower_from_colon line false (startswith_in p _ 58%N H Hin)) as I.
  apply existsb_exists. exists 58%N. split; [ exact I | reflexivity ].
Qed.

Lemma index1_after_colon :
  forall line, existsb (char_eqb (ch ":")) line = true ->
    exists x, index1 (split_once (ch ":") line) = Return x.
Proof.
  intros line H. unfold split_once. rewrite H. eexists. reflexivity.
Qed.

Lemma index1_after_label :
  forall p line,
    startswith (lower line) p = true -> In 58%N p ->
    exists x, index1 (split_once (ch ":") line) = Return x.
Proof.
  intros p line H Hin. apply index1_after_colon. exact (label_has_colon p line H Hin).
Qed.

Lemma scan_line_returns :
  forall st raw, exists st', scan_line st raw = Return st'.
Proof.
  intros st raw. unfold scan_line.
  repeat match goal with
         | H : startswith (lower ?l) ?p = true
           |- context [ bind (index1 (split_once (ch ":") ?l)) _ ] =>
             let x := fresh "x" in
             let Hx := fresh "Hx" in
             destruct (index1_after_label p l H) as [x Hx];
             [ vm_compute; tauto | rewrite Hx; cbn [bind] ]
         | H : startswith (lower ?l) ?p || startswith (lower ?l) ?q = true
           |- context [ bind (index1 (split_once (ch ":") ?l)) _ ] =>
             apply orb_true_iff in H; destruct H as [H | H]
         | |- context [ if ?b then _ else _ ] => destruct b eqn:?
         | |- context [ match ?x with _ => _ end ] => destruct x eqn:?
         end;
    eexists; reflexivity.
Qed.

Lemma scan_lines_returns :
  forall lines st, exists st', scan_lines st lines = Return st'.
Proof.
  induction lines as [ | line rest IH ]; intro st.
  - eexists. reflexivity.
  - cbn [scan_lines]. destruct (scan_line_returns st line) as [st1 H1].
    rewrite H1. cbn [bind]. apply IH.
Qed.

Lemma text_records_returns :
  forall text, text_records text = Return (heuristic_records text).
Proof.
  intro text. unfold heuristic_records.
  assert (H : exists rs, text_records text = Return rs).
  { unfold text_records, labeled_scan.
    destruct (scan_lines_returns (split_char nl text)
                {| scanned := []; current_result := []; current_section := None |})
      as [st Hst].
    rewrite Hst. cbn [bind].
    destruct (flush st); [ | eexists; reflexivity ].
    destruct (is_empty text); [ eexists; reflexivity | ].
    destruct (1 <? _); eexists; reflexivity. }
  destruct H as [rs H]. rewrite H. reflexivity.
Qed.

(** C2 (amended).  Whenever the embedded-JSON attempt falls through, the
    result of [parse_response] is the list of the records of the text
    heuristics (labeled scan, numbered-section fallback or single-record
    fallback) with the URLs found anywhere in the reply assigned as the
    specification words it: in order, each URL to one record whose url is
    still unfilled, until the records or the URLs run out.  (The
    embedded-JSON path returns before this pass.) *)
Theorem url_backfill_after_text_paths :
  forall (json_loads : str -> json_result) (text : str),
    json_attempt json_loads text = Return None ->
    text_records text = Return (heuristic_records text)
    /\ parse_response json_loads (reply text)
       = PList (map PDict (assign_urls (re_findall pat_url text)
                                       (heuristic_records text))).
Proof.
  intros json_loads text Hjson.
  split; [ apply text_records_returns | ].
  unfold parse_response, parse_response_body, reply. cbn [choices content].
  destruct text as [ | c text ]; [ reflexivity | ].
  rewrite Hjson. cbn [bind]. unfold heuristic_records.
  destruct (text_records (c :: text)) as [ rs | e ] eqn:E.
  - rewrite (parse_text_is_assign _ _ E). reflexivity.
  - unfold parse_text. rewrite E. reflexivity.
Qed.

(** C2 as stated fails on the embedded-JSON path: the reply below holds a
    URL and yields a record without url, which no assignment of the pool to
    any record list produces. *)
Lemma json_path_skips_backfill :
  let text := pyq "{'results':[{'title':'A'}]} see http://x.example" in
  re_findall pat_url text = [py "http://x.example"]
  /\ parse_response json_loads_ref (reply text)
     = PList [PDict [(py "title", PStr (py "A"))]]
  /\ ~ (exists rs,
          parse_response json_loads_ref (reply text)
          = PList (map PDict (assign_urls (re_findall pat_url text) rs))).
Proof.
  intro text.
  assert (U : re_findall pat_url text = [py "http://x.example"])
    by (vm_compute; reflexivity).
  assert (P : parse_response json_loads_ref (reply text)
              = PList [PDict [(py "title", PStr (py "A"))]])
    by (vm_compute; reflexivity).
  split; [ exact U | ]. split; [ exact P | ].
  intros [rs H]. rewrite P, U in H.
  destruct rs as [ | r [ | r' rs ] ].
  - discriminate H.
  - cbn [assign_urls map] in H.
    destruct (truthy (py_get r k_url)) eqn:T.
    + injection H as <-. vm_compute in T. discriminate T.
    + injection H as H.
      assert (G : dict_get (dict_set r k_url (PStr (py "http://x.example"))) k_url
                  = Some (PStr (py "http://x.example")))
        by apply dict_get_set_same.
      rewrite <- H in G. vm_compute in G. discriminate G.
  - cbn [assign_urls map] in H.
    destruct (truthy (py_get r k_url));
      [ destruct (truthy (py_get r' k_url)) | destruct (truthy (py_get r' k_url)) ];
      discriminate H.
Qed.



(** C1 as stated fails on the embedded-JSON path: the record of this reply
    has no title. *)
Lemma json_path_record_without_title :
  parse_response json_loads_ref (reply (pyq "{'results':[{'url':'http://x'}]}"))
  = PList [PDict [(py "url", PStr (py "http://x"))]]
  /\ forallb record_titled
       (records_of (parse_response json_loads_ref
                      (reply (pyq "{'results':[{'url':'http://x'}]}"))))
     = false.
Proof. split; vm_compute; reflexivity. Qed.

Lemma url_backfill_after_text_paths_witness :
  parse_response json_loads_ref
    (reply (py "1. Product: Shoe" ++ nl :: py "2. Product: Boot" ++ nl
               :: py "see http://a.example and http://b.example"))
  = PList [PDict [(py "title", PStr (py "Shoe"));
                  (py "url", PStr (py "http://a.example"))];
           PDict [(py "title", PStr (py "Boot"));
                  (py "description",
                    PStr (py "see http://a.example and http://b.example"));
                  (py "url", PStr (py "http://b.example"))]].
Proof.
  destruct (url_backfill_after_text_paths json_loads_ref
              (py "1. Product: Shoe" ++ nl :: py "2. Product: Boot" ++ nl
                  :: py "see http://a.example and http://b.example"))
    as [_ H].
  - vm_compute. reflexivity.
  - rewrite H. vm_compute. reflexivity.
Defined.


(* ================================================================== *)
(** * Result Fuser *)
(* ================================================================== *)

Lemma enriches_refl : forall d, enriches d d.
Proof. intros d k _. reflexivity. Qed.

Lemma enriches_trans :
  forall a b c, enriches a b -> enriches b c -> enriches a c.
Proof.
  intros a b c Hab Hbc k Hk. rewrite <- (Hab k Hk). apply Hbc.
  destruct Hk as [Hk | Hk]; [ left | right; exact Hk ].
  unfold py_get in *. rewrite (Hab k (or_introl Hk)). exact Hk.
Qed.

Lemma enriches_set :
  forall d key v, In key fusion_keys -> truthy (py_get d key) = false ->
                  enriches d (dict_set d key v).
Proof.
  intros d key v Hin Hf k Hk. apply dict_get_set_other. intro E. subst k.
  destruct Hk as [Hk | Hk]; [ congruence | contradiction ].
Qed.

Lemma enriches_guarded :
  forall d key (c : bool) v, In key fusion_keys ->
    enriches d (if negb (truthy (py_get d key)) && c then dict_set d key v else d).
Proof.
  intros d key c v Hin. destruct (truthy (py_get d key)) eqn:E; cbn [negb andb].
  - apply enriches_refl.
  - destruct c; [ apply enriches_set; assumption | apply enriches_refl ].
Qed.

Lemma enrich_enriches :
  forall d e d', enrich d e = Return d' -> enriches d d'.
Proof.
  intros d e d' H. unfold enrich in H.
  set (d1 := if negb (truthy (py_get d k_url)) && truthy (py_get e k_url)
             then dict_set d k_url (py_get e k_url) else d) in H.
  set (d2 := if negb (truthy (py_get d1 k_image_url)) && truthy (py_get e k_image_url)
             then dict_set d1 k_image_url (py_get e k_image_url) else d1) in H.
  assert (H1 : enriches d d1).
  { apply enriches_guarded. unfold fusion_keys. simpl. tauto. }
  assert (H2 : enriches d1 d2).
  { apply enriches_guarded. unfold fusion_keys. simpl. tauto. }
  assert (H3 : forall d3,
             (if negb (truthy (py_get d2 k_description))
              then cleaned <- clean_exa_value
                                (py_or (py_get e k_description) (py_get e (py "text"))) ;;
                   Return match cleaned with
                          | Some c => dict_set d2 k_description (PStr c)
                          | None => d2
                          end
              else Return d2) = Return d3 -> enriches d2 d3).
  { intros d3 E. destruct (truthy (py_get d2 k_description)) eqn:T; cbn [negb] in E.
    - apply Return_inj in E. subst d3. apply enriches_refl.
    - destruct (clean_exa_value _) as [ [ c | ] | ex ]; cbn [bind] in E;
        try discriminate E; apply Return_inj in E; subst d3.
      + apply enriches_set; [ unfold fusion_keys; simpl; tauto | exact T ].
      + apply enriches_refl. }
  destruct (if negb (truthy (py_get d2 k_description)) then _ else _)
    as [ d3 | ex ] eqn:E3; [ | discriminate H ].
  cbn [bind] in H. specialize (H3 d3 eq_refl).
  assert (H4 : enriches d3 d').
  { destruct (truthy (py_get d3 k_highlights)) eqn:T; cbn [negb] in H.
    - apply Return_inj in H. subst d'. apply enriches_refl.
    - destruct (extract_highlights_value _) as [ [ hs | ] | ex ]; cbn [bind] in H;
        try discriminate H; apply Return_inj in H; subst d'.
      + apply enriches_set; [ unfold fusion_keys; simpl; tauto | exact T ].
      + apply enriches_refl. }
  exact (enriches_trans _ _ _ (enriches_trans _ _ _ (enriches_trans _ _ _ H1 H2) H3) H4).
Qed.

Lemma is_used_spec : forall used i, is_used used i = true <-> In i used.
Proof.
  intros used i. unfold is_used. rewrite existsb_exists. split.
  - intros [x [Hx E]]. apply Nat.eqb_eq in E. subst x. exact Hx.
  - intro H. exists i. split; [ exact H | apply Nat.eqb_refl ].
Qed.

Lemma consumed_once_add :
  forall n used i,
    consumed_once n used -> is_used used i = false -> (i < n)%nat ->
    consumed_once n (used ++ [i]).
Proof.
  intros n used i [Hnd Hlt] Hu Hi. split.
  - apply NoDup_app; [ exact Hnd | repeat constructor; intros [] | ].
    intros x Hx [ <- | [] ].
    apply is_used_spec in Hx. congruence.
  - intros x Hx. apply in_app_or in Hx. destruct Hx as [Hx | [ <- | [] ]].
    + apply Hlt. exact Hx.
    + exact Hi.
Qed.

Lemma first_pass_frame :
  forall title entries d used i0 n d' used',
    first_pass title d used i0 entries = Return (d', used') ->
    consumed_once n used -> (i0 + length entries <= n)%nat ->
    enriches d d' /\ consumed_once n used'.
Proof.
  intros title. induction entries as [ | e rest IH ];
    intros d used i0 n d' used' H Hc Hn.
  - apply Return_inj in H. injection H as <- <-.
    split; [ apply enriches_refl | exact Hc ].
  - cbn [first_pass] in H. cbn [length] in Hn.
    destruct (is_used used i0) eqn:U.
    + apply (IH d used (S i0) n d' used' H Hc). lia.
    + destruct (titles_match title (exa_title_of e)) as [ [ | ] | ex ];
        cbn [bind] in H; try discriminate H.
      * destruct (enrich d e) as [ d1 | ex ] eqn:E; cbn [bind] in H;
          [ | discriminate H ].
        apply Return_inj in H. injection H as <- <-.
        split; [ exact (enrich_enriches _ _ _ E) | ].
        apply consumed_once_add; [ exact Hc | exact U | lia ].
      * apply (IH d used (S i0) n d' used' H Hc). lia.
Qed.

Lemma second_pass_frame :
  forall entries d used i0 n d' used',
    second_pass d used i0 entries = Return (d', used') ->
    consumed_once n used -> (i0 + length entries <= n)%nat ->
    enriches d d' /\ consumed_once n used'.
Proof.
  induction entries as [ | e rest IH ]; intros d used i0 n d' used' H Hc Hn.
  - apply Return_inj in H. injection H as <- <-.
    split; [ apply enriches_refl | exact Hc ].
  - cbn [second_pass] in H. cbn [length] in Hn.
    destruct (is_used used i0) eqn:U.
    + apply (IH d used (S i0) n d' used' H Hc). lia.
    + destruct (enrich d e) as [ d1 | ex ] eqn:E; cbn [bind] in H;
        [ | discriminate H ].
      apply Return_inj in H. injection H as <- <-.
      split; [ exact (enrich_enriches _ _ _ E) | ].
      apply consumed_once_add; [ exact Hc | exact U | lia ].
Qed.

Lemma fuse_record_frame :
  forall stored used v v' used',
    fuse_record stored used v = Return (v', used') ->
    consumed_once (length stored) used ->
    record_enriched v v' /\ consumed_once (length stored) used'.
Proof.
  intros stored used v v' used' H Hc. unfold fuse_record in H.
  destruct v as [ | | | | | | d ]; try discriminate H. cbn [as_dict bind] in H.
  destruct (py_lower _) as [ title | ex ]; cbn [bind] in H; [ | discriminate H ].
  destruct (if missing_link d then _ else _) as [ [d1 used1] | ex ] eqn:P1;
    cbn [bind] in H; [ | discriminate H ].
  destruct (if missing_link d1 then _ else _) as [ [d2 used2] | ex ] eqn:P2;
    cbn [bind] in H; [ | discriminate H ].
  apply Return_inj in H. injection H as <- <-.
  assert (A1 : enriches d d1 /\ consumed_once (length stored) used1).
  { destruct (missing_link d).
    - apply (first_pass_frame _ _ _ _ _ _ _ _ P1 Hc). simpl. lia.
    - apply Return_inj in P1. injection P1 as <- <-.
      split; [ apply enriches_refl | exact Hc ]. }
  destruct A1 as [E1 C1].
  assert (A2 : enriches d1 d2 /\ consumed_once (length stored) used2).
  { destruct (missing_link d1).
    - apply (second_pass_frame _ _ _ _ _ _ _ P2 C1). simpl. lia.
    - apply Return_inj in P2. injection P2 as <- <-.
      split; [ apply enriches_refl | exact C1 ]. }
  destruct A2 as [E2 C2].
  split; [ exact (enriches_trans _ _ _ E1 E2) | exact C2 ].
Qed.

Lemma fuse_records_frame :
  forall stored items used items' used',
    fuse_records stored used items = Return (items', used') ->
    consumed_once (length stored) used ->
    Forall2 record_enriched items items' /\ consumed_once (length stored) used'.
Proof.
  intros stored. induction items as [ | v rest IH ]; intros used items' used' H Hc.
  - apply Return_inj in H. injection H as <- <-. split; [ constructor | exact Hc ].
  - cbn [fuse_records] in H.
    destruct (fuse_record stored used v) as [ [v' used1] | ex ] eqn:E;
      cbn [bind] in H; [ | discriminate H ].
    destruct (fuse_records stored used1 rest) as [ [rest' used2] | ex ] eqn:R;
      cbn [bind] in H; [ | discriminate H ].
    apply Return_inj in H. injection H as <- <-.
    destruct (fuse_record_frame _ _ _ _ _ E Hc) as [F1 C1].
    destruct (IH _ _ _ R C1) as [F2 C2].
    split; [ constructor; assumption | exact C2 ].
Qed.

Lemma record_enriched_refl : forall v, record_enriched v v.
Proof. intros [ | | | | | | d ]; try reflexivity. apply enriches_refl. Qed.

(** The shape of the fused result and the bookkeeping of [used_indices]. *)
Lemma fuse_frame :
  forall result stored result' used,
    fuse result stored = Return (result', used) ->
    (result' = result /\ used = []
     /\ negb (truthy result && negb (is_nil stored)) = true)
    \/ (exists items items',
           py_iter result = Return items
           /\ fuse_records stored [] items = Return (items', used)
           /\ result' = match result with PList _ => PList items' | _ => result end).
Proof.
  intros result stored result' used H. unfold fuse in H.
  fold (is_nil stored) in H.
  destruct (truthy result && negb (is_nil stored)).
  - right.
    destruct (py_iter result) as [ items | ex ]; cbn [bind] in H;
      [ | discriminate H ].
    destruct (fuse_records stored [] items) as [ [items' used1] | ex ] eqn:R;
      cbn [bind] in H; [ | discriminate H ].
    apply Return_inj in H. exists items, items'.
    split; [ reflexivity | ]. split; [ rewrite R | ]; congruence.
  - left. apply Return_inj in H. split; [ congruence | ].
    split; [ congruence | reflexivity ].
Qed.

Lemma fuse_keeps_records :
  forall result stored result' used,
    fuse result stored = Return (result', used) ->
    match result with
    | PList l => exists l', result' = PList l' /\ Forall2 record_enriched l l'
    | _ => result' = result
    end.
Proof.
  intros result stored result' used H.
  assert (C0 : consumed_once (length stored) []).
  { split; [ constructor | intros i [] ]. }
  destruct (fuse_frame _ _ _ _ H) as [ [E _] | [items [items' [I [R E]]]] ].
  - subst result'. destruct result as [ | | | | | l | ]; try reflexivity.
    exists l. split; [ reflexivity | ].
    clear. induction l; constructor; [ apply record_enriched_refl | assumption ].
  - destruct (fuse_records_frame _ _ _ _ _ R C0) as [F _].
    destruct result as [ | | | | | l | ]; try exact E.
    cbn [py_iter] in I. apply Return_inj in I. subst items.
    exists items'. split; [ exact E | exact F ].
Qed.

(** C8 (amended).  Fusion returns the records of the parser's list in the
    same order, none added and none dropped: each is the record it was with
    fields filled.  A field that holds a non-empty value keeps it; a field
    that is absent, null or empty (what the source tests with
    [not r.get(k)]) may be assigned, and only url, image_url, description
    and highlights ever are.
    Every index put into [used_indices] is put there once, so a secondary
    entry is consumed by at most one record. *)
Theorem fusion_only_fills_missing_fields :
  forall (result : pyval) (stored_exa_results : list pdict)
         (result' : pyval) (used_indices : list nat),
    fuse result stored_exa_results = Return (result', used_indices) ->
    (forall l, result = PList l ->
               exists l', result' = PList l' /\ Forall2 record_enriched l l')
    /\ ((forall l, result <> PList l) -> result' = result)
    /\ consumed_once (length stored_exa_results) used_indices.
Proof.
  intros result stored result' used H.
  pose proof (fuse_keeps_records _ _ _ _ H) as K.
  split; [ | split ].
  - intros l ->. exact K.
  - intro Hnl. destruct result; try exact K. exfalso. eapply Hnl. reflexivity.
  - assert (C0 : consumed_once (length stored) []).
    { split; [ constructor | intros i [] ]. }
    destruct (fuse_frame _ _ _ _ H) as [ [_ [-> _]] | [items [items' [_ [R _]]]] ].
    + exact C0.
    + exact (proj2 (fuse_records_frame _ _ _ _ _ R C0)).
Qed.

Lemma titles_match_similar :
  forall title t, titles_match title (PStr t) = Return (similar title t).
Proof.
  intros title t. unfold titles_match, similar, py_or.
  destruct t as [ | c t ]; [ reflexivity | ].
  cbn [truthy is_empty negb py_lower bind].
  destruct (is_empty (lower (c :: t))); cbn [negb andb]; [ reflexivity | ].
  destruct (contains (lower (c :: t)) title || contains title (lower (c :: t)));
    reflexivity.
Qed.

Lemma first_pass_spec :
  forall title entries d used i0 d1 used1,
    first_pass title d used i0 entries = Return (d1, used1) ->
    (exists j e,
        nth_error entries j = Some e /\ is_used used (i0 + j) = false
        /\ titles_match title (exa_title_of e) = Return true
        /\ (forall j' e', (j' < j)%nat -> nth_error entries j' = Some e' ->
                          is_used used (i0 + j') = false ->
                          titles_match title (exa_title_of e') = Return false)
        /\ enrich d e = Return d1 /\ used1 = used ++ [(i0 + j)%nat])
    \/ ((forall j e', nth_error entries j = Some e' ->
                      is_used used (i0 + j) = false ->
                      titles_match title (exa_title_of e') = Return false)
        /\ d1 = d /\ used1 = used).
Proof.
  intros title. induction entries as [ | e rest IH ]; intros d used i0 d1 used1 H.
  - apply Return_inj in H. injection H as <- <-. right.
    split; [ intros [ | j ] e' Hn; discriminate Hn | split; reflexivity ].
  - cbn [first_pass] in H.
    assert (Hshift :
              first_pass title d used (S i0) rest = Return (d1, used1) ->
              (is_used used i0 = false ->
               titles_match title (exa_title_of e) = Return false) ->
              (exists j e0,
                  nth_error (e :: rest) j = Some e0 /\ is_used used (i0 + j) = false
                  /\ titles_match title (exa_title_of e0) = Return true
                  /\ (forall j' e', (j' < j)%nat -> nth_error (e :: rest) j' = Some e' ->
                                    is_used used (i0 + j') = false ->
                                    titles_match title (exa_title_of e') = Return false)
                  /\ enrich d e0 = Return d1 /\ used1 = used ++ [(i0 + j)%nat])
              \/ ((forall j e', nth_error (e :: rest) j = Some e' ->
                                is_used used (i0 + j) = false ->
                                titles_match title (exa_title_of e') = Return false)
                  /\ d1 = d /\ used1 = used)).
    { intros Hrest Hhead.
      destruct (IH _ _ _ _ _ Hrest) as [ [j [e0 [A [B [C [D [E F]]]]]]] | [A [B C]] ].
      - left. exists (S j), e0.
        replace (i0 + S j)%nat with (S i0 + j)%nat by lia.
        repeat split; try assumption.
        intros [ | j' ] e' Hlt Hn Hu.
        + injection Hn as <-. apply Hhead. rewrite Nat.add_0_r in Hu. exact Hu.
        + apply (D j' e'); [ lia | exact Hn | ].
          replace (S i0 + j')%nat with (i0 + S j')%nat by lia. exact Hu.
      - right. split; [ | split; assumption ].
        intros [ | j ] e' Hn Hu.
        + injection Hn as <-. apply Hhead. rewrite Nat.add_0_r in Hu. exact Hu.
        + apply (A j e' Hn).
          replace (S i0 + j)%nat with (i0 + S j)%nat by lia. exact Hu. }
    destruct (is_used used i0) eqn:U.
    + apply Hshift; [ exact H | discriminate ].
    + destruct (titles_match title (exa_title_of e)) as [ [ | ] | ex ] eqn:M;
        cbn [bind] in H; try discriminate H.
      * destruct (enrich d e) as [ d2 | ex ] eqn:E; cbn [bind] in H;
          [ | discriminate H ].
        apply Return_inj in H. injection H as <- <-.
        left. exists 0%nat, e. rewrite Nat.add_0_r.
        repeat split; try assumption; try reflexivity.
        intros j' e' Hlt. lia.
      * apply Hshift; [ exact H | reflexivity ].
Qed.

Lemma second_pass_spec :
  forall entries d used i0 d1 used1,
    second_pass d used i0 entries = Return (d1, used1) ->
    (exists j e,
        nth_error entries j = Some e /\ is_used used (i0 + j) = false
        /\ (forall j', (j' < j)%nat -> is_used used (i0 + j') = true)
        /\ enrich d e = Return d1 /\ used1 = used ++ [(i0 + j)%nat])
    \/ ((forall j, (j < length entries)%nat -> is_used used (i0 + j) = true)
        /\ d1 = d /\ used1 = used).
Proof.
  induction entries as [ | e rest IH ]; intros d used i0 d1 used1 H.
  - apply Return_inj in H. injection H as <- <-. right.
    split; [ intros j Hj; simpl in Hj; lia | split; reflexivity ].
  - cbn [second_pass] in H. destruct (is_used used i0) eqn:U.
    + destruct (IH _ _ _ _ _ H) as [ [j [e0 [A [B [C [D E]]]]]] | [A [B C]] ].
      * left. exists (S j), e0.
        replace (i0 + S j)%nat with (S i0 + j)%nat by lia.
        repeat split; try assumption.
        intros [ | j' ] Hlt; [ rewrite Nat.add_0_r; exact U | ].
        replace (i0 + S j')%nat with (S i0 + j')%nat by lia. apply C. lia.
      * right. split; [ | split; assumption ].
        intros [ | j ] Hj; [ rewrite Nat.add_0_r; exact U | ].
        replace (i0 + S j)%nat with (S i0 + j)%nat by lia. apply A.
        simpl in Hj. lia.
    + destruct (enrich d e) as [ d2 | ex ] eqn:E; cbn [bind] in H;
        [ | discriminate H ].
      apply Return_inj in H. injection H as <- <-.
      left. exists 0%nat, e. rewrite Nat.add_0_r.
      repeat split; try assumption; try reflexivity.
      intros j' Hlt. lia.
Qed.

Lemma py_get_set_same :
  forall d k v, py_get (dict_set d k v) k = v.
Proof. intros d k v. unfold py_get. rewrite dict_get_set_same. reflexivity. Qed.

Lemma py_get_set_other :
  forall d k v k', k <> k' -> py_get (dict_set d k v) k' = py_get d k'.
Proof.
  intros d k v k' H. unfold py_get. rewrite dict_get_set_other by exact H.
  reflexivity.
Qed.

Lemma py_get_guarded_other :
  forall (c : bool) d k v k', k <> k' ->
    py_get (if c then dict_set d k v else d) k' = py_get d k'.
Proof.
  intros [ | ] d k v k' H; [ apply py_get_set_other; exact H | reflexivity ].
Qed.

Lemma enrich_steps :
  forall d e d',
    enrich d e = Return d' ->
    exists d1 d2 d3,
      d1 = (if negb (truthy (py_get d k_url)) && truthy (py_get e k_url)
            then dict_set d k_url (py_get e k_url) else d)
      /\ d2 = (if negb (truthy (py_get d1 k_image_url))
                  && truthy (py_get e k_image_url)
               then dict_set d1 k_image_url (py_get e k_image_url) else d1)
      /\ (if negb (truthy (py_get d2 k_description))
          then cleaned <- clean_exa_value
                            (py_or (py_get e k_description) (py_get e (py "text"))) ;;
               Return match cleaned with
                      | Some c => dict_set d2 k_description (PStr c)
                      | None => d2
                      end
          else Return d2) = Return d3
      /\ (forall k, k <> k_highlights -> py_get d' k = py_get d3 k).
Proof.
  intros d e d' H. unfold enrich in H.
  match type of H with
  | bind ?m _ = _ => destruct m as [ d3 | ex ] eqn:E3; [ | discriminate H ]
  end.
  cbn [bind] in H. eexists _, _, d3.
  split; [ reflexivity | ]. split; [ reflexivity | ]. split; [ exact E3 | ].
  intros k Hk. destruct (negb (truthy (py_get d3 k_highlights))).
  - destruct (extract_highlights_value _) as [ [ hs | ] | ex ]; cbn [bind] in H;
      try discriminate H; apply Return_inj in H; subst d'.
    + apply py_get_set_other. congruence.
    + reflexivity.
  - apply Return_inj in H. subst d'. reflexivity.
Qed.

Lemma enrich_filled :
  forall d e d', enrich d e = Return d' -> filled_from d e d'.
Proof.
  intros d e d' H.
  destruct (enrich_steps d e d' H) as [d1 [d2 [d3 [E1 [E2 [E3 E4]]]]]].
  assert (K3 : forall k, k <> k_description -> py_get d3 k = py_get d2 k).
  { intros k Hk. destruct (negb (truthy (py_get d2 k_description))).
    - destruct (clean_exa_value _) as [ [ c | ] | ex ]; cbn [bind] in E3;
        try discriminate E3; apply Return_inj in E3; subst d3.
      + apply py_get_set_other. congruence.
      + reflexivity.
    - apply Return_inj in E3. subst d3. reflexivity. }
  assert (K2 : forall k, k <> k_image_url -> py_get d2 k = py_get d1 k).
  { intros k Hk. rewrite E2. apply py_get_guarded_other. congruence. }
  assert (K1 : forall k, k <> k_url -> py_get d1 k = py_get d k).
  { intros k Hk. rewrite E1. apply py_get_guarded_other. congruence. }
  repeat split.
  - intros Hd He. rewrite E4, K3, K2 by discriminate.
    rewrite E1, Hd, He. cbn [negb andb]. apply py_get_set_same.
  - intros Hd He. rewrite E4, K3 by discriminate.
    rewrite E2, (K1 k_image_url), Hd, He by discriminate. cbn [negb andb].
    apply py_get_set_same.
  - intros Hd c Hc. rewrite E4 by discriminate.
    rewrite (K2 k_description), (K1 k_description), Hd in E3 by discriminate.
    cbn [negb] in E3. rewrite Hc in E3. cbn [bind] in E3.
    apply Return_inj in E3. subst d3. apply py_get_set_same.
Qed.

(** C7 (amended).  For a record, with [title] its lower-cased title:
    if url or image_url is missing, the first pass takes the first entry not
    yet used whose title is not empty and contains [title], is contained in
    it, or shares two words longer than three characters with it, fills the
    record's missing url, image_url and description from it, changing no
    field that is set and none besides these three and highlights, and
    marks it used; the second pass runs whenever url or image_url is still
    missing after the first pass, whether or not the first pass found a
    match, and does the same with the first entry not yet used, whatever its
    title.  Either pass leaves the record alone when it finds no entry.
    (Titles are compared lower-cased, as [str.lower] does it.) *)
Theorem fusion_two_passes :
  (forall (stored : list pdict) (used : list nat) (d d' : pdict)
          (used' : list nat),
      fuse_record stored used (PDict d) = Return (PDict d', used') ->
      exists title d1 used1,
        py_lower (py_or (py_get d k_title) (PStr [])) = Return title
        /\ (if missing_link d
            then (exists i e, first_match title used stored i e
                              /\ enrich d e = Return d1 /\ used1 = used ++ [i])
                 \/ (no_match title used stored /\ d1 = d /\ used1 = used)
            else d1 = d /\ used1 = used)
        /\ (if missing_link d1
            then (exists i e, first_unused used1 stored i e
                              /\ enrich d1 e = Return d' /\ used' = used1 ++ [i])
                 \/ (none_unused used1 stored /\ d' = d1 /\ used' = used1)
            else d' = d1 /\ used' = used1))
  /\ (forall d e d', enrich d e = Return d' ->
                     enriches d d' /\ filled_from d e d')
  /\ (forall title t, titles_match title (PStr t) = Return (similar title t)).
Proof.
  split; [ | split ].
  - intros stored used d d' used' H. unfold fuse_record in H.
    cbn [as_dict bind] in H.
    destruct (py_lower _) as [ title | ex ] eqn:T; cbn [bind] in H;
      [ | discriminate H ].
    destruct (if missing_link d then _ else _) as [ [d1 used1] | ex ] eqn:P1;
      cbn [bind] in H; [ | discriminate H ].
    destruct (if missing_link d1 then _ else _) as [ [d2 used2] | ex ] eqn:P2;
      cbn [bind] in H; [ | discriminate H ].
    apply Return_inj in H. injection H as <- <-.
    exists title, d1, used1. split; [ reflexivity | ]. split.
    + destruct (missing_link d).
      * destruct (first_pass_spec _ _ _ _ _ _ _ P1)
          as [ [j [e [A [B [C [D [E F]]]]]]] | [A [B C]] ].
        -- left. exists j, e. split; [ | split; assumption ].
           repeat split; assumption.
        -- right. split; [ exact A | split; assumption ].
      * apply Return_inj in P1. injection P1 as <- <-. split; reflexivity.
    + destruct (missing_link d1).
      * destruct (second_pass_spec _ _ _ _ _ _ P2)
          as [ [j [e [A [B [C [D E]]]]]] | [A [B C]] ].
        -- left. exists j, e. split; [ | split; assumption ].
           repeat split; assumption.
        -- right. split; [ exact A | split; assumption ].
      * apply Return_inj in P2. injection P2 as <- <-. split; reflexivity.
  - intros d e d' H. split; [ exact (enrich_enriches d e d' H) | exact (enrich_filled d e d' H) ].
  - exact titles_match_similar.
Qed.

(* ---------- fusion returns on records and entries made of texts ---------- *)

Lemma titles_match_returns :
  forall title v, text_or_none v = true -> exists b, titles_match title v = Return b.
Proof.
  intros title v H. unfold titles_match, py_or.
  destruct v as [ | | | | s | | ]; try discriminate H; cbn [truthy].
  - eexists. reflexivity.
  - destruct (negb (is_empty s)); cbn [py_lower bind].
    + destruct (is_empty (lower s)); [ eexists; reflexivity | ].
      destruct (contains (lower s) title || contains title (lower s));
        eexists; reflexivity.
    + eexists. reflexivity.
Qed.

Lemma enrich_returns :
  forall d e, plain_entry e -> exists d', enrich d e = Return d'.
Proof.
  intros d e [_ [Hd Ht]]. unfold enrich.
  assert (T : py_get e (py "text") = PNone) by (unfold py_get; rewrite Ht; reflexivity).
  rewrite T.
  assert (C : exists c, clean_exa_value (py_or (py_get e k_description) PNone) = Return c).
  { unfold py_or, clean_exa_value.
    destruct (py_get e k_description) as [ | | | | s | | ]; try discriminate Hd;
      cbn [truthy negb].
    - eexists. reflexivity.
    - destruct (negb (is_empty s)) eqn:E; cbn [truthy]; [ rewrite E | ];
        eexists; reflexivity. }
  destruct C as [c Hc]. rewrite Hc. cbn [bind py_or truthy].
  match goal with
  | |- context [ bind ?m _ ] => destruct m as [ d3 | ex ] eqn:E3
  end.
  - cbn [bind]. destruct (negb (truthy (py_get d3 k_highlights)));
      eexists; reflexivity.
  - exfalso. destruct (negb (truthy (py_get _ k_description))); discriminate E3.
Qed.

Lemma first_pass_returns :
  forall title entries d used i0,
    Forall plain_entry entries ->
    exists r, first_pass title d used i0 entries = Return r.
Proof.
  intros title. induction entries as [ | e rest IH ]; intros d used i0 H.
  - eexists. reflexivity.
  - inversion H as [ | ? ? He Hrest ]; subst. cbn [first_pass].
    destruct (is_used used i0); [ apply IH; exact Hrest | ].
    destruct (titles_match_returns title (exa_title_of e) (proj1 He)) as [b Hb].
    rewrite Hb. cbn [bind]. destruct b; [ | apply IH; exact Hrest ].
    destruct (enrich_returns d e He) as [d' Hd]. rewrite Hd. eexists. reflexivity.
Qed.

Lemma second_pass_returns :
  forall entries d used i0,
    Forall plain_entry entries ->
    exists r, second_pass d used i0 entries = Return r.
Proof.
  induction entries as [ | e rest IH ]; intros d used i0 H.
  - eexists. reflexivity.
  - inversion H as [ | ? ? He Hrest ]; subst. cbn [second_pass].
    destruct (is_used used i0); [ apply IH; exact Hrest | ].
    destruct (enrich_returns d e He) as [d' Hd]. rewrite Hd. eexists. reflexivity.
Qed.

Lemma fuse_record_returns :
  forall stored used v,
    Forall plain_entry stored -> plain_record v ->
    exists v' used', fuse_record stored used v = Return (v', used')
                     /\ plain_record v'.
Proof.
  intros stored used v Hs [d [-> Ht]].
  assert (L : exists title, py_lower (py_or (py_get d k_title) (PStr [])) = Return title).
  { unfold py_or. destruct (py_get d k_title) as [ | | | | s | | ];
      try discriminate Ht; cbn [truthy].
    - eexists. reflexivity.
    - destruct (negb (is_empty s)); eexists; reflexivity. }
  destruct L as [title Hl].
  assert (P1 : exists r, (if missing_link d
                          then first_pass title d used 0 stored
                          else Return (d, used)) = Return r).
  { destruct (missing_link d); [ apply first_pass_returns; exact Hs | eexists; reflexivity ]. }
  destruct P1 as [[d1 used1] H1].
  assert (P2 : exists r, (if missing_link d1
                          then second_pass d1 used1 0 stored
                          else Return (d1, used1)) = Return r).
  { destruct (missing_link d1); [ apply second_pass_returns; exact Hs | eexists; reflexivity ]. }
  destruct P2 as [[d2 used2] H2].
  assert (F : fuse_record stored used (PDict d) = Return (PDict d2, used2)).
  { unfold fuse_record. cbn [as_dict bind]. rewrite Hl. cbn [bind].
    destruct (if missing_link d then _ else _) as [ [x y] | ex ];
      [ | discriminate H1 ].
    apply Return_inj in H1. injection H1 as -> ->. cbn [bind].
    destruct (if missing_link d1 then _ else _) as [ [x y] | ex ];
      [ | discriminate H2 ].
    apply Return_inj in H2. injection H2 as -> ->. reflexivity. }
  exists (PDict d2), used2. split; [ exact F | ].
  exists d2. split; [ reflexivity | ].
  assert (C0 : consumed_once (length stored) []).
  { split; [ constructor | intros i [] ]. }
  assert (E : enriches d d2).
  { assert (E1 : enriches d d1).
    { destruct (missing_link d).
      - destruct (first_pass_spec _ _ _ _ _ _ _ H1)
          as [ [j [e [_ [_ [_ [_ [E _]]]]]]] | [_ [-> _]] ];
          [ exact (enrich_enriches _ _ _ E) | apply enriches_refl ].
      - apply Return_inj in H1. injection H1 as <- <-. apply enriches_refl. }
    assert (E2 : enriches d1 d2).
    { destruct (missing_link d1).
      - destruct (second_pass_spec _ _ _ _ _ _ H2)
          as [ [j [e [_ [_ [_ [E _]]]]]] | [_ [-> _]] ];
          [ exact (enrich_enriches _ _ _ E) | apply enriches_refl ].
      - apply Return_inj in H2. injection H2 as <- <-. apply enriches_refl. }
    exact (enriches_trans _ _ _ E1 E2). }
  unfold py_get in *. rewrite (E k_title); [ exact Ht | ].
  right. unfold fusion_keys. intros [X | [X | [X | [X | []]]]]; discriminate X.
Qed.

Lemma fuse_records_returns :
  forall stored items used,
    Forall plain_entry stored -> Forall plain_record items ->
    exists items' used', fuse_records stored used items = Return (items', used').
Proof.
  intros stored. induction items as [ | v rest IH ]; intros used Hs Hi.
  - eexists _, _. reflexivity.
  - inversion Hi as [ | ? ? Hv Hrest ]; subst. cbn [fuse_records].
    destruct (fuse_record_returns stored used v Hs Hv) as [v' [used1 [H1 _]]].
    rewrite H1. cbn [bind].
    destruct (IH used1 Hs Hrest) as [rest' [used2 H2]].
    rewrite H2. cbn [bind]. eexists _, _. reflexivity.
Qed.

Lemma fuse_returns :
  forall l stored,
    Forall plain_record l -> Forall plain_entry stored ->
    exists result' used, fuse (PList l) stored = Return (result', used).
Proof.
  intros l stored Hl Hs. unfold fuse.
  destruct (truthy (PList l) && negb (is_nil stored)); [ | eexists _, _; reflexivity ].
  cbn [py_iter bind].
  destruct (fuse_records_returns stored l [] Hs Hl) as [items' [used H]].
  rewrite H. cbn [bind]. eexists _, _. reflexivity.
Qed.

Lemma store_exa_plain_text :
  forall res e, store_exa res = Return e -> dict_get e (py "text") = None.
Proof.
  intros res e H. unfold store_exa in H.
  destruct (as_dict "get" res) as [ r | ex ]; cbn [bind] in H; [ | discriminate H ].
  apply Return_inj in H. subst e. reflexivity.
Qed.

Lemma stored_entries_give_no_highlights :
  forall res e d d',
    store_exa res = Return e -> enrich d e = Return d' ->
    dict_get d' k_highlights = dict_get d k_highlights.
Proof.
  intros res e d d' Hs He.
  pose proof (store_exa_plain_text res e Hs) as Ht.
  assert (T : py_get e (py "text") = PNone) by (unfold py_get; rewrite Ht; reflexivity).
  unfold enrich in He. rewrite T in He.
  match type of He with
  | bind ?m _ = _ => destruct m as [ d3 | ex ] eqn:E3; [ | discriminate He ]
  end.
  cbn [bind py_or truthy extract_highlights_value negb is_empty] in He.
  assert (E : d' = d3).
  { destruct (negb (truthy (py_get d3 k_highlights)));
      apply Return_inj in He; congruence. }
  subst d3. clear He.
  destruct (negb (truthy (py_get _ k_description))).
  - destruct (clean_exa_value _) as [ [ c | ] | ex ]; cbn [bind] in E3;
      try discriminate E3; apply Return_inj in E3; subst d'.
    + rewrite dict_get_set_other by discriminate.
      destruct (negb _ && _); [ rewrite dict_get_set_other by discriminate | ];
        (destruct (negb _ && _); [ rewrite dict_get_set_other by discriminate | ];
         reflexivity).
    + destruct (negb _ && _); [ rewrite dict_get_set_other by discriminate | ];
        (destruct (negb _ && _); [ rewrite dict_get_set_other by discriminate | ];
         reflexivity).
  - apply Return_inj in E3. subst d'.
    destruct (negb _ && _); [ rewrite dict_get_set_other by discriminate | ];
      (destruct (negb _ && _); [ rewrite dict_get_set_other by discriminate | ];
       reflexivity).
Qed.

(* ---------- titles survive fusion ---------- *)

Lemma record_enriched_titled :
  forall v v', record_enriched v v' -> record_titled v = true -> record_titled v' = true.
Proof.
  intros v v' H T. destruct v as [ | | | | | | d ]; try discriminate T.
  destruct v' as [ | | | | | | d' ]; try discriminate H.
  cbn [record_enriched] in H. unfold record_titled in *.
  rewrite (H k_title); [ exact T | ]. right. unfold fusion_keys.
  intros [E | [E | [E | [E | []]]]]; discriminate E.
Qed.

Lemma parse_response_titled :
  forall (json_loads : str -> json_result) (response : completion),
    (forall msg rest text v,
        choices response = msg :: rest -> content msg = Some text ->
        json_attempt json_loads text <> Return (Some v)) ->
    forallb record_titled (records_of (parse_response json_loads response)) = true.
Proof.
  intros json_loads response Hjson.
  unfold parse_response, parse_response_body.
  destruct (choices response) as [ | msg rest ] eqn:C; [ reflexivity | ].
  destruct (content msg) as [ [ | c text ] | ] eqn:M; try reflexivity.
  destruct (json_attempt json_loads (c :: text)) as [ [ v | ] | e ] eqn:E.
  - exfalso. exact (Hjson msg rest (c :: text) v eq_refl M E).
  - cbn [bind].
    destruct (parse_text (c :: text)) as [ rs | e ] eqn:P; [ | reflexivity ].
    cbn [bind records_of]. apply forallb_forall. intros r Hr.
    apply in_map_iff in Hr. destruct Hr as [d [<- Hd]].
    pose proof (parse_text_titled _ _ P) as T.
    unfold all_records_titled in T. rewrite Forall_forall in T. apply T. exact Hd.
  - reflexivity.
Qed.

(** C1 (amended).  Whenever the embedded-JSON attempt does not return a
    structure, every record that [parse_response] returns has a non-empty
    title, whichever of the labeled scan, the numbered-section fallback and
    the single-record fallback produced it, and so has every record of the
    result list that the single attempt returns after fusion.  (Records
    returned by the embedded-JSON path are the decoded values as they
    are.) *)
Theorem text_paths_yield_titled_records :
  forall (json_loads : str -> json_result) (response : completion),
    (forall msg rest text v,
        choices response = msg :: rest -> content msg = Some text ->
        json_attempt json_loads text <> Return (Some v)) ->
    forallb record_titled (records_of (parse_response json_loads response)) = true
    /\ (forall env,
           reconcile json_loads response = Return env ->
           forallb record_titled (records_of (results env)) = true).
Proof.
  intros json_loads response Hjson.
  pose proof (parse_response_titled json_loads response Hjson) as P.
  split; [ exact P | ].
  intros env H. unfold reconcile in H.
  destruct (stored_results _) as [ stored | ex ]; cbn [bind] in H;
    [ | discriminate H ].
  destruct (fuse _ stored) as [ [result' used] | ex ] eqn:F; cbn [bind] in H;
    [ | discriminate H ].
  destruct (debug_report result') as [ [] | ex ]; cbn [bind] in H;
    [ | discriminate H ].
  apply Return_inj in H. subst env. cbn [results].
  pose proof (fuse_keeps_records _ _ _ _ F) as K.
  destruct (parse_response json_loads response) as [ | | | | | l | ] eqn:R;
    try (rewrite K; reflexivity).
  destruct K as [l' [-> Hl]]. cbn [records_of] in *.
  clear - P Hl. induction Hl as [ | v v' l l' Hv Hl IH ]; [ reflexivity | ].
  cbn [forallb] in *. apply andb_true_iff in P. destruct P as [P1 P2].
  rewrite (record_enriched_titled v v' Hv P1). apply IH. exact P2.
Qed.

(* ---------- concrete fusions ---------- *)

(** C7 as stated fails.  The first pass finds a match for this record
    (entry 0, which has a url and no image) and the second pass still runs,
    consuming entry 1 for its image.  And an entry without title is passed
    over by the first pass although the empty text is contained in the
    record's title: with such an entry stored first, the record is filled
    from the entry after it. *)
Lemma second_pass_runs_after_a_match :
  (first_pass (py "trail shoe") shoe_record [] 0 shoe_stored
   = Return ([(py "title", PStr (py "Trail Shoe"));
              (py "url", PStr (py "http://s.example/0"))], [0%nat])
   /\ fuse_record shoe_stored [] (PDict shoe_record)
      = Return (PDict [(py "title", PStr (py "Trail Shoe"));
                       (py "url", PStr (py "http://s.example/0"));
                       (py "image_url", PStr (py "http://s.example/1.png"))],
                [0%nat; 1%nat]))
  /\ (contains (py "trail shoe") (lower []) = true
      /\ first_pass (py "trail shoe") shoe_record [] 0
           ([(py "title", PStr []); (py "url", PStr (py "http://s.example/e"))]
              :: shoe_stored)
         = Return ([(py "title", PStr (py "Trail Shoe"));
                    (py "url", PStr (py "http://s.example/0"))], [1%nat])).
Proof. repeat split; vm_compute; reflexivity. Qed.

(** C8 as stated fails: the record of the single fallback holds the key url
    with the empty text, and fusion overwrites it with the url of a stored
    entry. *)
Lemma fusion_overwrites_an_empty_url :
  parse_response json_loads_ref (reply (py "Try the Trail Shoe"))
  = PList [PDict [(py "title", PStr (py "Product Recommendation"));
                  (py "description", PStr (py "Try the Trail Shoe"));
                  (py "url", PStr []);
                  (py "relevance", PFloat (FDec 1 0))]]
  /\ fuse (parse_response json_loads_ref (reply (py "Try the Trail Shoe")))
          shoe_stored
     = Return (PList [PDict [(py "title", PStr (py "Product Recommendation"));
                             (py "description", PStr (py "Try the Trail Shoe"));
                             (py "url", PStr (py "http://s.example/0"));
                             (py "relevance", PFloat (FDec 1 0))]],
               [0%nat]).
Proof. split; vm_compute; reflexivity. Qed.

Lemma fusion_two_passes_witness :
  exists title d1 used1,
    py_lower (py_or (py_get shoe_record k_title) (PStr [])) = Return title
    /\ ((exists i e, first_match title [] shoe_stored i e
                     /\ enrich shoe_record e = Return d1 /\ used1 = [] ++ [i])
        \/ (no_match title [] shoe_stored /\ d1 = shoe_record /\ used1 = []))
    /\ missing_link d1 = true.
Proof.
  destruct fusion_two_passes as [H _].
  destruct (H shoe_stored [] shoe_record
              [(py "title", PStr (py "Trail Shoe"));
               (py "url", PStr (py "http://s.example/0"));
               (py "image_url", PStr (py "http://s.example/1.png"))]
              [0%nat; 1%nat])
    as [title [d1 [used1 [T [P1 P2]]]]].
  - vm_compute. reflexivity.
  - exists title, d1, used1. split; [ exact T | ]. split; [ exact P1 | ].
    destruct (missing_link d1) eqn:M; [ reflexivity | ].
    destruct P2 as [E1 E2]. destruct P1 as [ [i [e [_ [_ U]]]] | [_ [_ U]] ].
    + rewrite U in E2. destruct i as [ | [ | i ] ]; discriminate E2.
    + rewrite U in E2. discriminate E2.
Defined.

Lemma fusion_only_fills_missing_fields_witness :
  match fuse (PList [PDict shoe_record;
                     PDict [(py "title", PStr (py "Umbrella"));
                            (py "url", PStr (py "http://own.example"))]])
             shoe_stored with
  | Return (_, used_indices) => consumed_once 2 used_indices
  | Raise _ => False
  end.
Proof.
  destruct (fuse _ shoe_stored) as [ [result' used] | ex ] eqn:F.
  - exact (proj2 (proj2 (fusion_only_fills_missing_fields _ _ _ _ F))).
  - vm_compute in F. discriminate F.
Defined.

Lemma text_paths_yield_titled_records_witness :
  reconcile json_loads_ref example_response
  = Return
      {| success := true;
         results :=
           PList
             [PDict [(py "title", PStr (py "Trail Shoe"));
                     (py "url", PStr (py "http://hat.example"));
                     (py "image_url", PStr (py "http://s.example/0.png"));
                     (py "description", PStr (py "Great shoe for trails"))];
              PDict [(py "title", PStr (py "Umbrella"));
                     (py "url", PStr (py "http://s.example/1"));
                     (py "description", PStr (py "Keeps you dry."));
                     (py "image_url", PStr (py "http://s.example/fav.ico"))];
              PDict [(py "title", PStr (py "Hat"));
                     (py "url", PStr (py "http://hat.example"))]];
         error := None |}
  /\ forallb record_titled
       (records_of (parse_response json_loads_ref example_response)) = true
  /\ (forall env, reconcile json_loads_ref example_response = Return env ->
                  forallb record_titled (records_of (results env)) = true).
Proof.
  split; [ vm_compute; reflexivity | ].
  apply (text_paths_yield_titled_records json_loads_ref example_response).
  intros msg rest text v C M.
  injection C as <- <-. injection M as <-. vm_compute. discriminate.
Defined.

(* ================================================================== *)
(** * Text Normalizer: shape of the output *)
(* ================================================================== *)

Lemma slice_to_is_firstn :
  forall n s, slice_to n s = firstn (slice_index n s) s.
Proof. reflexivity. Qed.

(** The three shapes of a cleaner output, for the scrubbed text [s5]. *)
Lemma clean_cases :
  forall M text s,
    clean_exa_text_len M text = Some s ->
    exists s5, tidy s5
      /\ (s = s5 /\ len s5 <= M
          \/ (len s5 > M
              /\ exists k, k = slice_index M s5
              /\ (let truncated := firstn k s5 in
                  (exists a b, truncated = a ++ 46%N :: b /\ s = a ++ [46%N]
                               /\ (120 < Z.of_nat (length a)))
                  \/ s = strip truncated ++ [ellipsis]))).
Proof.
  intros M text s Hout.
  destruct text as [ text | ]; [ | discriminate Hout ].
  unfold clean_exa_text_len in Hout.
  destruct (is_empty text); [ discriminate Hout | ].
  set (x := re_sub pat_md_link (fun g => g) text) in Hout.
  destruct (scrub_tidy x) as [E | T].
  { rewrite E in Hout. discriminate Hout. }
  remember (scrub x) as s5 eqn:Es5.
  assert (Hs5 : is_empty s5 = false).
  { pose proof (spaced_ok_nonempty s5 (proj2 (proj2 (proj2 T)))).
    destruct s5; [ contradiction | reflexivity ]. }
  rewrite Hs5 in Hout. exists s5. split; [ exact T | ].
  destruct (len s5 >? M) eqn:Elen.
  - right. apply Z.gtb_lt in Elen. split; [ lia | ].
    exists (slice_index M s5). split; [ reflexivity | ].
    rewrite (slice_to_is_firstn M s5) in Hout.
    set (truncated := firstn (slice_index M s5) s5) in *.
    destruct (rfind truncated (py ".") >? 120) eqn:Ep.
    + left. apply Z.gtb_lt in Ep.
      destruct (rfind_period truncated ltac:(lia)) as [a [b [Ea La]]].
      exists a, b. split; [ exact Ea | ]. split; [ | lia ].
      rewrite slice_to_firstn in Hout by lia.
      injection Hout as <-. rewrite Ea.
      replace (Z.to_nat (rfind (a ++ 46%N :: b) (py ".") + 1))
        with (length a + 1)%nat by (rewrite <- Ea; lia).
      rewrite firstn_app, firstn_all2 by lia.
      replace (length a + 1 - length a)%nat with 1%nat by lia. reflexivity.
    + right. injection Hout as <-. reflexivity.
  - left. injection Hout as <-. split; [ reflexivity | ].
    rewrite Z.gtb_ltb in Elen. apply Z.ltb_ge in Elen. exact Elen.
Qed.

(** X1.  Whatever the text and the length limit, a text returned by
    [clean_exa_text] holds no heading mark [#], no emphasis mark [*] and no
    escaped newline (a backslash followed by n), and its whitespace is in
    normal form: single blanks only, none at the start or at the end. *)
Theorem cleaner_output_is_tidy :
  forall (max_length : Z) (text : option str) (s : str),
    clean_exa_text_len max_length text = Some s -> tidy s.
Proof.
  intros M text s H.
  destruct (clean_cases M text s H) as [s5 [T [[E _] | [_ [k [_ [[a [b [Ea [Es _]]]] | Es]]]]]]].
  - subst s. exact T.
  - rewrite Es. apply (tidy_prefix_period s5 a (b ++ skipn k s5) T).
    rewrite <- (firstn_skipn k s5) at 1. rewrite Ea, <- app_assoc. reflexivity.
  - rewrite Es. apply tidy_prefix_ellipsis. exact T.
Qed.

Lemma slice_index_bound :
  forall M s, 0 <= M -> Z.of_nat (slice_index M s) <= M.
Proof.
  intros M s HM. unfold slice_index.
  replace (M <? 0) with false by (symmetry; apply Z.ltb_ge; lia).
  lia.
Qed.

(** X2.  For a non-negative [max_length], a text returned by
    [clean_exa_text] is never empty and is at most [max_length] characters
    long, or it is a text of at most [max_length] characters followed by the
    one-character ellipsis. *)
Theorem cleaner_output_is_bounded :
  forall (max_length : Z) (text : option str) (s : str),
    0 <= max_length ->
    clean_exa_text_len max_length text = Some s ->
    0 < len s
    /\ (len s <= max_length
        \/ exists u, s = u ++ [ellipsis] /\ len u <= max_length).
Proof.
  intros M text s HM H.
  destruct (clean_cases M text s H)
    as [s5 [T [[E L] | [_ [k [Ek [[a [b [Ea [Es _]]]] | Es]]]]]]].
  - subst s. split; [ | left; exact L ].
    pose proof (spaced_ok_nonempty s5 (proj2 (proj2 (proj2 T)))) as N.
    unfold len. destruct s5; [ contradiction | simpl; lia ].
  - pose proof (slice_index_bound M s5 HM) as B. rewrite <- Ek in B.
    pose proof (firstn_le_length k s5) as F1.
    assert (F : (length (firstn k s5) <= k)%nat).
    { rewrite length_firstn. lia. }
    rewrite Ea, length_app in F. simpl in F.
    unfold len. rewrite Es, length_app. simpl. split; [ lia | left; lia ].
  - split.
    + unfold len. rewrite Es, length_app. simpl. lia.
    + right. exists (strip (firstn k s5)). split; [ exact Es | ].
      pose proof (slice_index_bound M s5 HM) as B. rewrite <- Ek in B.
      destruct (strip_prefix_normal s5 k (proj2 (proj2 (proj2 T)))) as [Eu _].
      pose proof (rstrip_by_length isspace (firstn k s5)) as Hu.
      rewrite <- Eu in Hu.
      assert (F : (length (firstn k s5) <= k)%nat).
      { rewrite length_firstn. lia. }
      unfold len. lia.
Qed.

Lemma cleaner_output_is_bounded_witness :
  exists s,
    clean_exa_text (Some (py "a  *b*   # c")) = Some s /\ 0 < len s <= 401.
Proof.
  eexists. split; [ vm_compute; reflexivity | ].
  destruct (cleaner_output_is_bounded 400 (Some (py "a  *b*   # c")) _
              ltac:(lia) ltac:(vm_compute; reflexivity)) as [P _].
  split; [ exact P | vm_compute; discriminate ].
Defined.

(** Blank input *)
Lemma re_search_md_link_none :
  forall s, ~ In (ch "[") s -> re_search pat_md_link s = None.
Proof.
  induction s as [ | c t IH ]; intro H; [ reflexivity | ].
  cbn [re_search]. unfold pat_md_link.
  destruct (char_eqb c (ch "[")) eqn:E.
  - exfalso. apply H. left. apply N.eqb_eq in E. exact E.
  - apply IH. intro I. apply H. right. exact I.
Qed.

(** X3.  A text made only of whitespace, emphasis marks and heading marks
    has nothing left after cleaning: [clean_exa_text] returns [None] for it,
    as it does for [None] and for the empty text. *)
Theorem cleaner_drops_blank_text :
  forall (max_length : Z) (s : str),
    (forall c, In c s -> isspace c = true \/ c = ch "*" \/ c = ch "#") ->
    clean_exa_text_len max_length (Some s) = None.
Proof.
  intros M s H. unfold clean_exa_text_len.
  destruct (is_empty s); [ reflexivity | ].
  rewrite (re_sub_no_match pat_md_link (fun g => g) s).
  2:{ apply re_search_md_link_none. intro I. apply H in I.
      destruct I as [I | [I | I]]; discriminate I. }
  destruct (scrub_tidy s) as [E | T]; [ rewrite E; reflexivity | exfalso ].
  destruct T as [A [B [_ D]]].
  remember (scrub s) as s5 eqn:Es5.
  destruct s5 as [ | c t ]; [ discriminate D | ].
  assert (I : In c (scrub s)) by (rewrite <- Es5; left; reflexivity).
  assert (W : isspace c = false).
  { cbn [spaced_ok] in D. destruct (isspace c); [ | reflexivity ].
    rewrite andb_false_r in D. discriminate D. }
  apply in_strip in I. apply collapse_source in I.
  destruct I as [I | I]; [ | subst c; discriminate W ].
  apply (replace_source (py "\n") (py " ")) in I; [ | discriminate ].
  destruct I as [I | [I | []]]; [ | subst c; discriminate W ].
  apply (replace_source (py "*") (py " ")) in I; [ | discriminate ].
  destruct I as [I | [I | []]]; [ | subst c; discriminate W ].
  apply (re_sub_source pat_heading (fun _ => []) pat_heading_consuming
           (length s) s c (le_n _)) in I.
  destruct I as [I | [g []]].
  apply H in I. destruct I as [I | [I | I]].
  - rewrite I in W. discriminate W.
  - apply B. left. exact I.
  - apply A. left. exact I.
Qed.

Lemma cleaner_drops_blank_text_witness :
  clean_exa_text (Some (py "  ** ##  * ")) = None.
Proof.
  apply (cleaner_drops_blank_text 400 (py "  ** ##  * ")).
  intros c H. vm_compute in H.
  repeat (destruct H as [H | H];
          [ subst c; first [ left; reflexivity | right; left; reflexivity
                           | right; right; reflexivity ] | ]).
  contradiction.
Defined.

Lemma cleaner_output_is_tidy_witness : tidy (py "a b c").
Proof.
  apply (cleaner_output_is_tidy 400 (Some (py "a  *b*   # c"))).
  vm_compute. reflexivity.
Defined.

(** Highlights *)
Lemma highlight_lines_spec :
  forall max_items lines hs,
    exists more,
      highlight_lines max_items hs lines = hs ++ more
      /\ Forall (fun h => exists raw, clean_exa_text (Some raw) = Some h) more
      /\ (Z.of_nat (length hs) < max_items ->
          Z.of_nat (length (hs ++ more)) <= max_items).
Proof.
  intros max_items lines. induction lines as [ | line rest IH ]; intro hs.
  - exists []. cbn [highlight_lines]. rewrite app_nil_r.
    split; [ reflexivity | ]. split; [ constructor | lia ].
  - cbn [highlight_lines].
    destruct (is_empty (strip line)); [ apply IH | ].
    set (hs' := if startswith (strip line) (py "-") || startswith (strip line) (py "*")
                   || match_numbered_item (strip line)
                then match clean_exa_text
                             (Some (lstrip_chars (py "-*0123456789. )") (strip line))) with
                     | Some clean_line => hs ++ [clean_line]
                     | None => hs
                     end
                else hs).
    assert (S : exists one, hs' = hs ++ one
                /\ Forall (fun h => exists raw, clean_exa_text (Some raw) = Some h) one
                /\ (length one <= 1)%nat).
    { unfold hs'.
      destruct (startswith (strip line) (py "-") || startswith (strip line) (py "*")
                || match_numbered_item (strip line)).
      - destruct (clean_exa_text
                    (Some (lstrip_chars (py "-*0123456789. )") (strip line))))
          as [ c | ] eqn:E.
        + exists [c]. split; [ reflexivity | ]. split; [ | simpl; lia ].
          constructor; [ | constructor ]. eexists. exact E.
        + exists []. rewrite app_nil_r. split; [ reflexivity | ].
          split; [ constructor | simpl; lia ].
      - exists []. rewrite app_nil_r. split; [ reflexivity | ].
        split; [ constructor | simpl; lia ]. }
    destruct S as [one [E1 [F1 L1]]].
    destruct (Z.of_nat (length hs') >=? max_items) eqn:G.
    + exists one. split; [ exact E1 | ]. split; [ exact F1 | ].
      intro Hlt. rewrite length_app. lia.
    + destruct (IH hs') as [more [E2 [F2 L2]]].
      exists (one ++ more). rewrite E2, E1, <- app_assoc.
      split; [ reflexivity | ]. split; [ apply Forall_app; split; assumption | ].
      intros _. rewrite app_assoc, <- E1. apply L2.
      rewrite Z.geb_leb in G. apply Z.leb_gt in G. exact G.
Qed.

(** X4.  When [extract_highlights] returns a list, the list has at least
    one and at most four items, and each item is a text that
    [clean_exa_text] returned. *)
Theorem highlights_are_bounded :
  forall (text : str) (hs : list str),
    extract_highlights text = Some hs ->
    (1 <= length hs <= 4)%nat
    /\ Forall (fun h => exists raw, clean_exa_text (Some raw) = Some h) hs.
Proof.
  intros text hs H. unfold extract_highlights in H.
  destruct (is_empty text); [ discriminate H | ].
  destruct (highlight_lines_spec 4 (splitlines text) []) as [more [E [F L]]].
  rewrite E in H. cbn [app] in H, L.
  destruct more as [ | h more ]; [ discriminate H | ].
  injection H as <-. split; [ | exact F ].
  specialize (L ltac:(simpl; lia)). simpl in L |- *. lia.
Qed.

Lemma highlights_are_bounded_witness :
  exists hs,
    extract_highlights
      (py "Specs" ++ nl :: py "- light" ++ nl :: py "* fast" ++ nl
          :: py "1. grip" ++ nl :: py "2) cheap" ++ nl :: py "- fifth") = Some hs
    /\ (1 <= length hs <= 4)%nat.
Proof.
  eexists. split; [ vm_compute; reflexivity | ].
  apply (highlights_are_bounded
           (py "Specs" ++ nl :: py "- light" ++ nl :: py "* fast" ++ nl
               :: py "1. grip" ++ nl :: py "2) cheap" ++ nl :: py "- fifth")).
  vm_compute. reflexivity.
Defined.

Lemma highlight_lines_no_bullets :
  forall max_items lines hs,
    (forall line, In line lines ->
       startswith (strip line) (py "-") || startswith (strip line) (py "*")
       || match_numbered_item (strip line) = false) ->
    highlight_lines max_items hs lines = hs.
Proof.
  intros max_items lines. induction lines as [ | line rest IH ]; intros hs H.
  - reflexivity.
  - cbn [highlight_lines].
    rewrite (H line (or_introl eq_refl)).
    destruct (is_empty (strip line)).
    + apply IH. intros l I. apply H. right. exact I.
    + destruct (Z.of_nat (length hs) >=? max_items); [ reflexivity | ].
      apply IH. intros l I. apply H. right. exact I.
Qed.

(** X5.  A text none of whose lines, once stripped, starts with a dash, a
    star or a number followed by a dot or a parenthesis and a whitespace,
    gives no highlights: [extract_highlights] returns [None]. *)
Theorem highlights_need_bullet_lines :
  forall text : str,
    (forall line, In line (splitlines text) ->
       startswith (strip line) (py "-") || startswith (strip line) (py "*")
       || match_numbered_item (strip line) = false) ->
    extract_highlights text = None.
Proof.
  intros text H. unfold extract_highlights.
  destruct (is_empty text); [ reflexivity | ].
  rewrite (highlight_lines_no_bullets 4 (splitlines text) [] H). reflexivity.
Qed.

Lemma highlights_need_bullet_lines_witness :
  extract_highlights (py "Light and fast." ++ nl :: py "2024 model, 3 colours") = None.
Proof.
  apply highlights_need_bullet_lines.
  intros line H. vm_compute in H.
  repeat (destruct H as [H | H]; [ subst line; vm_compute; reflexivity | ]).
  contradiction.
Defined.

(* ================================================================== *)
(** * Structured-Text Parser: failures, URLs, braces *)
(* ================================================================== *)

(** ** What the catch-all handler of [parse_response] can see *)

Lemma parse_text_returns :
  forall text, exists rs, parse_text text = Return rs.
Proof.
  intro text. unfold parse_text. rewrite text_records_returns. cbn [bind].
  destruct (heuristic_records text); [ eexists; reflexivity | ].
  destruct (re_findall pat_url text); eexists; reflexivity.
Qed.

(** X6.  The catch-all handler of [parse_response] is reached only for a
    reply without choices or when [json.loads] fails with something else
    than a decoding error: the line scanner, the fallbacks and the URL pass
    never raise. *)
Theorem parse_failures_come_from_outside :
  forall (json_loads : str -> json_result) (openai_response : completion)
         (e : exn),
    parse_response_body json_loads openai_response = Raise e ->
    choices openai_response = []
    \/ exists text, json_loads text = JsonFailure e.
Proof.
  intros json_loads r e H. unfold parse_response_body in H.
  destruct (choices r) as [ | msg rest ]; [ left; reflexivity | right ].
  destruct (content msg) as [ [ | c text ] | ]; try discriminate H.
  unfold json_attempt in H.
  destruct ((find (c :: text) (py "{") >=? 0)
            && (rfind (c :: text) (py "}") + 1 >? find (c :: text) (py "{"))).
  - destruct (json_loads _) as [ v | msg' | e' ] eqn:J.
    + destruct (parse_text_returns (c :: text)) as [rs P].
      destruct v as [ | | | | | l | d ]; cbn [bind] in H;
        try (rewrite P in H; discriminate H); try discriminate H.
      destruct (dict_get d (py "results")); cbn [bind] in H;
        [ discriminate H | rewrite P in H; discriminate H ].
    + destruct (parse_text_returns (c :: text)) as [rs P].
      cbn [bind] in H. rewrite P in H. discriminate H.
    + cbn [bind] in H. injection H as <-. eexists. exact J.
  - destruct (parse_text_returns (c :: text)) as [rs P].
    cbn [bind] in H. rewrite P in H. discriminate H.
Qed.

Lemma parse_failures_come_from_outside_witness :
  choices {| choices := [] |} = []
  \/ exists text, json_loads_ref text
                  = JsonFailure (Exn IndexError (py "list index out of range")).
Proof.
  apply (parse_failures_come_from_outside json_loads_ref {| choices := [] |}).
  reflexivity.
Defined.

(** ** The URLs found in a reply *)

Lemma pat_url_match :
  forall s g rest,
    pat_url s = Some (g, rest) ->
    s = g ++ rest
    /\ (startswith g (py "http://") = true \/ startswith g (py "https://") = true)
    /\ forallb url_char g = true
    /\ 7 < len g.
Proof.
  intros s g rest H. unfold pat_url in H.
  assert (K : forall n scheme,
             startswith s scheme = true -> length scheme = n ->
             forallb url_char scheme = true ->
             match takewhile url_char (skipn n s) with
             | [] => None
             | _ :: _ => Some (firstn n s ++ takewhile url_char (skipn n s),
                               dropwhile url_char (skipn n s))
             end = Some (g, rest) ->
             s = g ++ rest /\ startswith g scheme = true
             /\ forallb url_char g = true /\ Z.of_nat n < len g).
  { intros n scheme Hs Hn Hc Hm.
    assert (Hp : firstn n s = scheme).
    { clear - Hs Hn. subst n. revert s Hs.
      induction scheme as [ | a p IH ]; intros s Hs; [ reflexivity | ].
      destruct s as [ | b s ]; [ discriminate Hs | ].
      cbn [startswith] in Hs. apply andb_prop in Hs. destruct Hs as [E Hs].
      apply N.eqb_eq in E. subst b. cbn [length firstn]. f_equal.
      apply IH. exact Hs. }
    destruct (takewhile url_char (skipn n s)) as [ | c body ] eqn:Eb;
      [ discriminate Hm | ].
    injection Hm as <- <-. rewrite <- Eb.
    split; [ | split; [ | split ] ].
    - rewrite <- app_assoc, takewhile_dropwhile, firstn_skipn. reflexivity.
    - rewrite Hp. clear. induction scheme as [ | a p IH ]; [ reflexivity | ].
      cbn [app startswith]. unfold char_eqb. rewrite N.eqb_refl. exact IH.
    - rewrite forallb_app, Hp, Hc. cbn [andb]. clear.
      induction (skipn n s) as [ | x t IH ]; [ reflexivity | ].
      cbn [takewhile]. destruct (url_char x) eqn:E; [ | reflexivity ].
      cbn [forallb]. rewrite E. exact IH.
    - unfold len. rewrite length_app, Hp, Hn, Eb. simpl. lia. }
  destruct (startswith s (py "https://")) eqn:E8.
  - destruct (K 8%nat (py "https://") E8 eq_refl eq_refl H) as [A [B [C D]]].
    split; [ exact A | ]. split; [ right; exact B | ].
    split; [ exact C | lia ].
  - destruct (startswith s (py "http://")) eqn:E7; [ | discriminate H ].
    destruct (K 7%nat (py "http://") E7 eq_refl eq_refl H) as [A [B [C D]]].
    split; [ exact A | ]. split; [ left; exact B | ].
    split; [ exact C | lia ].
Qed.

Lemma pat_url_consuming : consuming pat_url.
Proof.
  intros s g rest H. destruct (pat_url_match s g rest H) as [A [_ [_ D]]].
  exists g. split; [ | exact A ].
  intro E. subst g. unfold len in D. simpl in D. lia.
Qed.

Lemma contains_intro :
  forall pre s sub, startswith s sub = true -> contains (pre ++ s) sub = true.
Proof.
  intros pre s sub H.
  destruct (contains (pre ++ s) sub) eqn:E; [ reflexivity | ].
  apply contains_suffix in E. destruct s; simpl in E; rewrite H in E; discriminate E.
Qed.

Lemma startswith_self_app :
  forall g rest, startswith (g ++ rest) g = true.
Proof.
  induction g as [ | a g IH ]; intro rest; [ reflexivity | ].
  cbn [app startswith]. unfold char_eqb. rewrite N.eqb_refl. apply IH.
Qed.

Lemma re_findall_in :
  forall p, consuming p ->
  forall fuel s u,
    In u (re_findall_fuel p fuel s) ->
    exists pre s' rest, s = pre ++ s' /\ p s' = Some (u, rest).
Proof.
  intros p Hp. induction fuel as [ | f IH ]; intros s u H; [ contradiction | ].
  cbn [re_findall_fuel] in H. destruct s as [ | c t ]; [ contradiction | ].
  destruct (p (c :: t)) as [ [g rest] | ] eqn:E.
  - destruct H as [H | H].
    + subst g. exists [], (c :: t), rest. split; [ reflexivity | exact E ].
    + destruct (IH rest u H) as [pre [s' [r' [A B]]]].
      destruct (Hp _ _ _ E) as [m [_ Em]].
      exists (m ++ pre), s', r'. split; [ | exact B ].
      rewrite Em, A, app_assoc. reflexivity.
  - destruct (IH t u H) as [pre [s' [r' [A B]]]].
    exists (c :: pre), s', r'. split; [ | exact B ]. rewrite A. reflexivity.
Qed.

(** X7.  Every URL that the parser collects from a reply starts with
    http:// or https://, holds no whitespace and no closing parenthesis, is
    longer than its scheme, and occurs in the reply. *)
Theorem found_urls_are_well_formed :
  forall (content u : str),
    In u (re_findall pat_url content) ->
    (startswith u (py "http://") = true \/ startswith u (py "https://") = true)
    /\ forallb url_char u = true
    /\ 7 < len u
    /\ contains content u = true.
Proof.
  intros content u H.
  destruct (re_findall_in pat_url pat_url_consuming _ _ _ H)
    as [pre [s' [rest [A B]]]].
  destruct (pat_url_match _ _ _ B) as [E [P [C L]]].
  repeat split; try assumption.
  rewrite A. apply contains_intro. rewrite E. apply startswith_self_app.
Qed.

Lemma found_urls_are_well_formed_witness :
  forallb url_char (py "https://a.example/x") = true
  /\ contains (py "See (https://a.example/x) and more") (py "https://a.example/x")
     = true.
Proof.
  destruct (found_urls_are_well_formed
              (py "See (https://a.example/x) and more") (py "https://a.example/x"))
    as [_ [A [_ B]]].
  - vm_compute. left. reflexivity.
  - split; [ exact A | exact B ].
Defined.

(** ** The final URL pass *)

(** X8.  The final URL pass of [parse_response] keeps the number and
    the order of the records; a record that holds a url is left as it is,
    and a record without one is either left as it is or gets one of the
    collected URLs under the key url, nothing else being changed. *)
Theorem url_pass_only_fills_urls :
  forall (all_urls : list str) (url_index : nat) (rs : list pdict),
    Forall2 (fun r r' =>
               r' = r
               \/ (truthy (py_get r k_url) = false
                   /\ exists u, In u all_urls /\ r' = dict_set r k_url (PStr u)))
            rs (backfill_urls all_urls url_index rs).
Proof.
  intros all_urls i rs. revert i.
  induction rs as [ | r rest IH ]; intro i; [ constructor | ].
  cbn [backfill_urls].
  destruct (truthy (py_get r k_url)) eqn:T; cbn [negb andb].
  - constructor; [ left; reflexivity | apply IH ].
  - destruct (Z.of_nat i <? Z.of_nat (length all_urls)) eqn:E.
    + constructor; [ | apply IH ]. right. split; [ exact T | ].
      exists (nth i all_urls []). split; [ | reflexivity ].
      apply nth_In. apply Z.ltb_lt in E. lia.
    + constructor; [ left; reflexivity | apply IH ].
Qed.

Lemma assign_urls_complete :
  forall pool rs,
    (length rs <= length pool)%nat ->
    Forall (fun u => u <> []) pool ->
    Forall (fun r => truthy (py_get r k_url) = true) (assign_urls pool rs).
Proof.
  intros pool rs. revert pool.
  induction rs as [ | r rest IH ]; intros pool L F; [ constructor | ].
  cbn [assign_urls].
  destruct (truthy (py_get r k_url)) eqn:T.
  - constructor; [ exact T | ]. apply IH; [ simpl in L; lia | exact F ].
  - destruct pool as [ | u pool' ]; [ simpl in L; lia | ].
    inversion F as [ | ? ? Hu F' ]; subst.
    constructor.
    + rewrite py_get_set_same. destruct u; [ contradiction | reflexivity ].
    + apply IH; [ simpl in L; lia | exact F' ].
Qed.

Lemma assign_urls_length :
  forall pool rs, length (assign_urls pool rs) = length rs.
Proof.
  intros pool rs. revert pool. induction rs as [ | r rest IH ]; intro pool;
    [ reflexivity | ].
  cbn [assign_urls]. destruct (truthy _); [ simpl; rewrite IH; reflexivity | ].
  destruct pool; simpl; rewrite IH; reflexivity.
Qed.

Lemma found_urls_nonempty :
  forall content, Forall (fun u => u <> []) (re_findall pat_url content).
Proof.
  intro content. apply Forall_forall. intros u H.
  destruct (re_findall_in pat_url pat_url_consuming _ _ _ H)
    as [pre [s' [rest [A B]]]].
  destruct (pat_url_match _ _ _ B) as [_ [_ [_ L]]].
  intro E. subst u. unfold len in L. simpl in L. lia.
Qed.

(** X9.  When the text heuristics run and the reply holds at least as
    many URLs as there are records, every record of the result holds a
    non-empty url. *)
Theorem enough_urls_fill_every_record :
  forall (content : str) (rs : list pdict),
    parse_text content = Return rs ->
    (length rs <= length (re_findall pat_url content))%nat ->
    Forall (fun r => truthy (py_get r k_url) = true) rs.
Proof.
  intros content rs H L.
  rewrite (parse_text_is_assign content _ (text_records_returns content)) in H.
  apply Return_inj in H. subst rs. rewrite assign_urls_length in L.
  apply assign_urls_complete; [ exact L | apply found_urls_nonempty ].
Qed.

Lemma enough_urls_fill_every_record_witness :
  exists rs,
    parse_text (py "1. Product: Hat" ++ nl :: py "2. Product: Cap" ++ nl
                   :: py "Shops: http://a.example http://b.example") = Return rs
    /\ Forall (fun r => truthy (py_get r k_url) = true) rs.
Proof.
  eexists. split; [ vm_compute; reflexivity | ].
  apply (enough_urls_fill_every_record
           (py "1. Product: Hat" ++ nl :: py "2. Product: Cap" ++ nl
               :: py "Shops: http://a.example http://b.example")).
  - vm_compute. reflexivity.
  - vm_compute. lia.
Defined.

(** ** A reply without braces *)

Lemma find_from_absent :
  forall sub s i, contains s sub = false -> find_from i s sub = -1.
Proof.
  intros sub. induction s as [ | c t IH ]; intros i H.
  - cbn [contains] in H. rewrite orb_false_r in H.
    cbn [find_from]. rewrite H. reflexivity.
  - rewrite contains_cons in H. apply orb_false_elim in H. destruct H as [A B].
    cbn [find_from]. rewrite A. apply IH. exact B.
Qed.

Lemma rfind_from_absent :
  forall sub s i best, contains s sub = false -> rfind_from i s sub best = best.
Proof.
  intros sub. induction s as [ | c t IH ]; intros i best H.
  - cbn [contains] in H. rewrite orb_false_r in H.
    cbn [rfind_from]. rewrite H. reflexivity.
  - rewrite contains_cons in H. apply orb_false_elim in H. destruct H as [A B].
    cbn [rfind_from]. rewrite A. apply IH. exact B.
Qed.

Lemma find_from_lower :
  forall sub s i, find_from i s sub = -1 \/ i <= find_from i s sub.
Proof.
  intros sub. induction s as [ | c t IH ]; intro i; cbn [find_from].
  - destruct (startswith [] sub); [ right; lia | left; reflexivity ].
  - destruct (startswith (c :: t) sub); [ right; lia | ].
    destruct (IH (i + 1)) as [H | H]; [ left; exact H | right; lia ].
Qed.

(** X10.  A reply without an opening brace, or without a closing brace,
    is never handed to [json.loads]: the embedded-JSON attempt falls through
    to the text heuristics whatever the decoder would do. *)
Theorem no_braces_no_json :
  forall (json_loads : str -> json_result) (content : str),
    contains content (py "{") = false \/ contains content (py "}") = false ->
    json_attempt json_loads content = Return None.
Proof.
  intros json_loads content H. unfold json_attempt.
  destruct H as [H | H].
  - unfold find. rewrite (find_from_absent _ _ 0 H). reflexivity.
  - unfold rfind. rewrite (rfind_from_absent _ _ 0 (-1) H).
    destruct (find_from_lower (py "{") content 0) as [E | E]; unfold find.
    + rewrite E. reflexivity.
    + replace (-1 + 1 >? find_from 0 content (py "{")) with false.
      * rewrite andb_false_r. reflexivity.
      * symmetry. rewrite Z.gtb_ltb. apply Z.ltb_ge. lia.
Qed.

Lemma no_braces_no_json_witness :
  json_attempt json_loads_ref (py "1. Product: Hat {unfinished") = Return None.
Proof.
  apply no_braces_no_json. right. vm_compute. reflexivity.
Defined.

(* ================================================================== *)
(** * Captured tool results and fusion *)
(* ================================================================== *)

(** ** The tools that are looked into *)

(** X11.  [extract_exa_results_from_response] looks only into the
    executed tools whose name contains exa and whose output is not empty:
    removing every other tool from the list does not change what the loop
    returns or raises. *)
Theorem only_exa_tools_are_read :
  forall (json_loads : str -> json_result) (tools : list tool_record),
    exa_tools_loop json_loads tools
    = exa_tools_loop json_loads (filter is_exa_tool tools).
Proof.
  intros json_loads. induction tools as [ | tool rest IH ]; [ reflexivity | ].
  cbn [filter]. unfold is_exa_tool at 1.
  cbn [exa_tools_loop].
  destruct (tool_output tool) as [ [ | c out ] | ] eqn:O; try exact IH.
  destruct (contains (tool_name tool) (py "exa")) eqn:N; [ | exact IH ].
  cbn [exa_tools_loop]. rewrite O, N.
  destruct (json_loads (c :: out)) as [ data | msg | e ]; try reflexivity;
    [ | exact IH ].
  destruct (as_dict "get" data) as [ d | e ]; cbn [bind]; [ | reflexivity ].
  destruct (truthy _); [ reflexivity | exact IH ].
Qed.

(** ** How many entries fusion consumes *)

Lemma fuse_record_used :
  forall stored used v v' used',
    fuse_record stored used v = Return (v', used') ->
    (length used' <= length used + 2)%nat.
Proof.
  intros stored used v v' used' H. unfold fuse_record in H.
  destruct (as_dict "get" v) as [ d | e ]; cbn [bind] in H; [ | discriminate H ].
  destruct (py_lower _) as [ title | e ]; cbn [bind] in H; [ | discriminate H ].
  destruct (if missing_link d then _ else _) as [ [d1 used1] | e ] eqn:P1;
    cbn [bind] in H; [ | discriminate H ].
  destruct (if missing_link d1 then _ else _) as [ [d2 used2] | e ] eqn:P2;
    cbn [bind] in H; [ | discriminate H ].
  apply Return_inj in H. injection H as _ <-.
  assert (L1 : (length used1 <= length used + 1)%nat).
  { destruct (missing_link d).
    - destruct (first_pass_spec _ _ _ _ _ _ _ P1)
        as [ [j [e [_ [_ [_ [_ [_ ->]]]]]]] | [_ [_ ->]] ];
        [ rewrite length_app; simpl; lia | lia ].
    - apply Return_inj in P1. injection P1 as _ <-. lia. }
  assert (L2 : (length used2 <= length used1 + 1)%nat).
  { destruct (missing_link d1).
    - destruct (second_pass_spec _ _ _ _ _ _ P2)
        as [ [j [e [_ [_ [_ [_ ->]]]]]] | [_ [_ ->]] ];
        [ rewrite length_app; simpl; lia | lia ].
    - apply Return_inj in P2. injection P2 as _ <-. lia. }
  lia.
Qed.

Lemma fuse_records_used :
  forall stored items used items' used',
    fuse_records stored used items = Return (items', used') ->
    (length used' <= length used + 2 * length items)%nat.
Proof.
  intros stored. induction items as [ | v rest IH ]; intros used items' used' H.
  - cbn [fuse_records] in H. apply Return_inj in H. injection H as _ <-.
    simpl. lia.
  - cbn [fuse_records] in H.
    destruct (fuse_record stored used v) as [ [v' used1] | e ] eqn:F;
      cbn [bind] in H; [ | discriminate H ].
    destruct (fuse_records stored used1 rest) as [ [rest' used2] | e ] eqn:G;
      cbn [bind] in H; [ | discriminate H ].
    apply Return_inj in H. injection H as _ <-.
    pose proof (fuse_record_used _ _ _ _ _ F).
    pose proof (IH _ _ _ G). simpl. lia.
Qed.

Lemma consumed_once_length :
  forall n used, consumed_once n used -> (length used <= n)%nat.
Proof.
  intros n used [N B].
  assert (I : incl used (seq 0 n)).
  { intros i Hi. apply in_seq. specialize (B i Hi). lia. }
  pose proof (NoDup_incl_length N I) as L.
  rewrite length_seq in L. exact L.
Qed.

(** X12.  Fusion marks at most two stored entries as used for each
    record (one in each pass), and never more entries than are stored. *)
Theorem fusion_consumes_at_most_two_entries_per_record :
  forall (l : list pyval) (stored_exa_results : list pdict)
         (result' : pyval) (used_indices : list nat),
    fuse (PList l) stored_exa_results = Return (result', used_indices) ->
    (length used_indices <= 2 * length l)%nat
    /\ (length used_indices <= length stored_exa_results)%nat.
Proof.
  intros l stored result' used H.
  destruct (fuse_frame _ _ _ _ H) as [ [_ [-> _]] | [items [items' [I [F _]]]] ].
  - simpl. split; lia.
  - cbn [py_iter] in I. apply Return_inj in I. subst items. split.
    + pose proof (fuse_records_used _ _ _ _ _ F) as U. simpl in U. lia.
    + apply consumed_once_length.
      apply (fuse_records_frame _ _ _ _ _ F).
      split; [ constructor | intros i [] ].
Qed.

Lemma fusion_consumes_at_most_two_entries_per_record_witness :
  exists result' used_indices,
    fuse (PList [PDict shoe_record]) shoe_stored = Return (result', used_indices)
    /\ (length used_indices <= 2)%nat.
Proof.
  eexists _, _. split; [ vm_compute; reflexivity | ].
  destruct (fusion_consumes_at_most_two_entries_per_record
              [PDict shoe_record] shoe_stored _ _ ltac:(vm_compute; reflexivity))
    as [A _].
  exact A.
Defined.

(** ** Records that already hold both links *)

Lemma fuse_records_complete :
  forall stored items used,
    Forall complete_record items ->
    fuse_records stored used items = Return (items, used).
Proof.
  intros stored. induction items as [ | v rest IH ]; intros used H;
    [ reflexivity | ].
  inversion H as [ | ? ? [d [-> [M T]]] Hrest ]; subst.
  cbn [fuse_records]. unfold fuse_record. cbn [as_dict bind].
  assert (L : exists title,
             py_lower (py_or (py_get d k_title) (PStr [])) = Return title).
  { unfold py_or. destruct (py_get d k_title) as [ | | | | s | | ];
      try discriminate T; cbn [truthy].
    - eexists. reflexivity.
    - destruct (negb (is_empty s)); eexists; reflexivity. }
  destruct L as [title ->]. cbn [bind]. rewrite M. cbn [bind]. rewrite M.
  cbn [bind]. rewrite (IH used Hrest). reflexivity.
Qed.

(** X13.  When every record already holds a url and an image url (and
    its title is a text or absent), fusion returns the list unchanged and
    uses no stored entry: a missing description or missing highlights alone
    never trigger a pass. *)
Theorem complete_records_are_left_alone :
  forall (l : list pyval) (stored_exa_results : list pdict),
    Forall complete_record l ->
    fuse (PList l) stored_exa_results = Return (PList l, []).
Proof.
  intros l stored H. unfold fuse.
  destruct (truthy (PList l) && negb (is_nil stored)); [ | reflexivity ].
  cbn [py_iter bind]. rewrite (fuse_records_complete stored l [] H). reflexivity.
Qed.

Lemma complete_records_are_left_alone_witness :
  fuse (PList [PDict [(py "title", PStr (py "Rain Boot"));
                      (py "url", PStr (py "http://own.example"));
                      (py "image_url", PStr (py "http://own.example/i.png"))]])
       shoe_stored
  = Return (PList [PDict [(py "title", PStr (py "Rain Boot"));
                          (py "url", PStr (py "http://own.example"));
                          (py "image_url", PStr (py "http://own.example/i.png"))]],
            []).
Proof.
  apply complete_records_are_left_alone.
  constructor; [ | constructor ].
  eexists. split; [ reflexivity | ]. split; reflexivity.
Defined.

(** ** Replies that cannot make the attempt fail *)

Lemma store_all_plain :
  forall l, Forall plain_raw l ->
    exists es, store_all l = Return es /\ Forall plain_entry es.
Proof.
  induction l as [ | res rest IH ]; intro H.
  - exists []. split; [ reflexivity | constructor ].
  - inversion H as [ | ? ? [r [-> [T [I X]]]] Hrest ]; subst.
    destruct (IH Hrest) as [es [E F]].
    cbn [store_all]. unfold store_exa. cbn [as_dict bind]. rewrite E.
    cbn [bind]. eexists. split; [ reflexivity | ].
    constructor; [ | exact F ].
    unfold plain_entry, exa_title_of.
    split; [ | split; [ | reflexivity ] ].
    + change (text_or_none (py_or (py_get r (py "title")) (py_get r (py "id")))
              = true).
      unfold py_or. destruct (truthy (py_get r (py "title"))); assumption.
    + exact X.
Qed.

Lemma titled_is_plain :
  forall v, record_titled v = true -> plain_record v.
Proof.
  intros v H. destruct v as [ | | | | | | d ]; try discriminate H.
  exists d. split; [ reflexivity | ].
  unfold record_titled in H. unfold py_get.
  destruct (dict_get d k_title) as [ [ | | | | s | | ] | ]; try discriminate H.
  reflexivity.
Qed.

Lemma parse_response_is_list :
  forall json_loads response,
    (forall msg rest text v,
        choices response = msg :: rest -> content msg = Some text ->
        json_attempt json_loads text <> Return (Some v)) ->
    exists l, parse_response json_loads response = PList l.
Proof.
  intros json_loads response Hjson.
  unfold parse_response, parse_response_body.
  destruct (choices response) as [ | msg rest ] eqn:C; [ eexists; reflexivity | ].
  destruct (content msg) as [ [ | c text ] | ] eqn:M; try (eexists; reflexivity).
  destruct (json_attempt json_loads (c :: text)) as [ [ v | ] | e ] eqn:E.
  - exfalso. exact (Hjson msg rest (c :: text) v eq_refl M E).
  - cbn [bind].
    destruct (parse_text (c :: text)) as [ rs | e ]; eexists; reflexivity.
  - eexists. reflexivity.
Qed.

Lemma enriched_dicts :
  forall l l', Forall2 record_enriched l l' ->
    forallb is_dict l = true -> forallb is_dict l' = true.
Proof.
  intros l l' H. induction H as [ | v v' l l' Hv Hl IH ]; intro D;
    [ reflexivity | ].
  cbn [forallb] in *. apply andb_true_iff in D. destruct D as [D1 D2].
  rewrite (IH D2), andb_true_r.
  destruct v as [ | | | | | | d ]; try discriminate D1.
  destruct v' as [ | | | | | | d' ]; try discriminate Hv. reflexivity.
Qed.

Lemma debug_report_dicts :
  forall l, forallb is_dict l = true -> debug_report (PList l) = Return tt.
Proof.
  intros l D. unfold debug_report. cbn [py_len bind truthy].
  destruct l as [ | x l ]; [ reflexivity | ].
  cbn [py_first bind py_iter].
  assert (A : forall items, forallb is_dict items = true ->
                            all_dicts items = Return tt).
  { induction items as [ | y items IH ]; intro Hy; [ reflexivity | ].
    cbn [forallb] in Hy. apply andb_true_iff in Hy. destruct Hy as [Y1 Y2].
    destruct y; try discriminate Y1. cbn [all_dicts as_dict bind].
    apply IH. exact Y2. }
  cbn [forallb] in D. pose proof D as D'.
  apply andb_true_iff in D. destruct D as [D1 _].
  destruct x; try discriminate D1. cbn [as_dict bind].
  apply (A (PDict d :: l)). exact D'.
Qed.

(** X14.  When the embedded-JSON attempt does not return a structure
    and the captured tool results are dictionaries whose title, id and text
    are texts or absent, the processing of the reply (parse, capture, fuse,
    report) cannot fail: it returns a dictionary with [success = True] and
    no error. *)
Theorem plain_replies_never_fail :
  forall (json_loads : str -> json_result) (response : completion),
    (forall msg rest text v,
        choices response = msg :: rest -> content msg = Some text ->
        json_attempt json_loads text <> Return (Some v)) ->
    (exists l, extract_exa_results_from_response json_loads response = PList l
               /\ Forall plain_raw l) ->
    exists result,
      reconcile json_loads response
      = Return {| success := true; results := result; error := None |}.
Proof.
  intros json_loads response Hjson [raw [Hraw Hplain]].
  pose proof (parse_response_titled json_loads response Hjson) as T.
  destruct (parse_response_is_list json_loads response Hjson) as [l Hl].
  unfold reconcile. rewrite Hraw, Hl in *. cbn [records_of] in T.
  destruct (store_all_plain raw Hplain) as [es [E F]].
  assert (S : stored_results (PList raw) = Return es).
  { unfold stored_results. cbn [truthy].
    destruct raw as [ | x raw' ]; [ | cbn [py_iter bind]; exact E ].
    cbn [store_all] in E. exact E. }
  rewrite S. cbn [bind].
  assert (P : Forall plain_record l).
  { apply Forall_forall. intros v Hv. apply titled_is_plain.
    rewrite forallb_forall in T. apply T. exact Hv. }
  destruct (fuse_returns l es P F) as [result' [used Hf]].
  rewrite Hf. cbn [bind].
  pose proof (fuse_keeps_records _ _ _ _ Hf) as K. cbn in K.
  destruct K as [l' [-> H2]].
  assert (D : forallb is_dict l = true).
  { apply forallb_forall. intros v Hv. rewrite forallb_forall in T.
    specialize (T v Hv). destruct v; try discriminate T. reflexivity. }
  rewrite (debug_report_dicts l' (enriched_dicts l l' H2 D)). cbn [bind].
  eexists. reflexivity.
Qed.

Lemma plain_replies_never_fail_witness :
  exists result,
    reconcile json_loads_ref example_response
    = Return {| success := true; results := result; error := None |}.
Proof.
  apply plain_replies_never_fail.
  - intros msg rest text v C M. vm_compute in C. injection C as <- <-.
    vm_compute in M. injection M as <-. vm_compute. discriminate.
  - eexists. split; [ vm_compute; reflexivity | ].
    repeat constructor; eexists; (split; [ reflexivity | ]);
      repeat split; reflexivity.
Defined.

(* ================================================================== *)
(** * The single attempt: failures and the returned dictionary *)
(* ================================================================== *)

Lemma benign_return : forall A (a : A), benign (Return a).
Proof. intros A a e H. discriminate H. Qed.

Lemma benign_raise :
  forall A e, is_value_error e = false -> benign (@Raise A e).
Proof. intros A e H e' E. injection E as <-. exact H. Qed.

Lemma benign_bind :
  forall A B (m : outcome A) (k : A -> outcome B),
    benign m -> (forall a, benign (k a)) -> benign (bind m k).
Proof.
  intros A B m k Hm Hk e H. destruct m as [ a | e' ]; cbn [bind] in H.
  - exact (Hk a e H).
  - apply (Hm e). injection H as <-. reflexivity.
Qed.

Ltac benign_step :=
  match goal with
  | |- benign (Return _) => apply benign_return
  | |- benign (Raise _) => apply benign_raise; reflexivity
  | |- benign (bind _ _) => apply benign_bind; [ | intro ]
  | |- benign (if ?b then _ else _) => destruct b
  | |- benign (match ?x with _ => _ end) => destruct x
  | |- benign (let '(_, _) := ?p in _) => destruct p
  end.

Lemma benign_as_dict : forall a v, benign (as_dict a v).
Proof. intros a v. unfold as_dict. repeat benign_step. Qed.

Lemma benign_py_lower : forall v, benign (py_lower v).
Proof. intro v. unfold py_lower. repeat benign_step. Qed.

Lemma benign_py_iter : forall v, benign (py_iter v).
Proof. intro v. unfold py_iter. repeat benign_step. Qed.

Lemma benign_py_len : forall v, benign (py_len v).
Proof. intro v. unfold py_len. repeat benign_step. Qed.

Lemma benign_py_first : forall v, benign (py_first v).
Proof. intro v. unfold py_first. repeat benign_step. Qed.

Lemma benign_titles_match : forall t v, benign (titles_match t v).
Proof.
  intros t v. unfold titles_match.
  apply benign_bind; [ apply benign_py_lower | intro ]. repeat benign_step.
Qed.

Lemma benign_clean_exa_value : forall v, benign (clean_exa_value v).
Proof. intro v. unfold clean_exa_value. repeat benign_step. Qed.

Lemma benign_extract_highlights_value :
  forall v, benign (extract_highlights_value v).
Proof. intro v. unfold extract_highlights_value. repeat benign_step. Qed.

Lemma benign_enrich : forall d e, benign (enrich d e).
Proof.
  intros d e. unfold enrich.
  apply benign_bind.
  - destruct (negb (truthy (py_get _ k_description))); [ | apply benign_return ].
    apply benign_bind; [ apply benign_clean_exa_value | intro; apply benign_return ].
  - intro d3.
    destruct (negb (truthy (py_get d3 k_highlights))); [ | apply benign_return ].
    apply benign_bind;
      [ apply benign_extract_highlights_value | intro; apply benign_return ].
Qed.

Lemma benign_first_pass :
  forall t entries d used i, benign (first_pass t d used i entries).
Proof.
  intros t. induction entries as [ | x rest IH ]; intros d used i;
    cbn [first_pass]; [ apply benign_return | ].
  destruct (is_used used i); [ apply IH | ].
  apply benign_bind; [ apply benign_titles_match | intros [ | ] ].
  - apply benign_bind; [ apply benign_enrich | intro; apply benign_return ].
  - apply IH.
Qed.

Lemma benign_second_pass :
  forall entries d used i, benign (second_pass d used i entries).
Proof.
  induction entries as [ | x rest IH ]; intros d used i;
    cbn [second_pass]; [ apply benign_return | ].
  destruct (is_used used i); [ apply IH | ].
  apply benign_bind; [ apply benign_enrich | intro; apply benign_return ].
Qed.

Lemma benign_fuse_record :
  forall stored used v, benign (fuse_record stored used v).
Proof.
  intros stored used v. unfold fuse_record.
  apply benign_bind; [ apply benign_as_dict | intro d ].
  apply benign_bind; [ apply benign_py_lower | intro t ].
  apply benign_bind.
  - destruct (missing_link d); [ apply benign_first_pass | apply benign_return ].
  - intros [d1 u1]. apply benign_bind.
    + destruct (missing_link d1); [ apply benign_second_pass | apply benign_return ].
    + intros [d2 u2]. apply benign_return.
Qed.

Lemma benign_fuse_records :
  forall stored items used, benign (fuse_records stored used items).
Proof.
  intros stored. induction items as [ | x rest IH ]; intro used;
    cbn [fuse_records]; [ apply benign_return | ].
  apply benign_bind; [ apply benign_fuse_record | intros [r u] ].
  apply benign_bind; [ apply IH | intros [rs u'] ]. apply benign_return.
Qed.

Lemma benign_fuse : forall result stored, benign (fuse result stored).
Proof.
  intros result stored. unfold fuse.
  destruct (truthy result && negb (is_nil stored)); [ | apply benign_return ].
  apply benign_bind; [ apply benign_py_iter | intro items ].
  apply benign_bind; [ apply benign_fuse_records | intros [i u] ].
  apply benign_return.
Qed.

Lemma benign_store_all : forall items, benign (store_all items).
Proof.
  induction items as [ | x rest IH ]; cbn [store_all]; [ apply benign_return | ].
  apply benign_bind.
  - unfold store_exa. apply benign_bind; [ apply benign_as_dict | intro ].
    apply benign_return.
  - intro e. apply benign_bind; [ exact IH | intro; apply benign_return ].
Qed.

Lemma benign_stored_results : forall v, benign (stored_results v).
Proof.
  intro v. unfold stored_results.
  destruct (truthy v); [ | apply benign_return ].
  apply benign_bind; [ apply benign_py_iter | intro; apply benign_store_all ].
Qed.

Lemma benign_all_dicts : forall items, benign (all_dicts items).
Proof.
  induction items as [ | x rest IH ]; cbn [all_dicts]; [ apply benign_return | ].
  apply benign_bind; [ apply benign_as_dict | intro; exact IH ].
Qed.

Lemma benign_debug_report : forall v, benign (debug_report v).
Proof.
  intro v. unfold debug_report.
  apply benign_bind; [ apply benign_py_len | intro ].
  destruct (truthy v); [ | apply benign_return ].
  apply benign_bind; [ apply benign_py_first | intro ].
  apply benign_bind; [ apply benign_as_dict | intro ].
  apply benign_bind; [ apply benign_py_iter | intro; apply benign_all_dicts ].
Qed.

Lemma benign_reconcile :
  forall json_loads response, benign (reconcile json_loads response).
Proof.
  intros json_loads response. unfold reconcile.
  apply benign_bind; [ apply benign_stored_results | intro stored ].
  apply benign_bind; [ apply benign_fuse | intros [result used] ].
  apply benign_bind; [ apply benign_debug_report | intro; apply benign_return ].
Qed.

(** X15.  A [ValueError] leaves the single attempt only when a
    credential is unset or when one of the remote calls (sandbox creation,
    token, completion) raised that very exception: parsing, capturing and
    fusing the reply never raise a [ValueError], so their failures are always
    retried. *)
Theorem value_errors_have_an_outside_cause :
  forall (json_loads : str -> json_result) (env : environ) (rem : remote)
         (user_query : str) (user_answers : dict str)
         (questions : list question) (user_id : option str) (timeout_ms : Z)
         (e : exn),
    fst (_search_with_e2b_exa_single_attempt json_loads env rem user_query
           user_answers questions user_id timeout_ms) = Raise e ->
    is_value_error e = true ->
    unset (E2B_API_KEY env) || unset (EXA_API_KEY env)
    || unset (GROQ_API_KEY env) = true
    \/ (exists seconds, sandbox_create rem seconds = Raise e)
    \/ sandbox_mcp_token rem = Raise e
    \/ (exists request, chat_create rem request = Raise e).
Proof.
  intros json_loads env rem q a qs uid t e H V.
  unfold _search_with_e2b_exa_single_attempt in H.
  destruct (unset (E2B_API_KEY env)); [ left; reflexivity | ].
  destruct (unset (EXA_API_KEY env)); [ left; reflexivity | ].
  destruct (unset (GROQ_API_KEY env)); [ left; reflexivity | ].
  right.
  destruct (sandbox_create rem _) as [ u | e' ] eqn:C.
  - unfold in_sandbox in H.
    destruct (sandbox_mcp_token rem) as [ tok | e' ] eqn:T.
    + destruct (chat_create rem _) as [ response | e' ] eqn:G.
      * cbn [fst] in H.
        rewrite (benign_reconcile json_loads response e H) in V. discriminate V.
      * cbn [fst] in H. injection H as <-. right. right. eexists. exact G.
    + cbn [fst] in H. injection H as <-. right. left. reflexivity.
  - cbn [fst] in H. injection H as <-. left. eexists. exact C.
Qed.

Lemma value_errors_have_an_outside_cause_witness :
  unset (E2B_API_KEY full_environ) || unset (EXA_API_KEY full_environ)
  || unset (GROQ_API_KEY full_environ) = true
  \/ (exists seconds,
         sandbox_create (failing_remote (Exn ValueError (py "bad template")))
           seconds = Raise (Exn ValueError (py "bad template")))
  \/ sandbox_mcp_token (failing_remote (Exn ValueError (py "bad template")))
     = Raise (Exn ValueError (py "bad template"))
  \/ (exists request,
         chat_create (failing_remote (Exn ValueError (py "bad template")))
           request = Raise (Exn ValueError (py "bad template"))).
Proof.
  apply (value_errors_have_an_outside_cause json_loads_ref full_environ
           (failing_remote (Exn ValueError (py "bad template")))
           (py "shoes") [] [] None 600000).
  - reflexivity.
  - reflexivity.
Defined.

(** ** The returned dictionary *)

Lemma all_dicts_spec :
  forall items, all_dicts items = Return tt -> forallb is_dict items = true.
Proof.
  induction items as [ | x rest IH ]; intro H; [ reflexivity | ].
  cbn [all_dicts] in H. destruct x; try discriminate H.
  cbn [as_dict bind] in H. cbn [forallb is_dict andb]. apply IH. exact H.
Qed.

Lemma debug_report_reportable :
  forall v u, debug_report v = Return u -> reportable v.
Proof.
  intros v [] H. unfold debug_report in H.
  destruct v as [ | b | z | f | s | l | d ]; try discriminate H;
    cbn [py_len bind truthy] in H.
  - destruct s as [ | c s ]; [ right; right; reflexivity | discriminate H ].
  - left. exists l. split; [ reflexivity | ].
    destruct l as [ | x l ]; [ reflexivity | ].
    cbn [py_first bind] in H.
    destruct x; try discriminate H. cbn [as_dict bind py_iter] in H.
    apply all_dicts_spec. exact H.
  - destruct d as [ | kv d ]; [ right; left; reflexivity | discriminate H ].
Qed.

Lemma reconcile_well_formed :
  forall json_loads response env,
    reconcile json_loads response = Return env -> well_formed env.
Proof.
  intros json_loads response env H. unfold reconcile in H.
  destruct (stored_results _) as [ stored | e ]; [ | discriminate H ].
  cbn [bind] in H.
  destruct (fuse _ stored) as [ [result used] | e ]; [ | discriminate H ].
  cbn [bind] in H.
  destruct (debug_report result) as [ u | e ] eqn:D; [ | discriminate H ].
  cbn [bind] in H. injection H as <-.
  unfold well_formed. cbn [success error results].
  split; [ reflexivity | exact (debug_report_reportable result u D) ].
Qed.

Lemma single_attempt_well_formed :
  forall json_loads env rem q a qs uid t result,
    fst (_search_with_e2b_exa_single_attempt json_loads env rem q a qs uid t)
    = Return result ->
    well_formed result.
Proof.
  intros json_loads env rem q a qs uid t result H.
  unfold _search_with_e2b_exa_single_attempt in H.
  destruct (unset (E2B_API_KEY env)); [ discriminate H | ].
  destruct (unset (EXA_API_KEY env)); [ discriminate H | ].
  destruct (unset (GROQ_API_KEY env)); [ discriminate H | ].
  destruct (sandbox_create rem _); [ | discriminate H ].
  unfold in_sandbox in H.
  destruct (sandbox_mcp_token rem); [ | discriminate H ].
  destruct (chat_create rem _) as [ response | e' ]; [ | discriminate H ].
  cbn [fst] in H. exact (reconcile_well_formed _ _ _ H).
Qed.

Lemma search_attempts_well_formed :
  forall json_loads env world q a qs uid t attempts last result,
    fst (search_attempts json_loads env world q a qs uid t attempts last)
    = Return result ->
    well_formed result.
Proof.
  intros json_loads env world q a qs uid t.
  induction attempts as [ | n rest IH ]; intros last result H.
  - cbn [search_attempts fst] in H. injection H as <-.
    unfold well_formed. cbn [success results error].
    split; [ reflexivity | eexists; reflexivity ].
  - cbn [search_attempts] in H.
    pose proof (single_attempt_well_formed json_loads env (world n) q a qs uid t) as W.
    destruct (_search_with_e2b_exa_single_attempt _ _ _ _ _ _ _ _) as [r evs].
    cbn [fst] in W. destruct r as [ res | e ].
    + cbn [fst] in H. injection H as <-. apply W. reflexivity.
    + destruct (is_value_error e).
      * cbn [fst] in H. injection H as <-.
        unfold well_formed. cbn [success results error].
        split; [ reflexivity | eexists; reflexivity ].
      * specialize (IH (Some e) result).
        destruct (search_attempts _ _ _ _ _ _ _ _ rest (Some e)) as [r' evs'].
        cbn [fst] in H, IH. apply IH. exact H.
Qed.

(** X16.  [search_with_e2b_exa] always returns a dictionary of one of
    two shapes: [success = True] with no error and a result that is a list
    of dictionaries (or the empty dictionary or text that a JSON reply can
    put there), or [success = False] with an empty result list and an error
    message. *)
Theorem search_result_is_well_formed :
  forall (json_loads : str -> json_result) (env : environ)
         (world : nat -> remote) (user_query : str) (user_answers : dict str)
         (questions : list question) (user_id : option str) (timeout_ms : Z),
    exists result,
      fst (search_with_e2b_exa json_loads env world user_query user_answers
             questions user_id timeout_ms) = Return result
      /\ well_formed result.
Proof.
  intros json_loads env world q a qs uid t.
  destruct (search_from_returns json_loads env world q a qs uid t
              (seq 1 MAX_RETRIES) None) as [result H].
  exists result. split; [ exact H | ].
  exact (search_attempts_well_formed _ _ _ _ _ _ _ _ _ _ _ H).
Qed.

(* ================================================================== *)
(** * Retry orchestrators: the first decisive attempt *)
(* ================================================================== *)

Section MoreRetryProofs.

Variable json_loads : str -> json_result.
Variables (env : environ) (world : nat -> remote).
Variables (user_query : str) (user_answers : dict str)
          (questions : list question) (user_id : option str)
          (timeout_ms : Z).

Let attempt_at (n : nat) :=
  _search_with_e2b_exa_single_attempt json_loads env (world n) user_query
    user_answers questions user_id timeout_ms.

Let search_from (attempts : list nat) (last : option exn) :=
  search_attempts json_loads env world user_query user_answers questions
    user_id timeout_ms attempts last.

Lemma search_from_decisive :
  forall n rest last,
    transient (fst (attempt_at n)) = false ->
    fst (search_from (n :: rest) last) = search_verdict (fst (attempt_at n))
    /\ schedule (snd (search_from (n :: rest) last)) = [EvAttempt n].
Proof.
  intros n rest last H.
  pose proof (single_attempt_schedule json_loads env world user_query
                user_answers questions user_id timeout_ms n) as Hs.
  change (schedule (snd (attempt_at n)) = []) in Hs.
  unfold search_from. cbn [search_attempts]. fold (attempt_at n).
  destruct (attempt_at n) as [r evs]. cbn [fst snd] in *.
  destruct r as [ result | e ]; cbn [transient] in H.
  - cbn [fst snd search_verdict]. split; [ reflexivity | ].
    unfold schedule in *. cbn [filter]. rewrite Hs. reflexivity.
  - apply negb_false_iff in H. rewrite H. cbn [fst snd search_verdict].
    split; [ reflexivity | ].
    unfold schedule in *. cbn [filter]. rewrite Hs. reflexivity.
Qed.

Lemma search_from_decided :
  forall n a k last,
    (a <= k < a + n)%nat -> (k <= MAX_RETRIES)%nat ->
    (forall j, (a <= j < k)%nat -> transient (fst (attempt_at j)) = true) ->
    transient (fst (attempt_at k)) = false ->
    fst (search_from (seq a n) last) = search_verdict (fst (attempt_at k))
    /\ schedule (snd (search_from (seq a n) last))
       = flat_map (fun j => [EvAttempt j; EvSleep (2 ^ Z.of_nat j)])
                  (seq a (k - a))
         ++ [EvAttempt k].
Proof.
  induction n as [ | n IH ]; intros a k last Hk Hmax Htr Hdec; [ lia | ].
  cbn [seq].
  destruct (Nat.eq_dec a k) as [E | E].
  - subst a. rewrite Nat.sub_diag. cbn [seq flat_map app].
    apply search_from_decisive. exact Hdec.
  - assert (Ha : transient (fst (attempt_at a)) = true) by (apply Htr; lia).
    destruct (fst (attempt_at a)) as [ r | e ] eqn:Ea; [ discriminate Ha | ].
    cbn [transient] in Ha. apply negb_true_iff in Ha.
    destruct (search_from_transient json_loads env world user_query
                user_answers questions user_id timeout_ms
                a (seq (S a) n) last e Ea Ha) as [F Hsch].
    fold (search_from (a :: seq (S a) n) last) in F, Hsch.
    fold (search_from (seq (S a) n) (Some e)) in F, Hsch.
    destruct (IH (S a) k (Some e)) as [F' Hsch'];
      [ lia | exact Hmax | intros j Hj; apply Htr; lia | exact Hdec | ].
    rewrite F, Hsch, F', Hsch'. split; [ reflexivity | ].
    replace (k - a)%nat with (S (k - S a))%nat by lia.
    cbn [seq flat_map app].
    replace (a <? MAX_RETRIES)%nat with true
      by (symmetry; apply Nat.ltb_lt; lia).
    reflexivity.
Qed.

Lemma search_from_exhausted :
  forall n a last,
    (forall j, (a <= j < a + n)%nat -> transient (fst (attempt_at j)) = true) ->
    schedule (snd (search_from (seq a n) last))
    = flat_map (fun j => EvAttempt j ::
                         if (j <? MAX_RETRIES)%nat
                         then [EvSleep (2 ^ Z.of_nat j)] else [])
               (seq a n).
Proof.
  induction n as [ | n IH ]; intros a last Htr; [ reflexivity | ].
  cbn [seq flat_map].
  assert (Ha : transient (fst (attempt_at a)) = true) by (apply Htr; lia).
  destruct (fst (attempt_at a)) as [ r | e ] eqn:Ea; [ discriminate Ha | ].
  cbn [transient] in Ha. apply negb_true_iff in Ha.
  destruct (search_from_transient json_loads env world user_query
              user_answers questions user_id timeout_ms
              a (seq (S a) n) last e Ea Ha) as [_ Hsch].
  fold (search_from (a :: seq (S a) n) last) in Hsch.
  fold (search_from (seq (S a) n) (Some e)) in Hsch.
  rewrite Hsch, IH by (intros j Hj; apply Htr; lia).
  reflexivity.
Qed.

End MoreRetryProofs.

(** X17.  If the attempts before attempt [k] (at most 3) fail with
    exceptions other than [ValueError] and attempt [k] returns or raises a
    [ValueError], then [search_with_e2b_exa] returns what attempt [k]
    returned, or the configuration-error dictionary for its [ValueError],
    after sleeping 2, 4, ... seconds between the attempts and with no attempt
    or sleep after attempt [k]. *)
Theorem search_is_decided_by_first_decisive_attempt :
  forall (json_loads : str -> json_result) (env : environ)
         (world : nat -> remote) (user_query : str) (user_answers : dict str)
         (questions : list question) (user_id : option str) (timeout_ms : Z)
         (k : nat),
    (1 <= k <= MAX_RETRIES)%nat ->
    (forall j, (1 <= j < k)%nat ->
       transient (fst (_search_with_e2b_exa_single_attempt json_loads env
                         (world j) user_query user_answers questions user_id
                         timeout_ms)) = true) ->
    transient (fst (_search_with_e2b_exa_single_attempt json_loads env
                      (world k) user_query user_answers questions user_id
                      timeout_ms)) = false ->
    fst (search_with_e2b_exa json_loads env world user_query user_answers
           questions user_id timeout_ms)
    = search_verdict
        (fst (_search_with_e2b_exa_single_attempt json_loads env (world k)
                user_query user_answers questions user_id timeout_ms))
    /\ schedule (snd (search_with_e2b_exa json_loads env world user_query
                        user_answers questions user_id timeout_ms))
       = backoff_until k.
Proof.
  intros json_loads env world q a qs uid t k Hk Htr Hdec.
  unfold search_with_e2b_exa, backoff_until.
  apply (search_from_decided json_loads env world q a qs uid t
           MAX_RETRIES 1 k None); try assumption; unfold MAX_RETRIES in *; lia.
Qed.

Lemma search_is_decided_by_first_decisive_attempt_witness :
  let boom := Exn OtherException (py "connection reset") in
  let world := fun n : nat =>
    if (n <? 3)%nat then failing_remote boom
    else answering_remote (reply (py "1. Product: Shoe")) in
  fst (search_with_e2b_exa json_loads_ref full_environ world (py "shoes") [] []
         None 600000)
  = Return {| success := true;
              results := PList [PDict [(py "title", PStr (py "Shoe"))]];
              error := None |}
  /\ schedule (snd (search_with_e2b_exa json_loads_ref full_environ world
                      (py "shoes") [] [] None 600000))
     = [EvAttempt 1; EvSleep 2; EvAttempt 2; EvSleep 4; EvAttempt 3].
Proof.
  intros boom world.
  destruct (search_is_decided_by_first_decisive_attempt json_loads_ref
              full_environ world (py "shoes") [] [] None 600000 3) as [A B].
  - unfold MAX_RETRIES. lia.
  - intros j Hj.
    assert (E : j = 1%nat \/ j = 2%nat) by lia.
    destruct E as [-> | ->]; vm_compute; reflexivity.
  - vm_compute. reflexivity.
  - split; [ rewrite A; vm_compute; reflexivity | exact B ].
Defined.

(** X18.  Whatever the environment and the remote services do, the
    attempts and sleeps of [search_with_e2b_exa] are attempt 1, then
    possibly a sleep of 2 seconds and attempt 2, then possibly a sleep of 4
    seconds and attempt 3: never more than three attempts, never a sleep
    after the last attempt. *)
Theorem search_schedule_is_bounded :
  forall (json_loads : str -> json_result) (env : environ)
         (world : nat -> remote) (user_query : str) (user_answers : dict str)
         (questions : list question) (user_id : option str) (timeout_ms : Z),
    exists k,
      (1 <= k <= MAX_RETRIES)%nat
      /\ schedule (snd (search_with_e2b_exa json_loads env world user_query
                          user_answers questions user_id timeout_ms))
         = backoff_until k.
Proof.
  intros json_loads env world q a qs uid t.
  set (att := fun n => fst (_search_with_e2b_exa_single_attempt json_loads env
                              (world n) q a qs uid t)).
  assert (D : forall k, (1 <= k <= MAX_RETRIES)%nat ->
              (forall j, (1 <= j < k)%nat -> transient (att j) = true) ->
              transient (att k) = false ->
              schedule (snd (search_with_e2b_exa json_loads env world q a qs uid t))
              = backoff_until k).
  { intros k Hk Htr Hdec.
    apply (search_from_decided json_loads env world q a qs uid t
             MAX_RETRIES 1 k None); try assumption; unfold MAX_RETRIES in *; lia. }
  unfold MAX_RETRIES in *.
  destruct (transient (att 1%nat)) eqn:T1.
  2:{ exists 1%nat. split; [ lia | ]. apply D; [ lia | intros j Hj; lia | exact T1 ]. }
  destruct (transient (att 2%nat)) eqn:T2.
  2:{ exists 2%nat. split; [ lia | ].
      apply D; [ lia | | exact T2 ].
      intros j Hj. replace j with 1%nat by lia. exact T1. }
  destruct (transient (att 3%nat)) eqn:T3.
  2:{ exists 3%nat. split; [ lia | ].
      apply D; [ lia | | exact T3 ].
      intros j Hj. assert (E : j = 1%nat \/ j = 2%nat) by lia.
      destruct E as [-> | ->]; assumption. }
  exists 3%nat. split; [ lia | ].
  unfold search_with_e2b_exa.
  change (seq 1 MAX_RETRIES) with (seq 1 3).
  rewrite (search_from_exhausted json_loads env world q a qs uid t 3 1 None).
  - reflexivity.
  - intros j Hj. assert (E : j = 1%nat \/ j = 2%nat \/ j = 3%nat) by lia.
    destruct E as [-> | [-> | ->]]; assumption.
Qed.

(** ** The question generator *)

Lemma retry_decided :
  forall (call : nat -> outcome (list question)) n a k last,
    (a <= k < a + n)%nat -> (k <= QuestionGenerator.MAX_RETRIES)%nat ->
    (forall j, (a <= j < k)%nat -> transient (call j) = true) ->
    transient (call k) = false ->
    QuestionGenerator.retry_attempts call (seq a n) last
    = (generator_verdict (call k),
       flat_map (fun j => [QuestionGenerator.Call j;
                           QuestionGenerator.Sleep (2 ^ (Z.of_nat j - 1))])
                (seq a (k - a))
       ++ [QuestionGenerator.Call k]).
Proof.
  intros call. induction n as [ | n IH ]; intros a k last Hk Hmax Htr Hdec; [ lia | ].
  cbn [seq QuestionGenerator.retry_attempts].
  destruct (Nat.eq_dec a k) as [E | E].
  - subst a. rewrite Nat.sub_diag. cbn [seq flat_map app].
    destruct (call k) as [ qs | e ]; [ reflexivity | ].
    cbn [transient] in Hdec. apply negb_false_iff in Hdec.
    unfold is_value_error in Hdec.
    destruct (exn_class e); try discriminate Hdec. reflexivity.
  - assert (Ha : transient (call a) = true) by (apply Htr; lia).
    destruct (call a) as [ r | e ] eqn:Ea; [ discriminate Ha | ].
    cbn [transient] in Ha. apply negb_true_iff in Ha.
    rewrite (IH (S a) k (Some e));
      [ | lia | exact Hmax | intros j Hj; apply Htr; lia | exact Hdec ].
    replace (k - a)%nat with (S (k - S a))%nat by lia.
    cbn [seq flat_map app].
    replace (a <? QuestionGenerator.MAX_RETRIES)%nat with true
      by (symmetry; apply Nat.ltb_lt; lia).
    unfold is_value_error in Ha.
    destruct (exn_class e); try discriminate Ha; reflexivity.
Qed.

Lemma retry_exhausted :
  forall (call : nat -> outcome (list question)) n a last,
    (forall j, (a <= j < a + n)%nat -> transient (call j) = true) ->
    snd (QuestionGenerator.retry_attempts call (seq a n) last)
    = flat_map (fun j => QuestionGenerator.Call j ::
                         if (j <? QuestionGenerator.MAX_RETRIES)%nat
                         then [QuestionGenerator.Sleep (2 ^ (Z.of_nat j - 1))]
                         else [])
               (seq a n).
Proof.
  intros call. induction n as [ | n IH ]; intros a last Htr; [ reflexivity | ].
  cbn [seq flat_map QuestionGenerator.retry_attempts].
  assert (Ha : transient (call a) = true) by (apply Htr; lia).
  destruct (call a) as [ r | e ] eqn:Ea; [ discriminate Ha | ].
  cbn [transient] in Ha. apply negb_true_iff in Ha.
  specialize (IH (S a) (Some e) ltac:(intros j Hj; apply Htr; lia)).
  destruct (QuestionGenerator.retry_attempts call (seq (S a) n) (Some e))
    as [r steps].
  cbn [snd] in IH. subst steps.
  unfold is_value_error in Ha.
  destruct (exn_class e); try discriminate Ha; reflexivity.
Qed.

(** X19.  If the calls before call [k] (at most 4) fail with
    exceptions other than [ValueError] and call [k] returns or raises a
    [ValueError], then [generate_questions_with_retry] returns the questions
    of call [k], or raises a [ValueError] that carries its message, after
    sleeping 1, 2, 4 seconds between the calls and with no call or sleep
    after call [k]. *)
Theorem generation_is_decided_by_first_decisive_call :
  forall (call : nat -> outcome (list question)) (k : nat),
    (1 <= k <= QuestionGenerator.MAX_RETRIES)%nat ->
    (forall j, (1 <= j < k)%nat -> transient (call j) = true) ->
    transient (call k) = false ->
    QuestionGenerator.generate_questions_with_retry call
    = (generator_verdict (call k), calls_until k).
Proof.
  intros call k Hk Htr Hdec.
  unfold QuestionGenerator.generate_questions_with_retry, calls_until.
  apply retry_decided; try assumption;
    unfold QuestionGenerator.MAX_RETRIES in *; lia.
Qed.

Lemma generation_is_decided_by_first_decisive_call_witness :
  let call := fun n : nat =>
    if (n <? 2)%nat
    then @Raise (list question) (Exn OtherException (py "timeout"))
    else Raise (Exn ValueError (py "Invalid JSON response: Expecting value")) in
  QuestionGenerator.generate_questions_with_retry call
  = (Raise (Exn ValueError
              (py "Question generation failed: Invalid JSON response: Expecting value")),
     [QuestionGenerator.Call 1; QuestionGenerator.Sleep 1;
      QuestionGenerator.Call 2]).
Proof.
  intros call.
  rewrite (generation_is_decided_by_first_decisive_call call 2).
  - reflexivity.
  - unfold QuestionGenerator.MAX_RETRIES. lia.
  - intros j Hj. replace j with 1%nat by lia. reflexivity.
  - reflexivity.
Defined.

(** X20.  Whatever the calls do, the steps of
    [generate_questions_with_retry] are call 1, then possibly a sleep of 1
    second and call 2, a sleep of 2 seconds and call 3, a sleep of 4 seconds
    and call 4: never more than four calls, never a sleep after the last
    call. *)
Theorem generation_steps_are_bounded :
  forall call : nat -> outcome (list question),
    exists k,
      (1 <= k <= QuestionGenerator.MAX_RETRIES)%nat
      /\ snd (QuestionGenerator.generate_questions_with_retry call)
         = calls_until k.
Proof.
  intro call.
  assert (D : forall k, (1 <= k <= QuestionGenerator.MAX_RETRIES)%nat ->
              (forall j, (1 <= j < k)%nat -> transient (call j) = true) ->
              transient (call k) = false ->
              snd (QuestionGenerator.generate_questions_with_retry call)
              = calls_until k).
  { intros k Hk Htr Hdec.
    unfold QuestionGenerator.generate_questions_with_retry, calls_until.
    rewrite (retry_decided call QuestionGenerator.MAX_RETRIES 1 k None);
      try assumption; [ reflexivity | | ];
      unfold QuestionGenerator.MAX_RETRIES in *; lia. }
  unfold QuestionGenerator.MAX_RETRIES in *.
  destruct (transient (call 1%nat)) eqn:T1.
  2:{ exists 1%nat. split; [ lia | ]. apply D; [ lia | intros j Hj; lia | exact T1 ]. }
  destruct (transient (call 2%nat)) eqn:T2.
  2:{ exists 2%nat. split; [ lia | ].
      apply D; [ lia | | exact T2 ].
      intros j Hj. replace j with 1%nat by lia. exact T1. }
  destruct (transient (call 3%nat)) eqn:T3.
  2:{ exists 3%nat. split; [ lia | ].
      apply D; [ lia | | exact T3 ].
      intros j Hj. assert (E : j = 1%nat \/ j = 2%nat) by lia.
      destruct E as [-> | ->]; assumption. }
  destruct (transient (call 4%nat)) eqn:T4.
  2:{ exists 4%nat. split; [ lia | ].
      apply D; [ lia | | exact T4 ].
      intros j Hj. assert (E : j = 1%nat \/ j = 2%nat \/ j = 3%nat) by lia.
      destruct E as [-> | [-> | ->]]; assumption. }
  exists 4%nat. split; [ lia | ].
  unfold QuestionGenerator.generate_questions_with_retry.
  change (seq 1 QuestionGenerator.MAX_RETRIES) with (seq 1 4).
  rewrite (retry_exhausted call 4 1 None).
  - reflexivity.
  - intros j Hj.
    assert (E : j = 1%nat \/ j = 2%nat \/ j = 3%nat \/ j = 4%nat) by lia.
    destruct E as [-> | [-> | [-> | ->]]]; assumption.
Qed.

(* ================================================================== *)
(** * Credentials, the sandbox, the question generator, the prompt *)
(* ================================================================== *)

(** ** Missing credentials *)

(** X21.  When credentials are missing, [search_with_e2b_exa] makes
    one attempt with no remote call and no sleep, and its error names the
    first missing credential in the order E2B_API_KEY, EXA_API_KEY,
    GROQ_API_KEY. *)
Theorem missing_credentials_are_named_in_order :
  forall (json_loads : str -> json_result) (env : environ)
         (world : nat -> remote) (user_query : str) (user_answers : dict str)
         (questions : list question) (user_id : option str) (timeout_ms : Z),
    let outcome :=
      search_with_e2b_exa json_loads env world user_query user_answers
        questions user_id timeout_ms in
    (unset (E2B_API_KEY env) = true ->
     outcome = (Return (credential_failure "E2B_API_KEY"), [EvAttempt 1]))
    /\ (unset (E2B_API_KEY env) = false -> unset (EXA_API_KEY env) = true ->
        outcome = (Return (credential_failure "EXA_API_KEY"), [EvAttempt 1]))
    /\ (unset (E2B_API_KEY env) = false -> unset (EXA_API_KEY env) = false ->
        unset (GROQ_API_KEY env) = true ->
        outcome = (Return (credential_failure "GROQ_API_KEY"), [EvAttempt 1])).
Proof.
  intros json_loads env world q a qs uid t outcome. subst outcome.
  unfold search_with_e2b_exa. cbn [seq MAX_RETRIES search_attempts].
  unfold _search_with_e2b_exa_single_attempt.
  split; [ | split ].
  - intros ->. reflexivity.
  - intros -> ->. reflexivity.
  - intros -> -> ->. reflexivity.
Qed.

Lemma missing_credentials_are_named_in_order_witness :
  let env := {| E2B_API_KEY := Some (py "e2b"); EXA_API_KEY := Some (py "exa");
                GROQ_API_KEY := Some []; GROQ_MODEL := None |} in
  search_with_e2b_exa json_loads_ref env (fun _ => failing_remote (Exn OtherException []))
    (py "shoes") [] [] None 600000
  = (Return {| success := false; results := PList [];
               error := Some (py "Configuration error: GROQ_API_KEY environment variable is not set") |},
     [EvAttempt 1]).
Proof.
  intro env.
  destruct (missing_credentials_are_named_in_order json_loads_ref env
              (fun _ => failing_remote (Exn OtherException []))
              (py "shoes") [] [] None 600000) as [_ [_ H]].
  exact (H eq_refl eq_refl eq_refl).
Defined.

(** ** Every sandbox gets its kill call *)

Lemma sandbox_run_app :
  forall a b p,
    sandbox_run p (a ++ b)
    = match sandbox_run p a with
      | Some p' => sandbox_run p' b
      | None => None
      end.
Proof.
  induction a as [ | e a IH ]; intros b p; [ reflexivity | ].
  cbn [app sandbox_run]. destruct (sandbox_step p e); [ apply IH | reflexivity ].
Qed.

Lemma single_attempt_sandbox :
  forall json_loads env rem q a qs uid t,
    let trace := snd (_search_with_e2b_exa_single_attempt json_loads env rem
                        q a qs uid t) in
    sandbox_run Idle trace = Some Idle
    \/ sandbox_run Idle trace = Some Requested.
Proof.
  intros json_loads env rem q a qs uid t trace. subst trace.
  unfold _search_with_e2b_exa_single_attempt.
  destruct (unset (E2B_API_KEY env)); [ left; reflexivity | ].
  destruct (unset (EXA_API_KEY env)); [ left; reflexivity | ].
  destruct (unset (GROQ_API_KEY env)); [ left; reflexivity | ].
  destruct (sandbox_create rem _); [ | right; reflexivity ].
  unfold in_sandbox.
  destruct (sandbox_mcp_token rem); [ | left; reflexivity ].
  destruct (chat_create rem _); left; reflexivity.
Qed.

Lemma search_attempts_sandbox :
  forall json_loads env world q a qs uid t attempts last p,
    p <> Entered ->
    exists p',
      sandbox_run p (snd (search_attempts json_loads env world q a qs uid t
                            attempts last)) = Some p'
      /\ p' <> Entered.
Proof.
  intros json_loads env world q a qs uid t.
  induction attempts as [ | n rest IH ]; intros last p Hp.
  - exists p. split; [ reflexivity | exact Hp ].
  - cbn [search_attempts].
    pose proof (single_attempt_sandbox json_loads env (world n) q a qs uid t) as A.
    cbn zeta in A.
    destruct (_search_with_e2b_exa_single_attempt _ _ _ _ _ _ _ _) as [r evs].
    cbn [snd] in A.
    assert (B : exists p1, sandbox_run p (EvAttempt n :: evs) = Some p1
                           /\ p1 <> Entered).
    { cbn [sandbox_run].
      replace (sandbox_step p (EvAttempt n)) with (Some Idle)
        by (destruct p; [ reflexivity | reflexivity | contradiction ]).
      destruct A as [A | A]; rewrite A; eexists; split;
        try reflexivity; discriminate. }
    destruct B as [p1 [B1 B2]].
    destruct r as [ res | e ].
    + exists p1. split; [ exact B1 | exact B2 ].
    + destruct (is_value_error e).
      * exists p1. split; [ exact B1 | exact B2 ].
      * set (sleeps := if (n <? MAX_RETRIES)%nat
                       then [EvSleep (2 ^ Z.of_nat n)] else []).
        assert (C : exists p2, sandbox_run p1 sleeps = Some p2 /\ p2 <> Entered).
        { unfold sleeps. destruct (n <? MAX_RETRIES)%nat.
          - cbn [sandbox_run].
            replace (sandbox_step p1 (EvSleep (2 ^ Z.of_nat n)))
              with (Some Idle)
              by (destruct p1; [ reflexivity | reflexivity | contradiction ]).
            eexists. split; [ reflexivity | discriminate ].
          - exists p1. split; [ reflexivity | exact B2 ]. }
        destruct C as [p2 [C1 C2]].
        destruct (IH (Some e) p2 C2) as [p3 [D1 D2]].
        destruct (search_attempts _ _ _ _ _ _ _ _ rest (Some e)) as [r' evs'].
        cbn [snd] in *.
        exists p3. split; [ | exact D2 ].
        rewrite (sandbox_run_app (EvAttempt n :: evs) (sleeps ++ evs') p), B1.
        rewrite sandbox_run_app, C1. exact D1.
Qed.

(** X22.  In every run of [search_with_e2b_exa] the calls made on
    sandboxes are bracketed: [create] is called only when no earlier sandbox
    still awaits its [kill()] call, the token and the completion are asked
    for only between a creation and the [kill()] call that follows it, and
    [kill()] has been called for every sandbox that was entered before the
    next attempt or sleep and before the function returns, whether the
    attempt returned or raised.  (What [kill()] itself does is not part of
    the statement: the source catches and prints its failure.) *)
Theorem kill_is_called_for_every_sandbox :
  forall (json_loads : str -> json_result) (env : environ)
         (world : nat -> remote) (user_query : str) (user_answers : dict str)
         (questions : list question) (user_id : option str) (timeout_ms : Z),
    exists phase,
      sandbox_run Idle
        (snd (search_with_e2b_exa json_loads env world user_query user_answers
                questions user_id timeout_ms)) = Some phase
      /\ phase <> Entered.
Proof.
  intros. apply search_attempts_sandbox. discriminate.
Qed.

(** ** What one call of the question generator can raise *)

Ltac wrapped_failure H :=
  right; right; injection H as <-; eexists; split; reflexivity.

(** X23.  Every exception of [call_openai_with_validation] has one
    of four forms: the [ValueError] for a missing OPENAI_API_KEY, the
    [ValueError] for a reply that is not JSON, the [ValueError] for a schema
    validation error, or the plain [Exception] that wraps any other failure
    (an error of the completion call, a reply without choices or content, a
    reply that is not an object or lacks a non-empty questions list), which
    is not a [ValueError] and is therefore retried. *)
Theorem call_failures_are_classified :
  forall (json_loads : str -> json_result)
         (validate : pdict -> QuestionGenerator.validation)
         (api_key : option str)
         (chat_create : QuestionGenerator.question_request -> outcome completion)
         (user_query : str) (num_questions num_answers : Z) (e : exn),
    QuestionGenerator.call_openai_with_validation json_loads validate api_key
      chat_create user_query num_questions num_answers = Raise e ->
    (unset api_key = true
     /\ e = Exn ValueError (py "OPENAI_API_KEY environment variable is not set"))
    \/ (exists text why,
           json_loads text = JsonDecodeError why
           /\ e = Exn ValueError (py "Invalid JSON response: " ++ why))
    \/ (exists d why,
           validate d = QuestionGenerator.ValidationError why
           /\ e = Exn ValueError (py "Validation error: " ++ why))
    \/ (exists cause, e = QuestionGenerator.api_error cause
                      /\ is_value_error e = false).
Proof.
  intros json_loads validate api_key chat_create q n a e H.
  unfold QuestionGenerator.call_openai_with_validation in H.
  destruct api_key as [ [ | c k ] | ].
  - left. split; [ reflexivity | congruence ].
  - right.
    destruct (chat_create _) as [ response | e0 ].
    + unfold QuestionGenerator.validate_reply in H.
      destruct (choices response) as [ | msg rest ]; [ wrapped_failure H | ].
      destruct (content msg) as [ [ | x text ] | ]; try wrapped_failure H.
      destruct (json_loads (x :: text)) as [ v | why | e1 ] eqn:J.
      * destruct v as [ | | | | | | d ]; try wrapped_failure H.
        destruct (negb (truthy (py_get d (py "questions"))) || _);
          [ wrapped_failure H | ].
        destruct (validate d) as [ qs | why | e1 ] eqn:V.
        -- discriminate H.
        -- right. left. exists d, why. split; [ exact V | congruence ].
        -- wrapped_failure H.
      * left. exists (x :: text), why. split; [ exact J | congruence ].
      * wrapped_failure H.
    + wrapped_failure H.
  - left. split; [ reflexivity | congruence ].
Qed.

Lemma call_failures_are_classified_witness :
  exists cause,
    Exn OtherException (py "OpenAI API error: Empty response from OpenAI")
    = QuestionGenerator.api_error cause.
Proof.
  destruct (call_failures_are_classified json_loads_ref
              (fun _ => QuestionGenerator.Valid []) (Some (py "key"))
              (fun _ => Return {| choices := [ {| content := None;
                                                  executed_tools := [] |} ] |})
              (py "shoes") 3 3
              (Exn OtherException (py "OpenAI API error: Empty response from OpenAI"))
              eq_refl)
    as [ [U _] | [ [text [why [_ E]]] | [ [d [why [_ E]]] | [cause [E _]] ] ] ].
  - discriminate U.
  - discriminate E.
  - discriminate E.
  - exists cause. exact E.
Defined.

(** ** The question generator end to end *)

(** X24.  Without OPENAI_API_KEY, generating questions raises a
    [ValueError] that names the variable after a single call, with no
    completion request and no sleep. *)
Theorem missing_openai_key_fails_at_once :
  forall (json_loads : str -> json_result)
         (validate : pdict -> QuestionGenerator.validation)
         (api_key : option str)
         (chat : nat -> QuestionGenerator.question_request -> outcome completion)
         (user_query : str) (num_questions num_answers : Z),
    unset api_key = true ->
    generate_questions json_loads validate api_key chat user_query
      num_questions num_answers
    = (Raise (Exn ValueError
                (py "Question generation failed: OPENAI_API_KEY environment variable is not set")),
       [QuestionGenerator.Call 1]).
Proof.
  intros json_loads validate api_key chat q n a U.
  unfold generate_questions, QuestionGenerator.generate_questions_with_retry.
  cbn [seq QuestionGenerator.MAX_RETRIES QuestionGenerator.retry_attempts].
  rewrite (call_without_key_raises_value_error json_loads validate (chat 1%nat)
             q n a api_key U).
  reflexivity.
Qed.

Lemma missing_openai_key_fails_at_once_witness :
  generate_questions json_loads_ref (fun _ => QuestionGenerator.Valid [])
    (Some []) (fun _ _ => Raise (Exn OtherException [])) (py "shoes") 3 3
  = (Raise (Exn ValueError
              (py "Question generation failed: OPENAI_API_KEY environment variable is not set")),
     [QuestionGenerator.Call 1]).
Proof.
  apply missing_openai_key_fails_at_once. reflexivity.
Defined.

(** X25.  When every completion comes back with empty content,
    generating questions makes all four calls, sleeping 1, 2 and 4 seconds
    between them, and raises the final exception: the [ValueError] for an
    empty response is raised inside the [try] block and reaches the
    orchestrator as a plain [Exception]. *)
Theorem empty_replies_are_retried :
  forall (json_loads : str -> json_result)
         (validate : pdict -> QuestionGenerator.validation)
         (c : char) (key : str)
         (chat : nat -> QuestionGenerator.question_request -> outcome completion)
         (user_query : str) (num_questions num_answers : Z),
    (forall attempt request, exists response msg rest,
        chat attempt request = Return response
        /\ choices response = msg :: rest
        /\ QuestionGenerator.is_empty_content (content msg) = true) ->
    generate_questions json_loads validate (Some (c :: key)) chat user_query
      num_questions num_answers
    = (Raise (Exn OtherException
                (py "Question generation failed after 4 attempts. Last error: OpenAI API error: Empty response from OpenAI")),
       [QuestionGenerator.Call 1; QuestionGenerator.Sleep 1;
        QuestionGenerator.Call 2; QuestionGenerator.Sleep 2;
        QuestionGenerator.Call 3; QuestionGenerator.Sleep 4;
        QuestionGenerator.Call 4]).
Proof.
  intros json_loads validate c key chat q n a H.
  assert (E : forall attempt,
             QuestionGenerator.call_openai_with_validation json_loads validate
               (Some (c :: key)) (chat attempt) q n a
             = Raise (Exn OtherException
                        (py "OpenAI API error: Empty response from OpenAI"))).
  { intro attempt. unfold QuestionGenerator.call_openai_with_validation.
    destruct (H attempt
                {| QuestionGenerator.qr_model := py "gpt-3.5-turbo";
                   QuestionGenerator.qr_system :=
                     py "You generate survey questions. Always return valid JSON.";
                   QuestionGenerator.qr_user :=
                     QuestionGenerator.question_prompt q n a |})
      as [response [msg [rest [R [C M]]]]].
    rewrite R. unfold QuestionGenerator.validate_reply. rewrite C.
    destruct (content msg) as [ [ | x text ] | ]; try discriminate M;
      reflexivity. }
  unfold generate_questions, QuestionGenerator.generate_questions_with_retry.
  cbn [seq QuestionGenerator.MAX_RETRIES QuestionGenerator.retry_attempts].
  rewrite !E. reflexivity.
Qed.

Lemma empty_replies_are_retried_witness :
  snd (generate_questions json_loads_ref (fun _ => QuestionGenerator.Valid [])
         (Some (py "key"))
         (fun _ _ => Return {| choices := [ {| content := Some [];
                                               executed_tools := [] |} ] |})
         (py "shoes") 3 3)
  = [QuestionGenerator.Call 1; QuestionGenerator.Sleep 1;
     QuestionGenerator.Call 2; QuestionGenerator.Sleep 2;
     QuestionGenerator.Call 3; QuestionGenerator.Sleep 4;
     QuestionGenerator.Call 4].
Proof.
  pose proof (empty_replies_are_retried json_loads_ref
                (fun _ => QuestionGenerator.Valid []) (ch "k") (py "ey")
                (fun _ _ => Return {| choices := [ {| content := Some [];
                                                      executed_tools := [] |} ] |})
                (py "shoes") 3 3) as H.
  apply (f_equal snd) in H.
  - exact H.
  - intros attempt request. eexists _, _, _.
    split; [ reflexivity | ]. split; reflexivity.
Defined.

(** ** Question texts in the prompt and in the search query *)

Lemma questions_map_fold :
  forall qs m k,
    dict_get (fold_left (fun m q => dict_set m (q_id q) (q_text q)) qs m) k
    = match rev (filter (fun q => str_eqb (q_id q) k) qs) with
      | q :: _ => Some (q_text q)
      | [] => dict_get m k
      end.
Proof.
  induction qs as [ | q qs IH ] using rev_ind; intros m k; [ reflexivity | ].
  rewrite fold_left_app, filter_app, rev_app_distr. cbn [fold_left filter].
  destruct (str_eqb (q_id q) k) eqn:E.
  - cbn [rev app]. apply str_eqb_eq in E. subst k.
    apply dict_get_set_same.
  - cbn [rev app].
    rewrite dict_get_set_other; [ apply IH | ].
    intro X. subst k. rewrite str_eqb_refl in E. discriminate E.
Qed.

(** X26.  In the prompt, the text shown for a question id is that of
    the last question object carrying the id; no text is found when no
    question carries it (the id itself is then shown). *)
Theorem last_question_text_wins_in_prompt :
  forall (questions : list question) (q_id' : str),
    dict_get (questions_map questions) q_id'
    = match rev (filter (fun q => str_eqb (q_id q) q_id') questions) with
      | q :: _ => Some (q_text q)
      | [] => None
      end.
Proof.
  intros qs k. unfold questions_map. rewrite questions_map_fold. reflexivity.
Qed.

(** X27.  The search query is built from the user query and from the
    answers whose question id belongs to a question with a non-empty text:
    leaving out every other answer does not change the query. *)
Theorem unknown_answers_stay_out_of_the_query :
  forall (user_query : str) (user_answers : dict str)
         (questions : list question),
    search_query_of user_query user_answers questions
    = search_query_of user_query
        (filter (fun qa => negb (is_empty (question_text_of questions (fst qa))))
                user_answers)
        questions.
Proof.
  intros q a qs. unfold search_query_of. f_equal. f_equal.
  induction a as [ | qa rest IH ]; [ reflexivity | ].
  cbn [flat_map filter]. cbn zeta. cbn zeta in IH.
  destruct (is_empty (question_text_of qs (fst qa))) eqn:E; cbn [negb].
  - change (is_empty (question_text_of qs (@fst str (list char) qa)) = true) in E.
    rewrite E. exact IH.
  - change (is_empty (question_text_of qs (@fst str (list char) qa)) = false) in E.
    cbn [flat_map]. cbn zeta. rewrite E, IH. reflexivity.
Qed.

(* ================================================================== *)
(** * Structured-Text Parser: blank lines and fallback descriptions *)
(* ================================================================== *)

(** ** Blank lines *)

(** X28.  The line scanner of [parse_response] skips the lines that are
    empty once stripped: they end neither a record nor a section, so
    removing them from the reply does not change what the scan returns. *)
Theorem blank_lines_are_skipped :
  forall (st : scan_state) (lines : list str),
    scan_lines st lines
    = scan_lines st (filter (fun line => negb (is_empty (strip line))) lines).
Proof.
  intros st lines. revert st.
  induction lines as [ | line rest IH ]; intro st; [ reflexivity | ].
  cbn [filter]. destruct (is_empty (strip line)) eqn:E; cbn [negb].
  - cbn [scan_lines]. unfold scan_line at 1. rewrite E. cbn [bind]. apply IH.
  - cbn [scan_lines]. destruct (scan_line st line); cbn [bind];
      [ apply IH | reflexivity ].
Qed.

(** ** Descriptions written by the fallbacks *)

Lemma slice_to_length :
  forall n s, 0 <= n -> len (slice_to n s) <= n.
Proof.
  intros n s Hn. unfold len, slice_to.
  pose proof (slice_index_bound n s Hn).
  rewrite length_firstn. lia.
Qed.

Lemma fallback_section_description :
  forall text r d,
    fallback_section text = Some r ->
    dict_get r k_description = Some d -> len d <= 500.
Proof.
  intros text r d H G. unfold fallback_section in H.
  match type of H with
  | (if has_title ?fr then _ else _) = _ =>
      destruct (has_title fr); [ | discriminate H ]
  end.
  injection H as <-.
  match type of G with
  | dict_get (if is_empty ?desc then ?fr else _) _ = _ =>
      destruct (is_empty desc) eqn:E; set (fr0 := fr) in *
  end.
  - exfalso. revert G. subst fr0.
    repeat match goal with
           | |- context [ if ?b then _ else _ ] => destruct b
           | |- context [ match ?x with _ => _ end ] => destruct x
           end;
      cbn; discriminate.
  - rewrite dict_get_set_same in G. injection G as <-.
    apply slice_to_length. lia.
Qed.

Lemma to_pdict_description :
  forall d n,
    (forall x, dict_get d k_description = Some x -> len x <= n) ->
    description_within n (to_pdict d).
Proof.
  intros d n H. unfold description_within. rewrite dict_get_to_pdict.
  destruct (dict_get d k_description) as [ x | ]; cbn [option_map];
    [ apply H; reflexivity | exact I ].
Qed.

Lemma fallback_sections_description :
  forall texts,
    Forall (description_within 500) (map to_pdict (fallback_sections texts)).
Proof.
  induction texts as [ | t rest IH ]; [ constructor | ].
  cbn [fallback_sections].
  destruct (fallback_section t) as [ r | ] eqn:E; [ | exact IH ].
  cbn [map]. constructor; [ | exact IH ].
  apply to_pdict_description. intros x G.
  exact (fallback_section_description t r x E G).
Qed.

Lemma single_fallback_description :
  forall content urls, description_within 503 (single_fallback content urls).
Proof.
  intros content urls. unfold description_within, single_fallback.
  cbn [dict_get]. change (str_eqb k_title k_description) with false.
  change (str_eqb k_description k_description) with true. cbn iota.
  destruct (len content >? 500) eqn:E.
  - unfold len. rewrite length_app.
    pose proof (slice_to_length 500 content ltac:(lia)) as L.
    unfold len in L. simpl length. lia.
  - rewrite Z.gtb_ltb in E. apply Z.ltb_ge in E. lia.
Qed.

Lemma assign_urls_description :
  forall n pool rs,
    Forall (description_within n) rs ->
    Forall (description_within n) (assign_urls pool rs).
Proof.
  intros n pool rs. revert pool.
  induction rs as [ | r rest IH ]; intros pool H; [ constructor | ].
  inversion H as [ | ? ? Hr Hrest ]; subst. cbn [assign_urls].
  destruct (truthy (py_get r k_url)); [ constructor; auto | ].
  destruct pool as [ | u pool' ]; [ constructor; auto | ].
  constructor; [ | apply IH; exact Hrest ].
  unfold description_within in *.
  rewrite dict_get_set_other; [ exact Hr | discriminate ].
Qed.

(** X29.  When the line scanner finds no titled record, every record
    that the fallbacks produce has a description of at most 503 characters
    (500 for a numbered section, 500 and three dots for the single record),
    or none; the final URL pass leaves it as it is. *)
Theorem fallback_descriptions_are_bounded :
  forall (content : str) (rs : list pdict),
    labeled_scan content = Return [] ->
    parse_text content = Return rs ->
    Forall (description_within 503) rs.
Proof.
  intros content rs Hscan H.
  assert (T : exists rs0, text_records content = Return rs0
                          /\ Forall (description_within 503) rs0).
  { unfold text_records. rewrite Hscan. cbn [bind].
    destruct (is_empty content); [ eexists; split; [ reflexivity | constructor ] | ].
    destruct (1 <? _).
    - eexists. split; [ reflexivity | ].
      eapply Forall_impl; [ | apply fallback_sections_description ].
      intros r Hr. unfold description_within in *.
      destruct (dict_get r k_description) as [ [ | | | | d | | ] | ];
        try exact Hr. lia.
    - eexists. split; [ reflexivity | ].
      constructor; [ apply single_fallback_description | constructor ]. }
  destruct T as [rs0 [E F]].
  rewrite (parse_text_is_assign content rs0 E) in H.
  apply Return_inj in H. subst rs. apply assign_urls_description. exact F.
Qed.

Lemma fallback_descriptions_are_bounded_witness :
  exists rs,
    parse_text (py "Try the **Trail Shoe** from http://s.example/0") = Return rs
    /\ Forall (description_within 503) rs.
Proof.
  eexists. split; [ vm_compute; reflexivity | ].
  apply (fallback_descriptions_are_bounded
           (py "Try the **Trail Shoe** from http://s.example/0")).
  - vm_compute. reflexivity.
  - vm_compute. reflexivity.
Defined.
